(** * svm_wrapper: boosted cascade, normalisation, cross-validated SVM training

    Shallow embedding of [cameraGeom/geom/svm_wrapper.cpp].

    Numbers.  The C++ [double] and [float] values are modelled by
    rationals [Q].  Where a property depends on the rounding of the
    machine arithmetic (the calibrated probability, the class weights)
    every operation of the source carries its rounding: [fl] for an
    operation on [double], [float_cast] for a narrowing cast [(float)e] or
    an operation on [float].  Both are parameters; [round_binary] is
    rounding to nearest, ties to even, and [round_double] and
    [round_float] are its instances.  Elsewhere the operations are the
    exact ones of [Q].  The only non-finite value the modelled expressions
    can produce is the quotient [0/0]; it is kept as [NaN] in the type
    [double] used for the scoring functions.

    Failure.  [CHECK]-style macros abort the run; OpenCV calls may throw
    [cv::Exception]; reading the first element of an empty collection is
    undefined.  The three are kept apart in the type [outcome].

    External engine.  [cv::SVM] is a parameter: a type of trained models,
    [svm_train], [svm_predict] and [get_support_vector_count].  Every call
    that reaches the engine is recorded in a trace, so that "the engine is
    not called" is a statement about the trace. *)

From Stdlib Require Import QArith Qabs Qround Qpower ZArith List String Bool Lia Lqa.
From Stdlib Require Import Permutation Sorted.
Import ListNotations.

Open Scope Q_scope.

(** ** Comparisons of the source, as boolean tests on [Q] *)

Definition Qltb (x y : Q) : bool := negb (Qle_bool y x).
Definition Qgtb (x y : Q) : bool := Qltb y x.
Definition Qleb (x y : Q) : bool := Qle_bool x y.
Definition Qgeb (x y : Q) : bool := Qle_bool y x.
Definition Qneb (x y : Q) : bool := negb (Qeq_bool x y).

(** [fabs] of <math.h>. *)
Definition fabs (x : Q) : Q := Qabs x.

(** [HUGE] of <math.h> (glibc: [3.40282347e+38F], the largest finite
    [float], (2 - 2^-23) * 2^127). *)
Definition HUGE : Q := 340282346638528859811704183484516925440.

(** ** Rounding of the binary formats *)

(** The exponent of a positive number: the [e] with 2^e <= q < 2^(e+1). *)
Definition ilog2 (q : Q) : Z :=
  let k := (Z.log2 (Qnum q) - Z.log2 (Z.pos (Qden q)))%Z in
  if Qle_bool (2 ^ k) q then k else (k - 1)%Z.

(** The nearest integer, a tie going to the even one. *)
Definition rne (q : Q) : Z :=
  let f := Qfloor q in
  let r := q - inject_Z f in
  if Qltb r (1 # 2) then f
  else if Qltb (1 # 2) r then (f + 1)%Z
  else if Z.even f then f else (f + 1)%Z.

(** A positive number rounded to [prec] significant bits. *)
Definition round_pos (prec : Z) (q : Q) : Q :=
  let ulp := 2 ^ (ilog2 q - prec + 1) in
  inject_Z (rne (q / ulp)) * ulp.

(** Rounding to nearest, ties to even, in a binary format of [prec]
    significant bits (IEEE 754 away from overflow and underflow). *)
Definition round_binary (prec : Z) (q : Q) : Q :=
  if Qltb 0 q then round_pos prec q
  else if Qltb q 0 then - round_pos prec (- q)
  else 0.

(** [double] and [float]. *)
Definition round_double : Q -> Q := round_binary 53.
Definition round_float : Q -> Q := round_binary 24.

(** Indexing of a [std::vector<double>] or of a one-row [cv::Mat] by an
    [int].  An index outside the vector is undefined behaviour in the
    source; the model reads 0 there. *)
Definition at_ (v : list Q) (i : Z) : Q := nth (Z.to_nat i) v 0.

(** ** Outcomes of a call *)

Inductive outcome (A : Type) : Type :=
| Ret (a : A)
| Fatal (msg : string)
| CvException
| Undefined.

Arguments Ret {A} a.
Arguments Fatal {A} msg.
Arguments CvException {A}.
Arguments Undefined {A}.

Definition obind {A B : Type} (m : outcome A) (k : A -> outcome B) : outcome B :=
  match m with
  | Ret a => k a
  | Fatal msg => Fatal msg
  | CvException => CvException
  | Undefined => Undefined
  end.

(** Modelled from the spec: the macro [CHECK(cond, msg)] of the util
    headers is not part of the sources; it aborts ("fatal") when [cond]
    holds. *)
Definition CHECK (cond : bool) (msg : string) : outcome unit :=
  if cond then Fatal msg else Ret tt.

(** Modelled from the spec: the macro [CHECKPROBABILITY(x)] of the util
    headers is not part of the sources; "a probability value outside
    [0,1]" is fatal. *)
Definition CHECKPROBABILITY (x : Q) : outcome unit :=
  CHECK (Qltb x 0 || Qgtb x 1) "Probability outside [0,1]".

(** Modelled from the spec: the helper [zero(x)] of the util headers is not
    part of the sources; it tests whether [x] vanishes. *)
Definition zero (x : Q) : bool := Qeq_bool x 0.

(** [double] values that may be the quotient 0/0. *)
Inductive double : Type :=
| Num (q : Q)
| NaN.

(** [a / b] where, at every use in the source, [b = 0] forces [a = 0]. *)
Definition ddiv (a b : Q) : double :=
  if Qeq_bool b 0 then NaN else Num (a / b).

Definition dadd (x y : double) : double :=
  match x, y with
  | Num a, Num b => Num (a + b)
  | _, _ => NaN
  end.

Definition dmap (f : Q -> Q) (x : double) : double :=
  match x with
  | Num a => Num (f a)
  | NaN => NaN
  end.

(** [svmClass]: the class of a raw score. *)
Definition svmClass (fScore : Q) : bool := Qgtb fScore 0.

(** [CSVMTraining::svmScore]: the label value of a class. *)
Definition svmScore (bLabel : bool) : Q := if bLabel then 1 else -1.

(** ** The engine and its trace *)

Record SVMParams : Type := mkSVMParams {
  nu : Q;
  gamma : Q;
  class_weights : Q * Q
}.

Inductive engine_event : Type :=
| EvTrain (features : list (list Q)) (labels : list Q) (params : SVMParams)
| EvPredict (row : list Q).

Definition trace : Type := list engine_event.

(** Computations that may call the engine. *)
Definition M (A : Type) : Type := trace -> outcome A * trace.

Definition ret {A : Type} (a : A) : M A := fun tr => (Ret a, tr).

Definition lift {A : Type} (o : outcome A) : M A := fun tr => (o, tr).

Definition bind {A B : Type} (m : M A) (k : A -> M B) : M B :=
  fun tr =>
    match m tr with
    | (Ret a, tr') => k a tr'
    | (Fatal msg, tr') => (Fatal msg, tr')
    | (CvException, tr') => (CvException, tr')
    | (Undefined, tr') => (Undefined, tr')
    end.

(** [try { m } catch(const cv::Exception&) { h }] *)
Definition try_catch {A : Type} (m : M A) (h : M A) : M A :=
  fun tr =>
    match m tr with
    | (CvException, tr') => h tr'
    | r => r
    end.

Declare Scope engine_scope.
Delimit Scope engine_scope with engine.
Notation "x <- m ;; k" := (bind m (fun x => k))
  (at level 61, m at next level, right associativity) : engine_scope.
Notation "m ;;; k" := (bind m (fun _ => k))
  (at level 61, right associativity) : engine_scope.

(** ** CSigmoidParams *)

Module CSigmoidParams.

Record t : Type := mk {
  dThreshLo : Q;
  dThreshHi : Q;
  dShift : Q;
  dScale : Q
}.

(** The default constructor arguments. *)
Definition default : t := mk 0.1 0.9 0 1.

Definition validate (p : t) : outcome unit :=
  obind (CHECKPROBABILITY (dThreshLo p)) (fun _ =>
  obind (CHECKPROBABILITY (dThreshHi p)) (fun _ =>
  obind (CHECK (Qgeb (dThreshLo p) (dThreshHi p)) "Bad thresholds") (fun _ =>
  obind (CHECK (Qleb (dScale p) 0) "Bad scale") (fun _ =>
  CHECK (Qgeb (dThreshLo p) (dThreshHi p)) "Bad thresholds")))).

Section Sigmoid.
(** [exp] of <math.h>. *)
Variable exp : Q -> Q.
(** The rounding of the result of an operation on [double]. *)
Variable fl : Q -> Q.

Definition logisticSigmoid (x : Q) : Q := fl (1 / fl (1 + exp (- x))).

Definition prob (p : t) (dResponse : Q) : Q :=
  fl (dThreshLo p
      + fl (fl (dThreshHi p - dThreshLo p)
            * logisticSigmoid (fl (dScale p * fl (dResponse - dShift p))))).
End Sigmoid.

End CSigmoidParams.

(** ** CBoosterState *)

Module CBoosterState.

Record t : Type := mk {
  nFeatureIdx : Z;
  dThreshold : Q;
  bRejectAbove : bool
}.

(** The default constructor. *)
Definition default : t := mk (-1) HUGE false.

Definition rejectAbove (s : t) : bool := bRejectAbove s.
Definition getThreshold (s : t) : Q := dThreshold s.
Definition getFeatureIdx (s : t) : Z := nFeatureIdx s.

End CBoosterState.

(** An ordered cascade of boosters. *)
Definition TBoosterStates : Type := list CBoosterState.t.

Definition TFeatureIdxSubset : Type := list Z.
Definition TNormalisingCoefficients : Type := list Q.
Definition TLabelledFeatures : Type := list (list Q).
Definition TPRLookup : Type := (list Q * list Q)%type.

(** ** CSVMFeature_base: a feature whose coefficients are computed on demand *)

Module CSVMFeature_base.

Record t : Type := mk {
  value_int : Z -> Q;
  dimension : Z
}.

Section Value.
Variable float_cast : Q -> Q.

(** The cache of computed values is not observable; [value] is the
    narrowed coefficient. *)
Definition value (f : t) (nIdx : Z) : Q := float_cast (value_int f nIdx).
End Value.

End CSVMFeature_base.

(** ** CBoostedFilter and CBoostedFilters *)

Module CBoostedFilter.

Definition t : Type := CBoosterState.t.

Definition keepVal (state : t) (dFeatureVal : Q) : bool :=
  if CBoosterState.rejectAbove state
  then Qltb dFeatureVal (CBoosterState.getThreshold state)
  else Qgtb dFeatureVal (CBoosterState.getThreshold state).

(** On a lazily computed feature. *)
Definition keepPotentialCandidate (float_cast : Q -> Q)
    (state : t) (pFeature : CSVMFeature_base.t) : bool :=
  keepVal state
    (CSVMFeature_base.value float_cast pFeature (CBoosterState.getFeatureIdx state)).

(** On a stored training feature. *)
Definition keepPotentialCandidateMat (state : t) (feature : list Q) : bool :=
  keepVal state (at_ feature (CBoosterState.getFeatureIdx state)).

End CBoostedFilter.

Module CBoostedFilters.

Definition t : Type := list CBoostedFilter.t.

Definition make (aBoosterStates : TBoosterStates) : t :=
  map (fun boosterState => boosterState) aBoosterStates.

Fixpoint keepPotentialCandidate (float_cast : Q -> Q)
    (aFilters : t) (pFeature : CSVMFeature_base.t) : bool :=
  match aFilters with
  | [] => true
  | filter :: rest =>
      if negb (CBoostedFilter.keepPotentialCandidate float_cast filter pFeature)
      then false
      else keepPotentialCandidate float_cast rest pFeature
  end.

End CBoostedFilters.

(** ** The external classifier engine ([cv::SVM]) *)

Record Engine : Type := mkEngine {
  svm_model : Type;
  (** a default-constructed [cv::SVM] *)
  svm_default : svm_model;
  (** [svm.train]; [None] when the engine throws *)
  svm_train : list (list Q) -> list Q -> SVMParams -> option svm_model;
  (** [svm.predict(row, true)]: the raw decision value; [None] when the
      engine throws *)
  svm_predict : svm_model -> list Q -> option Q;
  get_support_vector_count : svm_model -> Z
}.

Definition of_engine {A : Type} (r : option A) : outcome A :=
  match r with
  | Some a => Ret a
  | None => CvException
  end.

Definition predict (E : Engine) (svm : svm_model E) (row : list Q) : M Q :=
  fun tr => (of_engine (svm_predict E svm row), tr ++ [EvPredict row]).

Definition train (E : Engine) (features : list (list Q)) (labels : list Q)
    (params : SVMParams) : M (svm_model E) :=
  fun tr => (of_engine (svm_train E features labels params),
             tr ++ [EvTrain features labels params]).

(** ** Labelled training examples: [aaadFeatures[2]] *)

Record LabelledSets : Type := mkSets {
  negatives : TLabelledFeatures;   (* aaadFeatures[0] *)
  positives : TLabelledFeatures    (* aaadFeatures[1] *)
}.

Definition sel (aaadFeatures : LabelledSets) (bLabel : bool) : TLabelledFeatures :=
  if bLabel then positives aaadFeatures else negatives aaadFeatures.

(** [aaadFeatures[false][0].cols]; reading the first negative example of an
    empty collection is undefined in the source. *)
Definition cols0 (aaadFeatures : LabelledSets) : option nat :=
  match negatives aaadFeatures with
  | feature :: _ => Some (List.length feature)
  | [] => None
  end.

(** Modelled from the spec: the macro [CHECKBADNUM(x)] of the util headers
    is not part of the sources; it aborts on a value that is not a finite
    number.  Every value of the model is one. *)
Definition CHECKBADNUM (x : Q) : outcome unit := Ret tt.

(** [v[n] = x] on a vector (nothing is written outside the vector). *)
Fixpoint set_at (v : list Q) (n : nat) (x : Q) : list Q :=
  match v, n with
  | [], _ => []
  | _ :: rest, O => x :: rest
  | y :: rest, S n' => y :: set_at rest n' x
  end.

(** ** CFeatureSubsetSelecter *)

Module CFeatureSubsetSelecter.

Record t : Type := mk {
  anFeatureIdxSubset : TFeatureIdxSubset;
  adNormalisingMean : TNormalisingCoefficients;
  adNormalisingScale : TNormalisingCoefficients
}.

Definition default : t := mk [] [] [].

Definition setFeatureIdxSubset (s : t) (anFeatureIdxSubset_in : TFeatureIdxSubset) : t :=
  mk anFeatureIdxSubset_in (adNormalisingMean s) (adNormalisingScale s).

Definition getFeatureIdxSubset (s : t) : TFeatureIdxSubset := anFeatureIdxSubset s.

Section Selecter.
Variable float_cast : Q -> Q.
(** [meanSD] of the util headers: mean and standard deviation of a
    sample. *)
Variable meanSD : list Q -> Q * Q.

(** [selectAndNormalise(CSVMFeature_base*, cv::Mat&)] *)
Definition selectAndNormalise (s : t) (pFeature : CSVMFeature_base.t) : list Q :=
  map (fun nIdx =>
         float_cast (at_ (adNormalisingScale s) nIdx
                     * (CSVMFeature_base.value float_cast pFeature nIdx
                        - at_ (adNormalisingMean s) nIdx)))
      (anFeatureIdxSubset s).

(** [selectAndNormalise(const cv::Mat&)] *)
Definition selectAndNormaliseMat (s : t) (feature : list Q) : outcome (list Q) :=
  obind (CHECK (Nat.eqb (List.length (anFeatureIdxSubset s)) 0) "Empty feature subset") (fun _ =>
  let featureSubset :=
    map (fun nIdx =>
           float_cast (at_ (adNormalisingScale s) nIdx
                       * (at_ feature nIdx - at_ (adNormalisingMean s) nIdx)))
        (anFeatureIdxSubset s) in
  obind (CHECK (Nat.eqb (List.length featureSubset) 0) "No data selected") (fun _ =>
  Ret featureSubset)).

(** The values of coefficient [nFeature], negatives first. *)
Definition adVals (aaadFeatures : LabelledSets) (nFeature : nat) : list Q :=
  map (fun feature => at_ feature (Z.of_nat nFeature)) (negatives aaadFeatures)
  ++ map (fun feature => at_ feature (Z.of_nat nFeature)) (positives aaadFeatures).

(** [findNormalisingCoeffs(aaadFeatures, nFeature, dMean, dScale)] *)
Definition findNormalisingCoeffs1 (aaadFeatures : LabelledSets) (nFeature : nat)
    : Q * Q :=
  let (dMean, dSD) := meanSD (adVals aaadFeatures nFeature) in
  let dScale := if Qgtb dSD 0 then 1 / dSD else 1 in
  (dMean, dScale).

(** The loop over [nFeature] of [findNormalisingCoeffs(aaadFeatures)]. *)
Fixpoint findNormalisingCoeffs_loop (aaadFeatures : LabelledSets)
    (todo : list nat) (mean scale : TNormalisingCoefficients)
    : outcome (TNormalisingCoefficients * TNormalisingCoefficients) :=
  match todo with
  | [] => Ret (mean, scale)
  | nFeature :: rest =>
      let (dMean, dScale) := findNormalisingCoeffs1 aaadFeatures nFeature in
      let mean' := set_at mean nFeature dMean in
      let scale' := set_at scale nFeature dScale in
      obind (CHECK (Qeq_bool (nth nFeature scale' 0) 0) "Bad scale") (fun _ =>
      obind (CHECKBADNUM (nth nFeature scale' 0)) (fun _ =>
      findNormalisingCoeffs_loop aaadFeatures rest mean' scale'))
  end.

(** [findNormalisingCoeffs(aaadFeatures)] *)
Definition findNormalisingCoeffs (s : t) (aaadFeatures : LabelledSets)
    : outcome t :=
  match cols0 aaadFeatures with
  | None => Undefined
  | Some nDims =>
      obind (findNormalisingCoeffs_loop aaadFeatures (seq 0 nDims)
               (repeat 0 nDims) (repeat 0 nDims))
            (fun ms => Ret (mk (anFeatureIdxSubset s) (fst ms) (snd ms)))
  end.
End Selecter.

End CFeatureSubsetSelecter.

(** ** CSavedSVMState *)

(** The structured state file. *)
Record StateFile : Type := mkStateFile {
  f_boosterStates : list (Q * Q * Q);   (* rows of the 3-column matrix *)
  f_featureSubset : list Z;
  f_normalisingMean : list Q;
  f_normalisingScale : list Q;
  f_signCorrection : Q;
  f_boundaries : option (list Q);
  f_precision : list Q;
  f_sigmoid : option CSigmoidParams.t;
  f_trainingDetails : string
}.

(** [CSVMClassifier_base::NO_PRECISION] *)
Definition NO_PRECISION : Q := -1.

(** [(int)d]: truncation towards zero. *)
Definition int_of_double (d : Q) : Z :=
  if Qltb d 0 then Qceiling d else Qfloor d.

(** [(bool)d] *)
Definition bool_of_double (d : Q) : bool := Qneb d 0.

Definition double_of_bool (b : bool) : Q := if b then 1 else 0.

Module CSavedSVMState.

Record t : Type := mk {
  boosterStates : TBoosterStates;
  featureSubset : CFeatureSubsetSelecter.t;
  dSignCorrection : Q;
  dClassificationBoundary : Q;
  sigmoidParams : CSigmoidParams.t
}.

(** The four locals [dBoundary1, dBoundary2, dP1, dP2] of
    [interpPrecisionBoundary]. *)
Record nearest2 : Type := mkNearest2 {
  dBoundary1 : Q;
  dBoundary2 : Q;
  dP1 : Q;
  dP2 : Q
}.

Definition nearest2_init : nearest2 := mkNearest2 0 0 HUGE HUGE.

(** One iteration of the loop over the lookup. *)
Definition nearest2_step (dTargetPrecision : Q) (acc : nearest2)
    (dBoundary dPrecision : Q) : nearest2 :=
  if Qltb (fabs (dPrecision - dTargetPrecision)) (fabs (dP1 acc - dTargetPrecision))
  then mkNearest2 dBoundary (dBoundary1 acc) dPrecision (dP1 acc)
  else if Qltb (fabs (dPrecision - dTargetPrecision)) (fabs (dP2 acc - dTargetPrecision))
  then mkNearest2 (dBoundary1 acc) dBoundary (dP1 acc) dPrecision
  else acc.

Definition nearest2_loop (dTargetPrecision : Q) (PRLookup : TPRLookup) : nearest2 :=
  fold_left
    (fun acc i =>
       nearest2_step dTargetPrecision acc
         (nth i (fst PRLookup) 0) (nth i (snd PRLookup) 0))
    (seq 0 (List.length (fst PRLookup)))
    nearest2_init.

(** The straight line through the two retained samples.  When
    [dP2 = dP1] the slope of the source is not a finite number, every
    value derived from it is not a number, and the [CHECK] fires. *)
Definition fit_line (dTargetPrecision : Q) (acc : nearest2) : outcome Q :=
  if Qeq_bool (dP2 acc - dP1 acc) 0
  then Fatal "Line fit failed (probably a horizontal line)"
  else
    let m := (dBoundary2 acc - dBoundary1 acc) / (dP2 acc - dP1 acc) in
    let c := dBoundary1 acc - m * dP1 acc in
    obind (CHECK (negb (zero (c - (dBoundary2 acc - m * dP2 acc))))
                 "Line fit failed (probably a horizontal line)") (fun _ =>
    Ret (dTargetPrecision * m + c)).

Definition interpPrecisionBoundary (dTargetPrecision : Q) (PRLookup : TPRLookup)
    : outcome Q :=
  fit_line dTargetPrecision (nearest2_loop dTargetPrecision PRLookup).

(** The loading constructor. *)
Definition load (fs : StateFile) (dPrecision : Q) : outcome t :=
  let boosterStates :=
    map (fun row : Q * Q * Q =>
           let '(r0, r1, r2) := row in
           CBoosterState.mk (int_of_double r0) r1 (bool_of_double r2))
        (f_boosterStates fs) in
  let featureSubset :=
    CFeatureSubsetSelecter.mk (f_featureSubset fs) (f_normalisingMean fs)
                              (f_normalisingScale fs) in
  let dSignCorrection := f_signCorrection fs in
  obind
    (match f_boundaries fs with
     | Some boundaries =>
         if Qneb dPrecision NO_PRECISION
         then interpPrecisionBoundary dPrecision (boundaries, f_precision fs)
         else Ret 0
     | None => Ret 0
     end)
    (fun dClassificationBoundary =>
       let sigmoidParams :=
         match f_sigmoid fs with
         | Some p => p
         | None => CSigmoidParams.default
         end in
       Ret (mk boosterStates featureSubset dSignCorrection
               dClassificationBoundary sigmoidParams)).

(** The saving constructor: the state file, and the engine's model file
    when there is a trained model. *)
Definition save (E : Engine) (boosterStates : TBoosterStates)
    (featureSubset : CFeatureSubsetSelecter.t) (svm : svm_model E)
    (dSignCorrection : Q) (PRLookup : TPRLookup)
    (sigmoidParams : CSigmoidParams.t) (trainingDetails : string)
    : StateFile * option (svm_model E) :=
  let boosterStatesMat :=
    map (fun s =>
           (inject_Z (CBoosterState.getFeatureIdx s),
            CBoosterState.getThreshold s,
            double_of_bool (CBoosterState.rejectAbove s)))
        boosterStates in
  (mkStateFile boosterStatesMat
               (CFeatureSubsetSelecter.anFeatureIdxSubset featureSubset)
               (CFeatureSubsetSelecter.adNormalisingMean featureSubset)
               (CFeatureSubsetSelecter.adNormalisingScale featureSubset)
               dSignCorrection
               (Some (fst PRLookup)) (snd PRLookup)
               (Some sigmoidParams)
               trainingDetails,
   if Qneb dSignCorrection 0 then Some svm else None).

Definition getSigmoidParams (s : t) := sigmoidParams s.
Definition getFeatureSubset (s : t) := featureSubset s.
Definition getBoosterStates (s : t) := boosterStates s.
Definition getSignCorrection (s : t) := dSignCorrection s.
Definition getClassificationBoundary (s : t) := dClassificationBoundary s.

End CSavedSVMState.

(** ** CSVMClassifier *)

Module CSVMClassifier.

Section Classifier.
Variable E : Engine.
Variable float_cast : Q -> Q.
Variable exp : Q -> Q.
Variable fl : Q -> Q.

Record t : Type := mk {
  savedState : CSavedSVMState.t;
  boostedFilters : CBoostedFilters.t;
  featureSubsetSelecter : CFeatureSubsetSelecter.t;
  svm : svm_model E
}.

(** The constructor; [svmFile] is the content of the engine's model
    file, read only when there is a trained model. *)
Definition make (fs : StateFile) (svmFile : svm_model E) (dPrecision : Q)
    : outcome t :=
  obind (CSavedSVMState.load fs dPrecision) (fun savedState =>
  Ret (mk savedState
          (CBoostedFilters.make (CSavedSVMState.getBoosterStates savedState))
          (CSavedSVMState.getFeatureSubset savedState)
          (if Qneb (CSavedSVMState.getSignCorrection savedState) 0
           then svmFile else svm_default E))).

Open Scope engine_scope.

Definition classify (c : t) (pFeature : CSVMFeature_base.t) : M Q :=
  if negb (CBoostedFilters.keepPotentialCandidate float_cast (boostedFilters c) pFeature)
  then ret (-1)
  else if Qeq_bool (CSavedSVMState.getSignCorrection (savedState c)) 0
  then ret 1
  else
    let feature :=
      CFeatureSubsetSelecter.selectAndNormalise float_cast
        (featureSubsetSelecter c) pFeature in
    r <- predict E (svm c) feature ;;
    let dSVMVal := r - CSavedSVMState.getClassificationBoundary (savedState c) in
    ret (CSavedSVMState.getSignCorrection (savedState c) * dSVMVal).

(** [probability(pFeature, pdScore)]: the probability, with the score
    written through [pdScore]. *)
Definition probability (c : t) (pFeature : CSVMFeature_base.t) : M (Q * Q) :=
  lift (CSigmoidParams.validate (CSavedSVMState.getSigmoidParams (savedState c))) ;;;
  dScore <- classify c pFeature ;;
  let dProb :=
    CSigmoidParams.prob exp fl (CSavedSVMState.getSigmoidParams (savedState c))
                        dScore in
  lift (CHECKPROBABILITY dProb) ;;;
  ret (dProb, dScore).
End Classifier.

End CSVMClassifier.

(** ** CSVMTraining: the boosting cascade *)

Definition TOneFeatureVal : Type := (Q * bool)%type.
Definition TBoosterCandidate : Type := (Q * CBoosterState.t)%type.

Definition sortByOneFeature_asc (d1 d2 : TOneFeatureVal) : bool :=
  Qltb (fst d1) (fst d2).
Definition sortByOneFeature_desc (d1 d2 : TOneFeatureVal) : bool :=
  Qgtb (fst d1) (fst d2).

(** [std::sort] with a comparator.  The order in which the library leaves
    elements that compare equal is unspecified; the scan below reads the
    counters only between two different values, so it does not depend on
    it. *)
Fixpoint insert_sorted (lt : TOneFeatureVal -> TOneFeatureVal -> bool)
    (x : TOneFeatureVal) (l : list TOneFeatureVal) : list TOneFeatureVal :=
  match l with
  | [] => [x]
  | y :: l' => if lt x y then x :: y :: l' else y :: insert_sorted lt x l'
  end.

Definition std_sort (lt : TOneFeatureVal -> TOneFeatureVal -> bool)
    (l : list TOneFeatureVal) : list TOneFeatureVal :=
  fold_right (insert_sorted lt) [] l.

(** The unsorted [aSortedFeatures] of [findBoosterState]. *)
Definition oneFeatureVals (aaadFeatures : LabelledSets) (nIdx : Z)
    : list TOneFeatureVal :=
  map (fun feature => (at_ feature nIdx, false)) (negatives aaadFeatures)
  ++ map (fun feature => (at_ feature nIdx, true)) (positives aaadFeatures).

(** The walk over the sorted values, for [i] from 0 to [size - 2]; the
    result is [(dBestThreshPosBelow, dNumRemovedBelow)]. *)
Fixpoint scan (l : list TOneFeatureVal)
    (dPos dNeg dBestThreshPosBelow dNumRemovedBelow : Q) : Q * Q :=
  match l with
  | [] => (dBestThreshPosBelow, dNumRemovedBelow)
  | a :: rest =>
      match rest with
      | [] => (dBestThreshPosBelow, dNumRemovedBelow)
      | b :: _ =>
          let dPos' := if snd a then dPos + 1 else dPos in
          let dNeg' := if snd a then dNeg else dNeg + 1 in
          if Qltb dPos' (0.0005 * dNeg') && Qneb (fst a) (fst b)
          then scan rest dPos' dNeg' (0.5 * (fst a + fst b)) dNeg'
          else scan rest dPos' dNeg' dBestThreshPosBelow dNumRemovedBelow
      end
  end.

Definition sortedFeatures (aaadFeatures : LabelledSets) (nIdx : Z)
    (bRejectAbove : bool) : list TOneFeatureVal :=
  std_sort (if bRejectAbove then sortByOneFeature_desc else sortByOneFeature_asc)
           (oneFeatureVals aaadFeatures nIdx).

(** [(dBestThreshPosBelow, dNumRemovedBelow)] after the walk. *)
Definition bestSplit (aaadFeatures : LabelledSets) (nIdx : Z)
    (bRejectAbove : bool) : Q * Q :=
  scan (sortedFeatures aaadFeatures nIdx bRejectAbove) 0 0 (- HUGE) (-1).

Definition size_Q {A : Type} (l : list A) : Q := inject_Z (Z.of_nat (List.length l)).

Definition dMinimumPower : Q := 0.1.

Definition findBoosterState (aaadFeatures : LabelledSets) (nIdx : Z)
    (bRejectAbove : bool) : TBoosterCandidate :=
  let (dBestThreshPosBelow, dNumRemovedBelow) :=
    bestSplit aaadFeatures nIdx bRejectAbove in
  let dPropOfNegativeExamplesRemoved :=
    dNumRemovedBelow / size_Q (negatives aaadFeatures) in
  if Qltb dPropOfNegativeExamplesRemoved dMinimumPower || Qltb dNumRemovedBelow 150
  then (0, CBoosterState.default)
  else (dPropOfNegativeExamplesRemoved,
        CBoosterState.mk nIdx dBestThreshPosBelow bRejectAbove).

(** The pairs [(nRejectAbove, nIdx)] in the order of the two nested
    loops of [findBestBoosterState]. *)
Definition candidateOrder (nDims : nat) : list (bool * Z) :=
  flat_map (fun bRejectAbove =>
              map (fun nIdx => (bRejectAbove, Z.of_nat nIdx)) (seq 0 nDims))
           [false; true].

Definition betterCandidate (aaadFeatures : LabelledSets)
    (bestBoosterCandidate : TBoosterCandidate) (c : bool * Z) : TBoosterCandidate :=
  let boosterCandidate := findBoosterState aaadFeatures (snd c) (fst c) in
  if Qgtb (fst boosterCandidate) (fst bestBoosterCandidate)
  then boosterCandidate
  else bestBoosterCandidate.

Definition findBestBoosterState (aaadFeatures : LabelledSets)
    : outcome CBoosterState.t :=
  match cols0 aaadFeatures with
  | None => Undefined
  | Some nDims =>
      Ret (snd (fold_left (betterCandidate aaadFeatures) (candidateOrder nDims)
                          (0, CBoosterState.default)))
  end.

(** The filtering of both collections by one booster. *)
Definition applyBooster (boosterState : CBoosterState.t)
    (aaadFeatures : LabelledSets) : LabelledSets :=
  mkSets (filter (CBoostedFilter.keepPotentialCandidateMat boosterState)
                 (negatives aaadFeatures))
         (filter (CBoostedFilter.keepPotentialCandidateMat boosterState)
                 (positives aaadFeatures)).

(** The [for(;;)] loop of [findBoosterStates]; [aaadFeatures] is the
    member that the loop replaces, returned with the cascade.  [None]: the
    fuel ran out. *)
Fixpoint findBoosterStates_loop (fuel : nat) (aaadFeatures : LabelledSets)
    (aBoosterStates : TBoosterStates)
    : option (outcome (TBoosterStates * LabelledSets)) :=
  match fuel with
  | O => None
  | S fuel' =>
      match findBestBoosterState aaadFeatures with
      | Ret boosterState =>
          if (CBoosterState.getFeatureIdx boosterState <? 0)%Z
          then Some (Ret (aBoosterStates, aaadFeatures))
          else
            let aBoosterStates' := aBoosterStates ++ [boosterState] in
            let nNegFeaturesBefore := List.length (negatives aaadFeatures) in
            let aaadFeatures' := applyBooster boosterState aaadFeatures in
            let nNegFeaturesAfter := List.length (negatives aaadFeatures') in
            if (nNegFeaturesBefore <=? nNegFeaturesAfter)%nat
            then Some (Fatal "Boosting failed")
            else findBoosterStates_loop fuel' aaadFeatures' aBoosterStates'
      | Fatal msg => Some (Fatal msg)
      | CvException => Some CvException
      | Undefined => Some Undefined
      end
  end.

(** Every round that continues removes a negative example, so one more
    round than there are negative examples is enough fuel (lemma
    [findBoosterStates_loop_fuel]). *)
Definition findBoosterStates (aaadFeatures : LabelledSets)
    : outcome (TBoosterStates * LabelledSets) :=
  match findBoosterStates_loop (S (List.length (negatives aaadFeatures)))
                               aaadFeatures [] with
  | Some r => r
  | None => Undefined
  end.

(** ** CSVMTraining: scoring *)

(** [fabs(cvmGet(pClassWeights, bGTClass, 0))] *)
Definition absClassWeight (pClassWeights : Q * Q) (bGTClass : bool) : Q :=
  fabs (if bGTClass then snd pClassWeights else fst pClassWeights).

(** The loop of [computeTotalSuccessRate]; the result is
    [(dTotalScore, dTotalErrorScore)].  [test_labels] is read at the
    index of the label. *)
Fixpoint totalScores (pClassWeights : Q * Q) (labels test_labels : list Q)
    (dTotalScore dTotalErrorScore : Q) : Q * Q :=
  match labels with
  | [] => (dTotalScore, dTotalErrorScore)
  | label :: labels' =>
      let bGTClass := svmClass label in
      let dAbsLabel := absClassWeight pClassWeights bGTClass in
      let bPredictedClass := svmClass (hd 0 test_labels) in
      let dTotalErrorScore' :=
        if negb (eqb bGTClass bPredictedClass)
        then dTotalErrorScore + dAbsLabel else dTotalErrorScore in
      totalScores pClassWeights labels' (tl test_labels)
                  (dTotalScore + dAbsLabel) dTotalErrorScore'
  end.

(** [computeTotalSuccessRate]: the rate and the sign written through
    [dSignCorrection]. *)
Definition computeTotalSuccessRate (pClassWeights : Q * Q)
    (labels test_labels : list Q) : double * Q :=
  let (dTotalScore, dTotalErrorScore) :=
    totalScores pClassWeights labels test_labels 0 0 in
  if Qltb dTotalErrorScore (0.5 * dTotalScore)
  then (ddiv (dTotalScore - dTotalErrorScore) dTotalScore, 1)
  else (ddiv dTotalErrorScore dTotalScore, -1).

Section Scoring.
Variable float_cast : Q -> Q.

(** The inner loop of [computeBSR] for one class; the result is
    [(dErrors, dExamples)]. *)
Fixpoint classErrors (bLabel : bool) (dSignCorrection : Q)
    (labels test_labels : list Q) (dErrors dExamples : Q) : Q * Q :=
  match labels with
  | [] => (dErrors, dExamples)
  | labelGT :: labels' =>
      let bGTClass := svmClass (float_cast labelGT) in
      if eqb bGTClass bLabel
      then
        let bPredictedClass :=
          svmClass (float_cast dSignCorrection * hd 0 test_labels) in
        classErrors bLabel dSignCorrection labels' (tl test_labels)
                    (if negb (eqb bGTClass bPredictedClass)
                     then dErrors + 1 else dErrors)
                    (dExamples + 1)
      else classErrors bLabel dSignCorrection labels' (tl test_labels)
                       dErrors dExamples
  end.

Definition classSuccessRate (bLabel : bool) (dSignCorrection : Q)
    (labels test_labels : list Q) : double :=
  let (dErrors, dExamples) :=
    classErrors bLabel dSignCorrection labels test_labels 0 0 in
  ddiv (dExamples - dErrors) dExamples.

Definition computeBSR (labels test_labels : list Q) (dSignCorrection : Q)
    : double :=
  fold_left
    (fun dBSR bLabel =>
       dadd dBSR (dmap (Qmult 0.5) (classSuccessRate bLabel dSignCorrection
                                                     labels test_labels)))
    [false; true] (Num 0).

(** The loop of [computePrecision]; the result is
    [(nNumActuallyCorrect, nNumLabelledCorrect, nTotalCorrectExamples)]. *)
Fixpoint precisionCounts (dSignCorrection : Q) (labels test_labels : list Q)
    (nNumActuallyCorrect nNumLabelledCorrect nTotalCorrectExamples : Z)
    : Z * Z * Z :=
  match labels with
  | [] => (nNumActuallyCorrect, nNumLabelledCorrect, nTotalCorrectExamples)
  | labelGT :: labels' =>
      let bGTClass := svmClass (float_cast labelGT) in
      let bPredictedClass :=
        svmClass (float_cast dSignCorrection * hd 0 test_labels) in
      precisionCounts dSignCorrection labels' (tl test_labels)
        (if bPredictedClass && bGTClass
         then nNumActuallyCorrect + 1 else nNumActuallyCorrect)%Z
        (if bPredictedClass
         then nNumLabelledCorrect + 1 else nNumLabelledCorrect)%Z
        (if bGTClass
         then nTotalCorrectExamples + 1 else nTotalCorrectExamples)%Z
  end.

Definition computePrecision (labels test_labels : list Q) (dSignCorrection : Q)
    : double :=
  let '(nNumActuallyCorrect, nNumLabelledCorrect, _) :=
    precisionCounts dSignCorrection labels test_labels 0 0 0 in
  ddiv (inject_Z nNumActuallyCorrect) (inject_Z nNumLabelledCorrect).
End Scoring.

(** ** CSVMTraining: validation of one trained model *)

Section Validation.
Variable E : Engine.
Variable float_cast : Q -> Q.
(** The optimiser of [fitSigmoid]: the parameters it leaves in
    [sigmoidParams], from the labels, the responses, the sign and the
    initial parameters. *)
Variable LM_minimise :
  list Q -> list Q -> Q -> CSigmoidParams.t -> CSigmoidParams.t.
Variable pClassWeights : Q * Q.

Open Scope engine_scope.

Definition fitSigmoid (labels test_labels : list Q) (dSignCorrection : Q)
    (sigmoidParams : CSigmoidParams.t) : outcome CSigmoidParams.t :=
  let fitted := LM_minimise labels test_labels dSignCorrection sigmoidParams in
  obind (CSigmoidParams.validate fitted) (fun _ => Ret fitted).

(** The body of the [try] block of [propCorrect]: one raw prediction
    per label row, less the boundary. *)
Fixpoint predictRows (svm : svm_model E) (features : list (list Q))
    (labels : list Q) (dBoundary : Q) : M (list Q) :=
  match labels with
  | [] => ret []
  | _ :: labels' =>
      dSVMResponse <- predict E svm (hd [] features) ;;
      rest <- predictRows svm (tl features) labels' dBoundary ;;
      ret (float_cast (dSVMResponse - dBoundary) :: rest)
  end.

(** What [propCorrect] leaves behind: the returned rate and the values
    written through [dSignCorrection], [dPrecision] and [pSigmoid]. *)
Record validation : Type := mkValidation {
  v_rate : double;
  v_signCorrection : Q;
  v_precision : double;
  v_sigmoid : option CSigmoidParams.t
}.

(** [propCorrect]; the branch under [bClassificationError], a constant
    [false], is never taken and is left out. *)
Definition propCorrect (svm : svm_model E) (features : list (list Q))
    (labels : list Q) (dSignCorrection : Q) (dPrecision : double)
    (dBoundary : Q) (pSigmoid : option CSigmoidParams.t) : M validation :=
  caught <- try_catch
              (test_labels <- predictRows svm features labels dBoundary ;;
               ret (Some test_labels))
              (ret None) ;;
  match caught with
  | None => ret (mkValidation (Num 0) dSignCorrection dPrecision pSigmoid)
  | Some test_labels =>
      let (dTotalSuccessRate, dSignCorrection') :=
        computeTotalSuccessRate pClassWeights labels test_labels in
      let dBSR := computeBSR float_cast labels test_labels dSignCorrection' in
      let dPrecision' :=
        computePrecision float_cast labels test_labels dSignCorrection' in
      match pSigmoid with
      | Some sigmoidParams =>
          fitted <- lift (fitSigmoid labels test_labels dSignCorrection'
                                     sigmoidParams) ;;
          ret (mkValidation dTotalSuccessRate dSignCorrection' dPrecision'
                            (Some fitted))
      | None =>
          ret (mkValidation dTotalSuccessRate dSignCorrection' dPrecision' None)
      end
  end.

(** *** CTrainValidateFeatureSet *)

Record CTrainValidateFeatureSet : Type := mkFold {
  aFeatures_eTrain : list (list Q);
  aLabels_eTrain : list Q;
  aFeatures_eValidate : list (list Q);
  aLabels_eValidate : list Q
}.

(** The examples of one label that go to the validation block
    ([inBlock = true]) or to the training set, of fold [nSubset] of [K]. *)
Definition divide (aadFeatures : TLabelledFeatures) (nSubset K : nat)
    (inBlock : bool) : TLabelledFeatures :=
  let nNumFeatures := List.length aadFeatures in
  let nValidateBlockStart := (nNumFeatures * nSubset / K)%nat in
  let nValidateBlockEnd := (nNumFeatures * (nSubset + 1) / K)%nat in
  map snd
    (filter (fun nf : nat * list Q =>
               eqb ((nValidateBlockStart <=? fst nf)%nat
                    && (fst nf <? nValidateBlockEnd)%nat) inBlock)
            (combine (seq 0 nNumFeatures) aadFeatures)).

Definition makeFold (aaadFeatures : LabelledSets) (nSubset K : nat)
    : outcome CTrainValidateFeatureSet :=
  let part (inBlock : bool) :=
    divide (negatives aaadFeatures) nSubset K inBlock
    ++ divide (positives aaadFeatures) nSubset K inBlock in
  let labelsOf (inBlock : bool) :=
    map (fun _ => svmScore false) (divide (negatives aaadFeatures) nSubset K inBlock)
    ++ map (fun _ => svmScore true) (divide (positives aaadFeatures) nSubset K inBlock) in
  obind (CHECK (existsb (fun feature => Nat.eqb (List.length feature) 0)
                        (negatives aaadFeatures ++ positives aaadFeatures))
               "Feature has no area") (fun _ =>
  obind (CHECK (Nat.eqb (List.length (labelsOf false)) 0) "0 labels") (fun _ =>
  obind (CHECK (Nat.eqb (List.length (part false)) 0) "0 features") (fun _ =>
  obind (CHECK (Nat.eqb (List.length (labelsOf true)) 0) "0 labels") (fun _ =>
  obind (CHECK (Nat.eqb (List.length (part true)) 0) "0 features") (fun _ =>
  Ret (mkFold (part false) (labelsOf false) (part true) (labelsOf true))))))).

(** [CTrainValidateFeatureSet::validate] *)
Definition validate (featureSet : CTrainValidateFeatureSet) (svm : svm_model E)
    : M double :=
  v <- propCorrect svm (aFeatures_eValidate featureSet)
                   (aLabels_eValidate featureSet) 0 (Num 0) 0 None ;;
  ret (v_rate v).

(** [CTrainValidateFeatureSet::trainAndValidate]: the score, and the
    support-vector count written through [nNumSVs]. *)
Definition trainAndValidate (featureSet : CTrainValidateFeatureSet)
    (svmParams : SVMParams) : M (double * Z) :=
  svm <- train E (aFeatures_eTrain featureSet) (aLabels_eTrain featureSet)
               svmParams ;;
  let nNumSVs := get_support_vector_count E svm in
  score <- validate featureSet svm ;;
  ret (score, nNumSVs).

Definition dims (featureSet : CTrainValidateFeatureSet) : nat :=
  List.length (hd [] (aFeatures_eTrain featureSet)).

(** *** CSVMParameterisation and the K-fold score *)

Record CSVMParameterisation : Type := mkParameterisation {
  svmParams : SVMParams;
  dCVScore : double;
  dNumSVs : Q
}.

Definition setCVScore (p : CSVMParameterisation) (dNewCVScore : double)
    (dNewNumSVs : Q) : CSVMParameterisation :=
  mkParameterisation (svmParams p) dNewCVScore dNewNumSVs.

(** The loop over the folds of [CKfoldTrainValidateFeatureSet::trainAndValidate];
    the result is [(dKFoldCVScore, dAvNumSVs)] before the division. *)
Fixpoint foldScores (aFeatureDivisions : list CTrainValidateFeatureSet)
    (params : SVMParams) (dKFoldCVScore : double) (dAvNumSVs : Q)
    : M (double * Q) :=
  match aFeatureDivisions with
  | [] => ret (dKFoldCVScore, dAvNumSVs)
  | featureSet :: rest =>
      r <- trainAndValidate featureSet params ;;
      foldScores rest params (dadd dKFoldCVScore (fst r))
                 (dAvNumSVs + inject_Z (snd r))
  end.

(** [CKfoldTrainValidateFeatureSet::trainAndValidate].  The list of
    folds has [K] elements; on an empty one the source reads
    [aFeatureDivisions[0]], which is undefined. *)
Definition kfoldTrainAndValidate
    (aFeatureDivisions : list CTrainValidateFeatureSet)
    (p : CSVMParameterisation) : M CSVMParameterisation :=
  r <- foldScores aFeatureDivisions (svmParams p) (Num 0) 0 ;;
  let n := size_Q aFeatureDivisions in
  let dKFoldCVScore := dmap (fun s => s / n) (fst r) in
  let dAvNumSVs := snd r / n in
  match aFeatureDivisions with
  | [] => lift Undefined
  | first :: _ =>
      let dPenalty := 0.003 * inject_Z (Z.of_nat (dims first)) in
      ret (setCVScore p (dmap (fun s => s - dPenalty) dKFoldCVScore) dAvNumSVs)
  end.
End Validation.

(** ** CKfoldTrainValidateFeatureSet: the folds *)

(** [K], for k-fold cross-validation. *)
Definition K : nat := 6.

Fixpoint mapM {A B : Type} (f : A -> outcome B) (l : list A) : outcome (list B) :=
  match l with
  | [] => Ret []
  | a :: l' =>
      obind (f a) (fun b => obind (mapM f l') (fun bs => Ret (b :: bs)))
  end.

Section Folds.
Variable float_cast : Q -> Q.

Definition selectFeatureSubset1 (normalisingCoeffs : CFeatureSubsetSelecter.t)
    (aadFeatures : TLabelledFeatures) : outcome TLabelledFeatures :=
  obind (mapM (CFeatureSubsetSelecter.selectAndNormaliseMat float_cast
                 normalisingCoeffs) aadFeatures) (fun aadFeatureSubset =>
  obind (CHECK (Nat.eqb (List.length aadFeatureSubset) 0
                || negb (Nat.eqb (List.length aadFeatureSubset)
                                 (List.length aadFeatures)))
               "Lost size") (fun _ =>
  Ret aadFeatureSubset)).

Definition selectFeatureSubset (normalisingCoeffs : CFeatureSubsetSelecter.t)
    (aaadFeatures : LabelledSets) : outcome LabelledSets :=
  obind (selectFeatureSubset1 normalisingCoeffs (negatives aaadFeatures)) (fun neg =>
  obind (selectFeatureSubset1 normalisingCoeffs (positives aaadFeatures)) (fun pos =>
  Ret (mkSets neg pos))).

(** The constructor of [CKfoldTrainValidateFeatureSet]. *)
Definition makeKfold (aaadFeatures : LabelledSets)
    (normalisingCoeffs : CFeatureSubsetSelecter.t) (K : nat)
    : outcome (list CTrainValidateFeatureSet) :=
  obind (selectFeatureSubset normalisingCoeffs aaadFeatures)
        (fun aaadFeatureSubset =>
           mapM (fun i => makeFold aaadFeatureSubset i K) (seq 0 K)).
End Folds.

(** ** CSVMTraining: the training run ([~CSVMTraining]) *)

(** The local constant of the destructor. *)
Definition bUseBoosting : bool := false.

Section Training.
Variable E : Engine.
Variable float_cast : Q -> Q.
Variable meanSD : list Q -> Q * Q.
Variable fNegRelativeWeight : Q.

(** What [trainSVM] writes through its reference arguments. *)
Record trained : Type := mkTrained {
  t_featureSubset : CFeatureSubsetSelecter.t;
  t_svm : svm_model E;
  t_dSignFix : Q;
  t_PRLookup : TPRLookup;
  t_sigmoidParams : CSigmoidParams.t;
  t_summary : string
}.

(** [trainSVM]: the search over feature subsets and hyperparameters and
    the final fit, from the examples, the class weights and the selecter
    that holds the normalising coefficients. *)
Variable trainSVM :
  LabelledSets -> Q * Q -> CFeatureSubsetSelecter.t -> M trained.

(** The text of the training summary, from the numbers of positive and
    negative examples before and after boosting. *)
Variable summary : nat -> nat -> nat -> nat -> string.

(** [computeNegWeight]: the class weights [pClassWeights].  The
    quotient and the product are operations on [float], and the matrix
    that holds the weights is one of [float]. *)
Definition computeNegWeight (nNumPos nNumNeg : nat) : Q * Q :=
  let fNegWeightToMakeClassesBalance :=
    float_cast (float_cast (inject_Z (Z.of_nat nNumPos))
                / float_cast (inject_Z (Z.of_nat nNumNeg))) in
  let fNegativeScore :=
    float_cast (- fNegRelativeWeight * fNegWeightToMakeClassesBalance) in
  (fNegativeScore, svmScore true).

Inductive persisted : Type :=
| NothingSaved
| Saved (files : StateFile * option (svm_model E)).

Open Scope engine_scope.

Definition destructor (aaadFeatures : LabelledSets) : M persisted :=
  let nNumPos := List.length (positives aaadFeatures) in
  let nNumNeg := List.length (negatives aaadFeatures) in
  if (nNumPos <? 20)%nat || (nNumNeg <? 20)%nat
  then ret NothingSaved
  else
    boosted <- lift (if bUseBoosting
                     then findBoosterStates aaadFeatures
                     else Ret ([], aaadFeatures)) ;;
    let aBoosterStates := fst boosted in
    let aaadFeatures' := snd boosted in
    let nNumPos' := List.length (positives aaadFeatures') in
    let nNumNeg' := List.length (negatives aaadFeatures') in
    let details := summary nNumPos nNumNeg nNumPos' nNumNeg' in
    if (0 <? nNumPos')%nat && (0 <? nNumNeg')%nat
    then
      let pClassWeights := computeNegWeight nNumPos' nNumNeg' in
      featureSubset <- lift (CFeatureSubsetSelecter.findNormalisingCoeffs meanSD
                               CFeatureSubsetSelecter.default aaadFeatures') ;;
      r <- trainSVM aaadFeatures' pClassWeights featureSubset ;;
      ret (Saved (CSavedSVMState.save E aBoosterStates (t_featureSubset r)
                    (t_svm r) (t_dSignFix r) (t_PRLookup r)
                    (t_sigmoidParams r) (details ++ t_summary r)))
    else
      ret (Saved (CSavedSVMState.save E aBoosterStates
                    CFeatureSubsetSelecter.default (svm_default E) 0 ([], [])
                    CSigmoidParams.default details)).
End Training.

(** ** CSVMFeature_base and CSVMTraining: collecting the examples *)

(** [getEntireFeature]: every coefficient is computed; the row returned
    holds [value(i)] at each index below [dimension()]. *)
Definition getEntireFeature (float_cast : Q -> Q) (pFeature : CSVMFeature_base.t)
    : list Q :=
  map (fun i => CSVMFeature_base.value float_cast pFeature (Z.of_nat i))
      (seq 0 (Z.to_nat (CSVMFeature_base.dimension pFeature))).

(** [addTrainingFeature] ([bRemoveDuplicates] is a constant [false]). *)
Definition addTrainingFeature (float_cast : Q -> Q) (aaadFeatures : LabelledSets)
    (pFeature : CSVMFeature_base.t) (bLabel : bool) : LabelledSets :=
  let entireFeature := getEntireFeature float_cast pFeature in
  if bLabel
  then mkSets (negatives aaadFeatures) (positives aaadFeatures ++ [entireFeature])
  else mkSets (negatives aaadFeatures ++ [entireFeature]) (positives aaadFeatures).

(** ** CSVMTraining: the candidate feature subsets *)

(** [operator<] of [std::vector<int>]: the lexicographic order. *)
Fixpoint vector_lt (a b : TFeatureIdxSubset) : bool :=
  match a, b with
  | _, [] => false
  | [], _ :: _ => true
  | x :: a', y :: b' =>
      if (x <? y)%Z then true
      else if (y <? x)%Z then false
      else vector_lt a' b'
  end.

(** [std::set<TFeatureIdxSubset>::insert], on the set as the list of its
    elements in increasing order. *)
Fixpoint set_insert (s : list TFeatureIdxSubset) (x : TFeatureIdxSubset)
    : list TFeatureIdxSubset :=
  match s with
  | [] => [x]
  | y :: s' =>
      if vector_lt x y then x :: s
      else if vector_lt y x then y :: set_insert s' x
      else s
  end.

(** [makeNewSubsets_backwards]: the set is cleared, then filled. *)
Definition makeNewSubsets_backwards (bestFeatureSubsetThisSize : TFeatureIdxSubset)
    : list TFeatureIdxSubset :=
  fold_left
    (fun candidateSubsetsToTry nRemove =>
       let newSubset :=
         filter (fun nKeep => negb (nKeep =? nRemove)%Z) bestFeatureSubsetThisSize in
       set_insert candidateSubsetsToTry newSubset)
    bestFeatureSubsetThisSize [].

(** [makeNewSubsets_forwards] *)
Definition makeNewSubsets_forwards (aaadFeatures : LabelledSets)
    (bestFeatureSubsetThisSize : TFeatureIdxSubset)
    : outcome (list TFeatureIdxSubset) :=
  match cols0 aaadFeatures with
  | None => Undefined
  | Some nDims =>
      Ret (fold_left
             (fun candidateSubsetsToTry i =>
                if existsb (Z.eqb i) bestFeatureSubsetThisSize
                then candidateSubsetsToTry
                else set_insert candidateSubsetsToTry
                                (bestFeatureSubsetThisSize ++ [i]))
             (map Z.of_nat (seq 0 nDims)) [])
  end.

(** [makeNewSubsets] *)
Definition makeNewSubsets (aaadFeatures : LabelledSets)
    (bestFeatureSubsetThisSize : TFeatureIdxSubset) (bFFS : bool)
    : outcome (list TFeatureIdxSubset) :=
  if bFFS
  then makeNewSubsets_forwards aaadFeatures bestFeatureSubsetThisSize
  else Ret (makeNewSubsets_backwards bestFeatureSubsetThisSize).

(** ** CSVMTraining: the hyperparameters kept between subsets *)

(** [aParamScores[key] = value] on a
    [std::map<double, CSVMParameterisation, std::greater<double>>], the map
    as the list of its entries in the order of iteration (greatest key
    first).  An entry whose key is equivalent keeps its key and takes the
    value. *)
Fixpoint map_assign (m : list (Q * CSVMParameterisation)) (key : Q)
    (value : CSVMParameterisation) : list (Q * CSVMParameterisation) :=
  match m with
  | [] => [(key, value)]
  | (key', value') :: m' =>
      if Qgtb key key' then (key, value) :: m
      else if Qgtb key' key then (key', value') :: map_assign m' key value
      else (key', value) :: m'
  end.

(** The first loop of [filterHyperparameters].  A score that is not a
    number is no key the order of the map is defined for. *)
Fixpoint sortParams (aParameterisations : list CSVMParameterisation)
    (aParamScores : list (Q * CSVMParameterisation))
    : outcome (list (Q * CSVMParameterisation)) :=
  match aParameterisations with
  | [] => Ret aParamScores
  | parameterisation :: rest =>
      match dCVScore parameterisation with
      | Num score => sortParams rest (map_assign aParamScores score parameterisation)
      | NaN => Undefined
      end
  end.

(** [filterHyperparameters] with [nNumToKeep = K]: the second loop pushes
    the values in the order of the map and stops at [nNumToKeep]. *)
Definition filterHyperparameters (aParameterisations : list CSVMParameterisation)
    : outcome (list CSVMParameterisation) :=
  let nNumToKeep := K in
  if (List.length aParameterisations <=? nNumToKeep)%nat
  then Ret aParameterisations
  else
    obind (sortParams aParameterisations []) (fun aParamScores =>
    Ret (firstn nNumToKeep (map snd aParamScores))).

(** [x > y] on [double]: false when either side is not a number. *)
Definition dgt (x y : double) : bool :=
  match x, y with
  | Num a, Num b => Qgtb a b
  | _, _ => false
  end.

(** The loop of [trainHyperparameters] that runs once the scoring jobs
    are done: the best parameterisation for the subset. *)
Definition bestForThisSubset (aParameterisations : list CSVMParameterisation)
    (bestParameterisationForThisSubset : CSVMParameterisation)
    : CSVMParameterisation :=
  fold_left
    (fun best parameterisation =>
       if dgt (dCVScore parameterisation) (dCVScore best)
       then parameterisation else best)
    aParameterisations bestParameterisationForThisSubset.

(** * Reference definitions used in the statements *)

(** Two [double] results are the same number. *)
Definition deq (x y : double) : Prop :=
  match x, y with
  | Num a, Num b => a == b
  | NaN, NaN => True
  | _, _ => False
  end.

(** A [double] result is a number of the closed interval [0,1]. *)
Definition in01 (x : double) : Prop :=
  match x with
  | Num a => 0 <= a <= 1
  | NaN => False
  end.

(** An engine for the examples: the model is the boundary of a threshold
    on the sum of the row; it throws on an empty row. *)
Definition sumQ (row : list Q) : Q := fold_right Qplus 0 row.

Definition exampleEngine : Engine :=
  mkEngine Q 0
           (fun _ _ params => Some (nu params))
           (fun svm row => match row with [] => None | _ => Some (sumQ row - svm) end)
           (fun _ => 1%Z).

Definition exampleFeature : CSVMFeature_base.t :=
  CSVMFeature_base.mk (fun nIdx => inject_Z nIdx + 1) 2.

Definition exampleState (dSignCorrection : Q) : CSavedSVMState.t :=
  CSavedSVMState.mk [CBoosterState.mk 0 0 false]
                    (CFeatureSubsetSelecter.mk [1%Z; 0%Z] [0; 1] [2; 1])
                    dSignCorrection 0.5 CSigmoidParams.default.

Definition exampleClassifier (dSignCorrection : Q) : CSVMClassifier.t exampleEngine :=
  CSVMClassifier.mk exampleEngine (exampleState dSignCorrection)
    (CBoostedFilters.make (CSavedSVMState.getBoosterStates (exampleState dSignCorrection)))
    (CSavedSVMState.getFeatureSubset (exampleState dSignCorrection))
    3.

(** The total weight of a validation set: the sum, over the examples, of
    the absolute weight of the class of the ground-truth label. *)
Fixpoint weightedTotal (pClassWeights : Q * Q) (labels : list Q) : Q :=
  match labels with
  | [] => 0
  | label :: labels' =>
      absClassWeight pClassWeights (svmClass label)
      + weightedTotal pClassWeights labels'
  end.

(** The weighted error: the same sum over the examples whose raw score
    falls in the other class than the ground-truth label. *)
Fixpoint weightedError (pClassWeights : Q * Q) (labels test_labels : list Q) : Q :=
  match labels with
  | [] => 0
  | label :: labels' =>
      (if negb (eqb (svmClass label) (svmClass (hd 0 test_labels)))
       then absClassWeight pClassWeights (svmClass label) else 0)
      + weightedError pClassWeights labels' (tl test_labels)
  end.

(** A fold whose second validation row makes the example engine throw. *)
Definition exampleParams : SVMParams := mkSVMParams 0.1 1 (-1, 1).

Definition exampleFold : CTrainValidateFeatureSet :=
  mkFold [[0]; [2]] [-1; 1] [[1]; [3]] [1; -1].

Definition exampleLM (labels test_labels : list Q) (dSignCorrection : Q)
    (p : CSigmoidParams.t) : CSigmoidParams.t := p.

(** Twenty negative and twenty positive examples of one coefficient, and
    a stand-in for the search of [trainSVM]. *)
Definition exampleSets : LabelledSets :=
  mkSets (repeat [0] 20) (repeat [1] 20).

Definition exampleTrainSVM (aaadFeatures : LabelledSets) (pClassWeights : Q * Q)
    (featureSubset : CFeatureSubsetSelecter.t) : M (trained exampleEngine) :=
  ret (mkTrained exampleEngine
         (CFeatureSubsetSelecter.setFeatureIdxSubset featureSubset [0%Z])
         0.5 1 ([-1; 0; 1], [0.5; 0.8; 0.95]) CSigmoidParams.default
         EmptyString).

Definition exampleMeanSD (vals : list Q) : Q * Q :=
  (sumQ vals / size_Q vals, 1 / 2).




(** The state file of the scenario: lookup [(-1,0.5), (0,0.8), (1,0.95)]. *)
Definition exampleStateFile : StateFile :=
  mkStateFile [] [0%Z] [0] [1] 1 (Some [-1; 0; 1]) [0.5; 0.8; 0.95]
              (Some CSigmoidParams.default) EmptyString.

(** The number of negative examples a booster removes from a
    collection. *)
Definition removedNegatives (boosterState : CBoosterState.t)
    (aaadFeatures : LabelledSets) : nat :=
  (List.length (negatives aaadFeatures)
   - List.length (negatives (applyBooster boosterState aaadFeatures)))%nat.

(** The negative entries of a list of tagged values. *)
Definition negativeVals (l : list TOneFeatureVal) : list TOneFeatureVal :=
  filter (fun x => negb (snd x)) l.

Definition count_Q {A : Type} (l : list A) : Q := inject_Z (Z.of_nat (List.length l)).

(** A tagged value is the value of a negative example that the booster
    rejects. *)
Definition rejectsNegative (boosterState : CBoosterState.t) (x : TOneFeatureVal)
    : bool :=
  negb (snd x) && negb (CBoostedFilter.keepVal boosterState (fst x)).

(** One negative example at 2, a hundred and fifty at 0, twenty positive
    examples at 1. *)
Definition exampleCascadeSets : LabelledSets :=
  mkSets ([2] :: repeat [0] 150) (repeat [1] 20).

Definition exampleStage : CBoosterState.t := CBoosterState.mk 0 0.5 false.

(** What holds of the stage a round of the cascade search comes up
    with. *)
Definition stage_ok (aaadFeatures : LabelledSets) (boosterState : CBoosterState.t)
    : Prop :=
  boosterState = CBoosterState.default
  \/ ((0 <= CBoosterState.getFeatureIdx boosterState)%Z
      /\ (150 <= removedNegatives boosterState aaadFeatures)%nat
      /\ (List.length (negatives aaadFeatures)
          <= 10 * removedNegatives boosterState aaadFeatures)%nat).


(** [a] may stand before [b] in a list sorted by the comparator [lt]. *)
Definition notBefore (lt : TOneFeatureVal -> TOneFeatureVal -> bool)
    (a b : TOneFeatureVal) : Prop :=
  lt b a = false.

(** A stored row is kept by every stage of a cascade. *)
Definition keptByAll (aBoosterStates : TBoosterStates) (feature : list Q) : bool :=
  forallb (fun state => CBoostedFilter.keepPotentialCandidateMat state feature)
          aBoosterStates.

(** The number of positive examples a booster removes from a
    collection. *)
Definition removedPositives (boosterState : CBoosterState.t)
    (aaadFeatures : LabelledSets) : nat :=
  (List.length (positives aaadFeatures)
   - List.length (positives (applyBooster boosterState aaadFeatures)))%nat.

(** The positive entries of a list of tagged values. *)
Definition positiveVals (l : list TOneFeatureVal) : list TOneFeatureVal :=
  filter (fun x => snd x) l.

(** A tagged value is the value of a positive example that the booster
    rejects. *)
Definition rejectsPositive (boosterState : CBoosterState.t) (x : TOneFeatureVal)
    : bool :=
  snd x && negb (CBoostedFilter.keepVal boosterState (fst x)).

(** The elements of a list whose index, counted from [a], lies in
    [s, e). *)
Definition inRange {A : Type} (s e : nat) (nf : nat * A) : bool :=
  (s <=? fst nf)%nat && (fst nf <? e)%nat.

Definition slice {A : Type} (a : nat) (l : list A) (s e : nat) : list A :=
  map snd (filter (inRange s e) (combine (seq a (List.length l)) l)).

(** The start of the validation block of fold [i] of [K], among [n]
    examples. *)
Definition blockStart (n K i : nat) : nat := (n * i / K)%nat.

(** The normalised projection of a stored row on the subset. *)
Definition normalisedRow (float_cast : Q -> Q) (s : CFeatureSubsetSelecter.t)
    (feature : list Q) : list Q :=
  map (fun nIdx =>
         float_cast (at_ (CFeatureSubsetSelecter.adNormalisingScale s) nIdx
                     * (at_ feature nIdx
                        - at_ (CFeatureSubsetSelecter.adNormalisingMean s) nIdx)))
      (CFeatureSubsetSelecter.anFeatureIdxSubset s).

(** The selecter of the example collection and the folds made of it. *)
Definition exampleSelecter : CFeatureSubsetSelecter.t :=
  CFeatureSubsetSelecter.mk [0%Z] [1 / 2] [2].

Definition exampleFolds : list CTrainValidateFeatureSet :=
  match makeKfold (fun q => q) exampleSets exampleSelecter K with
  | Ret aFeatureDivisions => aFeatureDivisions
  | _ => []
  end.

(** An engine that throws when asked to train with [nu] not positive
    (the example engine otherwise). *)
Definition strictEngine : Engine :=
  mkEngine Q 0
           (fun _ _ params => if Qgtb (nu params) 0 then Some (nu params) else None)
           (svm_predict exampleEngine)
           (fun _ => 1%Z).

(** A power of two within a factor 2 of [exp] on the arguments of the
    examples (13/9 is near 1/ln 2), in the place of [exp] where its
    magnitude matters. *)
Definition exampleExp2 (x : Q) : Q := 2 ^ Qfloor (x * (13 # 9)).

(** Sigmoid parameters with the thresholds 0.03 and 0.3 as [double]
    holds them, and a trained classifier calibrated with them whose score
    on the example feature is 1. *)
Definition exampleSigmoid : CSigmoidParams.t :=
  CSigmoidParams.mk (round_double 0.03) (round_double 0.3) 0 40.

Definition exampleCalibrated : CSVMClassifier.t exampleEngine :=
  CSVMClassifier.mk exampleEngine
    (CSavedSVMState.mk [] (CFeatureSubsetSelecter.mk [0%Z] [0] [1]) 1 0
                       exampleSigmoid)
    (CBoostedFilters.make [])
    (CFeatureSubsetSelecter.mk [0%Z] [0] [1])
    0.

(** An engine that trains like the example engine and throws when asked
    to predict on a row whose coefficients have a positive sum. *)
Definition faultyEngine : Engine :=
  mkEngine Q 0
           (fun _ _ params => Some (nu params))
           (fun svm row => if Qgtb (sumQ row) 0 then None else Some (sumQ row - svm))
           (fun _ => 1%Z).

(** A positive, increasing function on the rationals, in the place of
    [exp] where a statement needs no more of it. *)
Definition exampleMonoExp (x : Q) : Q :=
  if Qleb x 0 then 1 / (1 - x) else 1 + x.

(** Seven scored parameterisations, two of them with the same score. *)
Definition exampleScored : list CSVMParameterisation :=
  map (fun sn : Q * Q => mkParameterisation exampleParams (Num (fst sn)) (snd sn))
      [(0.5, 1); (0.75, 2); (0.625, 3); (0.75, 4); (0.875, 5); (0.25, 6); (0.375, 7)].

(** The scores of a list of parameterisations strictly decrease. *)
Definition scoresDescend (l : list CSVMParameterisation) : Prop :=
  StronglySorted
    (fun a b => exists sa sb, dCVScore a = Num sa /\ dCVScore b = Num sb /\ sb < sa)
    l.

(** * Properties *)

(** ** Boolean comparisons *)

Lemma Qltb_true (x y : Q) : Qltb x y = true <-> x < y.
Proof.
  unfold Qltb. rewrite negb_true_iff.
  split; intro H.
  - apply Qnot_le_lt. intro Hle. apply Qle_bool_iff in Hle. congruence.
  - destruct (Qle_bool y x) eqn:Hb; [|reflexivity].
    apply Qle_bool_iff in Hb. exfalso. apply (Qlt_not_le _ _ H Hb).
Qed.

Lemma Qltb_false (x y : Q) : Qltb x y = false <-> y <= x.
Proof.
  unfold Qltb. rewrite negb_false_iff. apply Qle_bool_iff.
Qed.

Lemma Qgtb_true (x y : Q) : Qgtb x y = true <-> y < x.
Proof. apply Qltb_true. Qed.

Lemma Qgtb_false (x y : Q) : Qgtb x y = false <-> x <= y.
Proof. apply Qltb_false. Qed.

Lemma Qleb_true (x y : Q) : Qleb x y = true <-> x <= y.
Proof. apply Qle_bool_iff. Qed.

Lemma Qleb_false (x y : Q) : Qleb x y = false <-> y < x.
Proof.
  unfold Qleb. split; intro H.
  - apply Qnot_le_lt. intro Hle. apply Qle_bool_iff in Hle. congruence.
  - destruct (Qle_bool x y) eqn:Hb; [|reflexivity].
    apply Qle_bool_iff in Hb. exfalso. apply (Qlt_not_le _ _ H Hb).
Qed.

Lemma Qgeb_true (x y : Q) : Qgeb x y = true <-> y <= x.
Proof. apply Qle_bool_iff. Qed.

Lemma Qgeb_false (x y : Q) : Qgeb x y = false <-> x < y.
Proof. apply Qleb_false. Qed.

Lemma Qeq_bool_false (x y : Q) : Qeq_bool x y = false <-> ~ x == y.
Proof.
  split; intro H.
  - intro Heq. apply Qeq_bool_iff in Heq. congruence.
  - destruct (Qeq_bool x y) eqn:Hb; [|reflexivity].
    apply Qeq_bool_iff in Hb. contradiction.
Qed.

Lemma Qneb_true (x y : Q) : Qneb x y = true <-> ~ x == y.
Proof. unfold Qneb. rewrite negb_true_iff. apply Qeq_bool_false. Qed.

Lemma Qneb_false (x y : Q) : Qneb x y = false <-> x == y.
Proof. unfold Qneb. rewrite negb_false_iff. apply Qeq_bool_iff. Qed.

(** ** Rounding to nearest *)

(** Powers of two. *)
Lemma pow2_pos (e : Z) : 0 < 2 ^ e.
Proof. apply Qpower_0_lt. reflexivity. Qed.

Lemma pow2_plus (a b : Z) : 2 ^ (a + b) == 2 ^ a * 2 ^ b.
Proof. apply Qpower_plus. intro H. discriminate. Qed.

Lemma pow2_le (a b : Z) : (a <= b)%Z -> 2 ^ a <= 2 ^ b.
Proof. intro H. apply Qpower_le_compat_l; [exact H | discriminate]. Qed.

Lemma pow2_lt (a b : Z) : (a < b)%Z -> 2 ^ a < 2 ^ b.
Proof. intro H. apply Qpower_lt_compat_l; [exact H | reflexivity]. Qed.

Lemma pow2_inject (n : Z) : (0 <= n)%Z -> inject_Z (2 ^ n) == 2 ^ n.
Proof. intro H. apply (Zpower_Qpower 2 n H). Qed.

Lemma pow2_succ (a : Z) : 2 ^ (a + 1) == 2 * 2 ^ a.
Proof. rewrite pow2_plus. change (2 ^ 1) with 2. ring. Qed.

Lemma ilog2_spec (q : Q) : 0 < q -> 2 ^ ilog2 q <= q /\ q < 2 ^ (ilog2 q + 1).
Proof.
  intro Hq. destruct q as [n d].
  assert (Hn : (0 < n)%Z).
  { unfold Qlt in Hq. cbn in Hq. lia. }
  unfold ilog2. cbn [Qnum Qden].
  set (a := Z.log2 n). set (b := Z.log2 (Z.pos d)).
  destruct (Z.log2_spec n Hn) as [Ha1 Ha2]. fold a in Ha1, Ha2.
  destruct (Z.log2_spec (Z.pos d) (Pos2Z.is_pos d)) as [Hb1 Hb2]. fold b in Hb1, Hb2.
  assert (Ha0 : (0 <= a)%Z) by apply Z.log2_nonneg.
  assert (Hb0 : (0 <= b)%Z) by apply Z.log2_nonneg.
  assert (Hqd : n # d == inject_Z n / inject_Z (Z.pos d)) by apply Qmake_Qdiv.
  assert (Hd : 0 < inject_Z (Z.pos d)) by reflexivity.
  assert (HA1 : 2 ^ a <= inject_Z n).
  { rewrite <- pow2_inject by exact Ha0. rewrite <- Zle_Qle. exact Ha1. }
  assert (HA2 : inject_Z n < 2 ^ (a + 1)).
  { rewrite <- pow2_inject by lia. rewrite <- Zlt_Qlt.
    unfold Z.succ in Ha2. exact Ha2. }
  assert (HB1 : 2 ^ b <= inject_Z (Z.pos d)).
  { rewrite <- pow2_inject by exact Hb0. rewrite <- Zle_Qle. exact Hb1. }
  assert (HB2 : inject_Z (Z.pos d) < 2 ^ (b + 1)).
  { rewrite <- pow2_inject by lia. rewrite <- Zlt_Qlt.
    unfold Z.succ in Hb2. exact Hb2. }
  assert (Hup : n # d < 2 ^ (a - b + 1)).
  { rewrite Hqd. apply Qlt_shift_div_r; [exact Hd|].
    assert (E : 2 ^ (a + 1) == 2 ^ (a - b + 1) * 2 ^ b).
    { rewrite <- pow2_plus. replace (a - b + 1 + b)%Z with (a + 1)%Z by lia.
      reflexivity. }
    pose proof (pow2_pos (a - b + 1)). nra. }
  assert (Hlo : 2 ^ (a - b - 1) < n # d).
  { rewrite Hqd. apply Qlt_shift_div_l; [exact Hd|].
    assert (E : 2 ^ a == 2 ^ (a - b - 1) * 2 ^ (b + 1)).
    { rewrite <- pow2_plus. replace (a - b - 1 + (b + 1))%Z with a by lia.
      reflexivity. }
    pose proof (pow2_pos (a - b - 1)). nra. }
  destruct (Qle_bool (2 ^ (a - b)) (n # d)) eqn:Hc.
  - apply Qle_bool_iff in Hc. split; assumption.
  - assert (Hc' : n # d < 2 ^ (a - b)).
    { apply Qnot_le_lt. intro H. apply Qle_bool_iff in H. congruence. }
    replace (a - b - 1 + 1)%Z with (a - b)%Z by lia.
    split; [apply Qlt_le_weak; exact Hlo | exact Hc'].
Qed.

Lemma ilog2_unique (q : Q) (e : Z) :
  2 ^ e <= q -> q < 2 ^ (e + 1) -> ilog2 q = e.
Proof.
  intros H1 H2.
  assert (Hq : 0 < q) by (pose proof (pow2_pos e); lra).
  destruct (ilog2_spec q Hq) as [S1 S2].
  destruct (Z.lt_trichotomy (ilog2 q) e) as [Hlt | [Heq | Hgt]]; [|exact Heq|].
  - exfalso. pose proof (pow2_le (ilog2 q + 1) e ltac:(lia)). lra.
  - exfalso. pose proof (pow2_le (e + 1) (ilog2 q) ltac:(lia)). lra.
Qed.

Lemma ilog2_mono (q1 q2 : Q) : 0 < q1 -> q1 <= q2 -> (ilog2 q1 <= ilog2 q2)%Z.
Proof.
  intros H1 H12.
  destruct (ilog2_spec q1 H1) as [A1 A2].
  destruct (ilog2_spec q2 ltac:(lra)) as [B1 B2].
  destruct (Z_le_gt_dec (ilog2 q1) (ilog2 q2)) as [H | H]; [exact H|].
  exfalso. pose proof (pow2_le (ilog2 q2 + 1) (ilog2 q1) ltac:(lia)). lra.
Qed.

Lemma ilog2_proper (q1 q2 : Q) : 0 < q1 -> q1 == q2 -> ilog2 q1 = ilog2 q2.
Proof.
  intros H1 H12. destruct (ilog2_spec q2 ltac:(lra)) as [B1 B2].
  apply ilog2_unique; lra.
Qed.

(** The nearest integer, ties to even. *)
Lemma Qfloor_bounds (q : Q) : inject_Z (Qfloor q) <= q /\ q < inject_Z (Qfloor q) + 1.
Proof.
  split; [apply Qfloor_le|].
  pose proof (Qlt_floor q) as H. rewrite inject_Z_plus in H. exact H.
Qed.

Lemma rne_cases (q : Q) : rne q = Qfloor q \/ rne q = (Qfloor q + 1)%Z.
Proof.
  unfold rne. destruct (Qltb _ _); [left; reflexivity|].
  destruct (Qltb _ _); [right; reflexivity|].
  destruct (Z.even _); [left | right]; reflexivity.
Qed.

Lemma rne_error (q : Q) : Qabs (inject_Z (rne q) - q) <= 1 # 2.
Proof.
  destruct (Qfloor_bounds q) as [H1 H2].
  unfold rne.
  destruct (Qltb (q - inject_Z (Qfloor q)) (1 # 2)) eqn:Ha.
  - apply Qltb_true in Ha. apply Qabs_Qle_condition. lra.
  - apply Qltb_false in Ha.
    assert (Hup : Qabs (inject_Z (Qfloor q + 1) - q) <= 1 # 2).
    { rewrite inject_Z_plus. change (inject_Z 1) with 1.
      apply Qabs_Qle_condition. lra. }
    destruct (Qltb (1 # 2) (q - inject_Z (Qfloor q))) eqn:Hb; [exact Hup|].
    apply Qltb_false in Hb.
    destruct (Z.even (Qfloor q)); [|exact Hup].
    apply Qabs_Qle_condition. lra.
Qed.

Lemma rne_proper (q1 q2 : Q) : q1 == q2 -> rne q1 = rne q2.
Proof.
  intro H. unfold rne.
  rewrite (Qfloor_comp _ _ H).
  assert (E : forall a b c d, a == b -> c == d -> Qltb a c = Qltb b d).
  { intros a b c d Hab Hcd. unfold Qltb. f_equal.
    destruct (Qle_bool c a) eqn:E1; destruct (Qle_bool d b) eqn:E2; try reflexivity.
    - apply Qle_bool_iff in E1. rewrite Hab, Hcd in E1.
      apply Qle_bool_iff in E1. congruence.
    - apply Qle_bool_iff in E2. rewrite <- Hab, <- Hcd in E2.
      apply Qle_bool_iff in E2. congruence. }
  rewrite (E (q1 - inject_Z (Qfloor q2)) (q2 - inject_Z (Qfloor q2)) (1 # 2) (1 # 2))
    by (try rewrite H; reflexivity).
  rewrite (E (1 # 2) (1 # 2) (q1 - inject_Z (Qfloor q2)) (q2 - inject_Z (Qfloor q2)))
    by (try rewrite H; reflexivity).
  reflexivity.
Qed.

Lemma rne_inject (q : Q) (z : Z) : q == inject_Z z -> rne q = z.
Proof.
  intro H. rewrite (rne_proper _ _ H). unfold rne. rewrite Qfloor_Z.
  assert (E : Qltb (inject_Z z - inject_Z z) (1 # 2) = true)
    by (apply Qltb_true; lra).
  rewrite E. reflexivity.
Qed.

Lemma rne_ge (q : Q) (a : Z) : inject_Z a <= q -> (a <= rne q)%Z.
Proof.
  intro H. assert (Hf : (a <= Qfloor q)%Z).
  { rewrite <- (Qfloor_Z a). apply Qfloor_resp_le. exact H. }
  destruct (rne_cases q) as [E | E]; rewrite E; lia.
Qed.

Lemma rne_le (q : Q) (b : Z) : q <= inject_Z b -> (rne q <= b)%Z.
Proof.
  intro H.
  destruct (Qfloor_bounds q) as [H1 H2].
  destruct (Qlt_le_dec q (inject_Z b)) as [Hlt | Hge].
  - assert (Hf : (Qfloor q < b)%Z).
    { rewrite Zlt_Qlt. lra. }
    destruct (rne_cases q) as [E | E]; rewrite E; lia.
  - assert (E : q == inject_Z b) by lra.
    rewrite (rne_inject q b E). lia.
Qed.

Lemma rne_mono (q1 q2 : Q) : q1 <= q2 -> (rne q1 <= rne q2)%Z.
Proof.
  intro H.
  pose proof (Qfloor_resp_le _ _ H) as Hf.
  destruct (Z_le_lt_eq_dec _ _ Hf) as [Hlt | Heq].
  - apply Z.le_trans with (Qfloor q2).
    + destruct (rne_cases q1) as [E | E]; rewrite E; lia.
    + destruct (rne_cases q2) as [E | E]; rewrite E; lia.
  - unfold rne. rewrite <- Heq.
    set (f := Qfloor q1).
    destruct (Qltb (q1 - inject_Z f) (1 # 2)) eqn:A1;
      destruct (Qltb (q2 - inject_Z f) (1 # 2)) eqn:A2;
      destruct (Qltb (1 # 2) (q1 - inject_Z f)) eqn:B1;
      destruct (Qltb (1 # 2) (q2 - inject_Z f)) eqn:B2;
      destruct (Z.even f);
      try lia;
      repeat match goal with
             | H : Qltb _ _ = true |- _ => apply Qltb_true in H
             | H : Qltb _ _ = false |- _ => apply Qltb_false in H
             end; exfalso; lra.
Qed.

Section RoundPos.
Variable prec : Z.
Hypothesis prec_pos : (1 <= prec)%Z.

Lemma round_pos_scaled (q : Q) :
  0 < q ->
  2 ^ (prec - 1) <= q / 2 ^ (ilog2 q - prec + 1)
  /\ q / 2 ^ (ilog2 q - prec + 1) < 2 ^ prec.
Proof.
  intro Hq. destruct (ilog2_spec q Hq) as [H1 H2].
  set (e := ilog2 q) in *.
  pose proof (pow2_pos (e - prec + 1)) as Hu.
  assert (E1 : 2 ^ e == 2 ^ (prec - 1) * 2 ^ (e - prec + 1)).
  { rewrite <- pow2_plus. replace (prec - 1 + (e - prec + 1))%Z with e by lia.
    reflexivity. }
  assert (E2 : 2 ^ (e + 1) == 2 ^ prec * 2 ^ (e - prec + 1)).
  { rewrite <- pow2_plus. replace (prec + (e - prec + 1))%Z with (e + 1)%Z by lia.
    reflexivity. }
  split.
  - apply Qle_shift_div_l; [exact Hu | lra].
  - apply Qlt_shift_div_r; [exact Hu | lra].
Qed.

Lemma round_pos_mant (q : Q) :
  0 < q ->
  (2 ^ (prec - 1) <= rne (q / 2 ^ (ilog2 q - prec + 1)) <= 2 ^ prec)%Z.
Proof.
  intro Hq. destruct (round_pos_scaled q Hq) as [H1 H2]. split.
  - apply rne_ge. rewrite pow2_inject by lia. exact H1.
  - apply rne_le. rewrite pow2_inject by lia. apply Qlt_le_weak. exact H2.
Qed.

Lemma round_pos_bounds (q : Q) :
  0 < q ->
  2 ^ ilog2 q <= round_pos prec q /\ round_pos prec q <= 2 ^ (ilog2 q + 1).
Proof.
  intro Hq. destruct (round_pos_mant q Hq) as [H1 H2].
  unfold round_pos. set (e := ilog2 q) in *.
  set (m := rne (q / 2 ^ (e - prec + 1))) in *.
  pose proof (pow2_pos (e - prec + 1)) as Hu.
  assert (E1 : 2 ^ e == 2 ^ (prec - 1) * 2 ^ (e - prec + 1)).
  { rewrite <- pow2_plus. replace (prec - 1 + (e - prec + 1))%Z with e by lia.
    reflexivity. }
  assert (E2 : 2 ^ (e + 1) == 2 ^ prec * 2 ^ (e - prec + 1)).
  { rewrite <- pow2_plus. replace (prec + (e - prec + 1))%Z with (e + 1)%Z by lia.
    reflexivity. }
  assert (M1 : 2 ^ (prec - 1) <= inject_Z m).
  { rewrite <- pow2_inject by lia. rewrite <- Zle_Qle. exact H1. }
  assert (M2 : inject_Z m <= 2 ^ prec).
  { rewrite <- pow2_inject by lia. rewrite <- Zle_Qle. exact H2. }
  split; nra.
Qed.

Lemma round_pos_pos (q : Q) : 0 < q -> 0 < round_pos prec q.
Proof.
  intro Hq. destruct (round_pos_bounds q Hq) as [H _].
  pose proof (pow2_pos (ilog2 q)). lra.
Qed.

Lemma round_pos_error (q : Q) :
  0 < q -> Qabs (round_pos prec q - q) <= 2 ^ (- prec) * q.
Proof.
  intro Hq. destruct (ilog2_spec q Hq) as [H1 _].
  unfold round_pos. set (e := ilog2 q) in *.
  set (u := 2 ^ (e - prec + 1)).
  assert (Hu : 0 < u) by apply pow2_pos.
  pose proof (rne_error (q / u)) as He.
  set (m := inject_Z (rne (q / u))) in *.
  assert (Eq : q == q / u * u) by (field; lra).
  apply Qabs_Qle_condition in He.
  assert (E1 : 2 ^ e == 2 ^ prec * (u * (1 # 2))).
  { unfold u. assert (X : (1 # 2) == 2 ^ (-1)) by reflexivity. rewrite X.
    rewrite <- !pow2_plus.
    replace (prec + (e - prec + 1 + -1))%Z with e by lia. reflexivity. }
  assert (E2 : 2 ^ (- prec) * 2 ^ prec == 1).
  { rewrite <- pow2_plus. replace (- prec + prec)%Z with 0%Z by lia. reflexivity. }
  pose proof (pow2_pos (- prec)) as Hp.
  assert (Hhalf : u * (1 # 2) <= 2 ^ (- prec) * q).
  { assert (X : u * (1 # 2) == 2 ^ (- prec) * 2 ^ e).
    { rewrite E1. rewrite Qmult_assoc. rewrite E2. ring. }
    rewrite X. nra. }
  apply Qabs_Qle_condition. 
  set (x := q / u) in *. rewrite Eq at 1 4. split; nra.
Qed.

Lemma round_pos_mono (q1 q2 : Q) :
  0 < q1 -> q1 <= q2 -> round_pos prec q1 <= round_pos prec q2.
Proof.
  intros H1 H12. assert (H2 : 0 < q2) by lra.
  pose proof (ilog2_mono q1 q2 H1 H12) as He.
  destruct (Z_le_lt_eq_dec _ _ He) as [Hlt | Heq].
  - destruct (round_pos_bounds q1 H1) as [_ A].
    destruct (round_pos_bounds q2 H2) as [B _].
    pose proof (pow2_le (ilog2 q1 + 1) (ilog2 q2) ltac:(lia)). lra.
  - unfold round_pos. rewrite <- Heq.
    set (u := 2 ^ (ilog2 q1 - prec + 1)).
    assert (Hu : 0 < u) by apply pow2_pos.
    assert (Hd : q1 / u <= q2 / u).
    { apply Qle_shift_div_l; [exact Hu|].
      assert (E : q1 / u * u == q1) by (field; lra). lra. }
    pose proof (rne_mono _ _ Hd) as Hm. rewrite Zle_Qle in Hm. nra.
Qed.

Lemma round_pos_repr (q : Q) (m j : Z) :
  (2 ^ (prec - 1) <= m <= 2 ^ prec)%Z ->
  q == inject_Z m * 2 ^ j ->
  round_pos prec q == q.
Proof.
  intros [Hm1 Hm2] Hq.
  assert (M1 : 2 ^ (prec - 1) <= inject_Z m).
  { rewrite <- pow2_inject by lia. rewrite <- Zle_Qle. exact Hm1. }
  assert (M2 : inject_Z m <= 2 ^ prec).
  { rewrite <- pow2_inject by lia. rewrite <- Zle_Qle. exact Hm2. }
  pose proof (pow2_pos j) as Hj. pose proof (pow2_pos (prec - 1)) as Hp.
  destruct (Z_le_lt_eq_dec _ _ Hm2) as [Hlt | Heq].
  - assert (M3 : inject_Z m < 2 ^ prec).
    { rewrite <- pow2_inject by lia. rewrite <- Zlt_Qlt. exact Hlt. }
    assert (He : ilog2 q = (j + prec - 1)%Z).
    { apply ilog2_unique.
      - replace (j + prec - 1)%Z with (prec - 1 + j)%Z by lia.
        rewrite pow2_plus. rewrite Hq. nra.
      - replace (j + prec - 1 + 1)%Z with (prec + j)%Z by lia.
        rewrite pow2_plus. rewrite Hq. nra. }
    unfold round_pos. rewrite He.
    replace (j + prec - 1 - prec + 1)%Z with j by lia.
    assert (Hr : q / 2 ^ j == inject_Z m) by (rewrite Hq; field; lra).
    rewrite (rne_inject _ _ Hr). symmetry. exact Hq.
  - assert (M3 : inject_Z m == 2 ^ prec).
    { rewrite <- pow2_inject by lia. rewrite Heq. reflexivity. }
    assert (He : ilog2 q = (j + prec)%Z).
    { apply ilog2_unique.
      - replace (j + prec)%Z with (prec + j)%Z by lia.
        rewrite pow2_plus. rewrite Hq, M3. lra.
      - replace (j + prec + 1)%Z with (prec + j + 1)%Z by lia.
        rewrite pow2_succ, pow2_plus. rewrite Hq, M3.
        pose proof (pow2_pos prec). nra. }
    unfold round_pos. rewrite He.
    replace (j + prec - prec + 1)%Z with (j + 1)%Z by lia.
    assert (Hr : q / 2 ^ (j + 1) == inject_Z (2 ^ (prec - 1))).
    { rewrite pow2_inject by lia. rewrite Hq, M3.
      replace prec with (prec - 1 + 1)%Z at 1 by lia.
      rewrite !pow2_succ. field. lra. }
    rewrite (rne_inject _ _ Hr). rewrite pow2_inject by lia.
    rewrite Hq, M3. replace prec with (prec - 1 + 1)%Z at 2 by lia.
    rewrite !pow2_succ. ring.
Qed.

Lemma round_pos_idem (q : Q) :
  0 < q -> round_pos prec (round_pos prec q) == round_pos prec q.
Proof.
  intro Hq.
  apply (round_pos_repr _ (rne (q / 2 ^ (ilog2 q - prec + 1)))
                        (ilog2 q - prec + 1)).
  - apply round_pos_mant. exact Hq.
  - reflexivity.
Qed.

Lemma round_pos_proper (q1 q2 : Q) :
  0 < q1 -> q1 == q2 -> round_pos prec q1 == round_pos prec q2.
Proof.
  intros H1 H12. unfold round_pos.
  rewrite (ilog2_proper q1 q2 H1 H12).
  rewrite (rne_proper (q1 / 2 ^ (ilog2 q2 - prec + 1))
                      (q2 / 2 ^ (ilog2 q2 - prec + 1)))
    by (rewrite H12; reflexivity).
  reflexivity.
Qed.
End RoundPos.

Section RoundBinary.
Variable prec : Z.
Hypothesis prec_pos : (1 <= prec)%Z.

Lemma round_binary_pos (q : Q) : 0 < q -> round_binary prec q = round_pos prec q.
Proof.
  intro H. unfold round_binary. apply Qltb_true in H. rewrite H. reflexivity.
Qed.

Lemma round_binary_neg (q : Q) :
  q < 0 -> round_binary prec q = - round_pos prec (- q).
Proof.
  intro H. unfold round_binary.
  assert (A : Qltb 0 q = false) by (apply Qltb_false; lra).
  apply Qltb_true in H. rewrite A, H. reflexivity.
Qed.

Lemma round_binary_zero (q : Q) : q == 0 -> round_binary prec q = 0.
Proof.
  intro H. unfold round_binary.
  assert (A : Qltb 0 q = false) by (apply Qltb_false; lra).
  assert (B : Qltb q 0 = false) by (apply Qltb_false; lra).
  rewrite A, B. reflexivity.
Qed.

Lemma round_binary_sign (q : Q) :
  (0 < q -> 0 < round_binary prec q)
  /\ (q < 0 -> round_binary prec q < 0)
  /\ (q == 0 -> round_binary prec q == 0).
Proof.
  split; [|split]; intro H.
  - rewrite round_binary_pos by exact H. apply round_pos_pos; assumption.
  - rewrite round_binary_neg by exact H.
    pose proof (round_pos_pos prec prec_pos (- q) ltac:(lra)). lra.
  - rewrite round_binary_zero by exact H. reflexivity.
Qed.

Lemma round_binary_mono (q1 q2 : Q) :
  q1 <= q2 -> round_binary prec q1 <= round_binary prec q2.
Proof.
  intro H.
  destruct (round_binary_sign q1) as (P1 & N1 & Z1).
  destruct (round_binary_sign q2) as (P2 & N2 & Z2).
  destruct (Q_dec q1 0) as [[Hn1 | Hp1] | Hz1];
    destruct (Q_dec q2 0) as [[Hn2 | Hp2] | Hz2];
    try (exfalso; lra);
    try (specialize (N1 Hn1)); try (specialize (P1 Hp1)); try (specialize (Z1 Hz1));
    try (specialize (N2 Hn2)); try (specialize (P2 Hp2)); try (specialize (Z2 Hz2));
    try lra.
  - rewrite (round_binary_neg q1), (round_binary_neg q2) by assumption.
    pose proof (round_pos_mono prec prec_pos (- q2) (- q1) ltac:(lra) ltac:(lra)).
    lra.
  - rewrite (round_binary_pos q1), (round_binary_pos q2) by assumption.
    apply round_pos_mono; assumption.
Qed.

Lemma round_binary_proper (q1 q2 : Q) :
  q1 == q2 -> round_binary prec q1 == round_binary prec q2.
Proof.
  intro H. apply Qle_antisym; apply round_binary_mono; lra.
Qed.

Lemma round_binary_idem (q : Q) :
  round_binary prec (round_binary prec q) == round_binary prec q.
Proof.
  destruct (round_binary_sign q) as (P & N & Z0).
  destruct (Q_dec q 0) as [[Hn | Hp] | Hz].
  - specialize (N Hn). rewrite (round_binary_neg _ N).
    rewrite (round_binary_neg q Hn).
    assert (Hq : 0 < - q) by lra.
    rewrite (round_pos_proper prec (- - round_pos prec (- q)) (round_pos prec (- q))).
    + rewrite round_pos_idem by assumption. reflexivity.
    + rewrite (round_binary_neg q Hn) in N. lra.
    + ring.
  - specialize (P Hp). rewrite (round_binary_pos _ P).
    rewrite (round_binary_pos q Hp). apply round_pos_idem; assumption.
  - specialize (Z0 Hz). rewrite (round_binary_zero _ Z0).
    rewrite (round_binary_zero q Hz). reflexivity.
Qed.

Lemma round_binary_one : round_binary prec 1 == 1.
Proof.
  rewrite round_binary_pos by reflexivity.
  apply (round_pos_repr prec prec_pos 1 (2 ^ (prec - 1)) (1 - prec)).
  - split; [lia|]. apply Z.pow_le_mono_r; lia.
  - rewrite pow2_inject by lia. rewrite <- pow2_plus.
    replace (prec - 1 + (1 - prec))%Z with 0%Z by lia. reflexivity.
Qed.

Lemma round_binary_error (q : Q) :
  Qabs (round_binary prec q - q) <= 2 ^ (- prec) * Qabs q.
Proof.
  destruct (Q_dec q 0) as [[Hn | Hp] | Hz].
  - rewrite (round_binary_neg q Hn).
    pose proof (round_pos_error prec (- q) ltac:(lra)) as H.
    rewrite (Qabs_neg q) by lra.
    assert (E : - round_pos prec (- q) - q == - (round_pos prec (- q) - - q)) by ring.
    rewrite E, Qabs_opp. exact H.
  - rewrite (round_binary_pos q Hp). rewrite (Qabs_pos q) by lra.
    apply round_pos_error; assumption.
  - rewrite (round_binary_zero q Hz).
    assert (E : 0 - q == 0) by lra. rewrite E, Hz. 
    change (Qabs 0) with 0. lra.
Qed.
End RoundBinary.

Example double_of_three_tenths :
  round_binary 53 (3 / 10) == 5404319552844595 / 18014398509481984.
Proof. vm_compute. reflexivity. Qed.

Example round_float_two_thirds :
  round_float (round_float 20 / round_float 30) == 11184811 / 16777216.
Proof. vm_compute. reflexivity. Qed.

(** ** The runtime classifier *)

Section ClassifierProperties.
Variable E : Engine.
Variable float_cast : Q -> Q.

Lemma cascade_rejects_iff (aFilters : CBoostedFilters.t)
    (pFeature : CSVMFeature_base.t) :
  CBoostedFilters.keepPotentialCandidate float_cast aFilters pFeature = false
  <-> exists filter, In filter aFilters
        /\ CBoostedFilter.keepPotentialCandidate float_cast filter pFeature = false.
Proof.
  induction aFilters as [|filter rest IH]; simpl.
  - split; [discriminate | intros (f & [] & _)].
  - destruct (CBoostedFilter.keepPotentialCandidate float_cast filter pFeature)
      eqn:Hk; simpl.
    + rewrite IH. split.
      * intros (f & Hin & Hf). exists f. auto.
      * intros (f & [Heq | Hin] & Hf).
        -- subst f. congruence.
        -- exists f. auto.
    + split; [|reflexivity]. intros _. exists filter. auto.
Qed.

(** C1.  Whenever a stage of the cascade rejects the feature, [classify]
    returns -1 and the trace of engine calls is unchanged; otherwise,
    when the sign correction is 0, it returns 1 and the trace is
    unchanged; otherwise it calls the engine exactly once, on the
    normalised projection of the feature on the subset, and returns the
    sign correction times the raw prediction less the classification
    boundary (the engine's exception if it throws). *)
Theorem classify_spec (c : CSVMClassifier.t E) (pFeature : CSVMFeature_base.t)
    (tr : trace) :
  let dSign := CSavedSVMState.getSignCorrection (CSVMClassifier.savedState E c) in
  let dBoundary :=
    CSavedSVMState.getClassificationBoundary (CSVMClassifier.savedState E c) in
  let feature :=
    CFeatureSubsetSelecter.selectAndNormalise float_cast
      (CSVMClassifier.featureSubsetSelecter E c) pFeature in
  let rejected :=
    exists filter, In filter (CSVMClassifier.boostedFilters E c)
      /\ CBoostedFilter.keepPotentialCandidate float_cast filter pFeature = false in
  (rejected ->
     CSVMClassifier.classify E float_cast c pFeature tr = (Ret (-1), tr))
  /\ (~ rejected -> dSign == 0 ->
      CSVMClassifier.classify E float_cast c pFeature tr = (Ret 1, tr))
  /\ (~ rejected -> ~ dSign == 0 ->
      CSVMClassifier.classify E float_cast c pFeature tr
      = (match svm_predict E (CSVMClassifier.svm E c) feature with
         | Some raw => Ret (dSign * (raw - dBoundary))
         | None => CvException
         end,
         tr ++ [EvPredict feature])).
Proof.
  intros dSign dBoundary feature rejected.
  unfold CSVMClassifier.classify.
  destruct (CBoostedFilters.keepPotentialCandidate float_cast
              (CSVMClassifier.boostedFilters E c) pFeature) eqn:Hkeep; simpl.
  - assert (Hnot : ~ rejected).
    { intro Hr. apply cascade_rejects_iff in Hr. congruence. }
    split; [intro Hr; contradiction|].
    split; intros _ Hsign.
    + apply Qeq_bool_iff in Hsign. fold dSign. rewrite Hsign. reflexivity.
    + apply Qeq_bool_false in Hsign. fold dSign. rewrite Hsign.
      unfold bind, predict. fold feature.
      destruct (svm_predict E (CSVMClassifier.svm E c) feature); reflexivity.
  - assert (Hr : rejected) by (apply cascade_rejects_iff; exact Hkeep).
    split; [reflexivity|].
    split; intro Hnot; contradiction.
Qed.
End ClassifierProperties.

(** The three cases on the example classifier: a feature below the
    threshold of the cascade, a boosting-only state, a trained state. *)
Example classify_rejected :
  CSVMClassifier.classify exampleEngine (fun q => q) (exampleClassifier 1)
    (CSVMFeature_base.mk (fun _ => -1) 2) [] = (Ret (-1), []).
Proof. reflexivity. Qed.

Example classify_boosting_only :
  CSVMClassifier.classify exampleEngine (fun q => q) (exampleClassifier 0)
    exampleFeature [] = (Ret 1, []).
Proof. reflexivity. Qed.

Example classify_trained :
  CSVMClassifier.classify exampleEngine (fun q => q) (exampleClassifier (-1))
    exampleFeature []
  = (Ret (-1 * (1 * (2 - 1) + (2 * (1 - 0) + 0) - 3 - 0.5)),
     [EvPredict [1 * (2 - 1); 2 * (1 - 0)]]).
Proof. reflexivity. Qed.

(** ** The sigmoid calibration *)

Lemma validate_Ret (p : CSigmoidParams.t) :
  0 <= CSigmoidParams.dThreshLo p ->
  CSigmoidParams.dThreshLo p < CSigmoidParams.dThreshHi p ->
  CSigmoidParams.dThreshHi p <= 1 ->
  0 < CSigmoidParams.dScale p ->
  CSigmoidParams.validate p = Ret tt.
Proof.
  intros Hlo Hlt Hhi Hscale.
  unfold CSigmoidParams.validate, CHECKPROBABILITY, CHECK.
  assert (H1 : Qltb (CSigmoidParams.dThreshLo p) 0 = false) by (apply Qltb_false; lra).
  assert (H2 : Qgtb (CSigmoidParams.dThreshLo p) 1 = false) by (apply Qgtb_false; lra).
  assert (H3 : Qltb (CSigmoidParams.dThreshHi p) 0 = false) by (apply Qltb_false; lra).
  assert (H4 : Qgtb (CSigmoidParams.dThreshHi p) 1 = false) by (apply Qgtb_false; lra).
  assert (H5 : Qgeb (CSigmoidParams.dThreshLo p) (CSigmoidParams.dThreshHi p) = false)
    by (apply Qgeb_false; lra).
  assert (H6 : Qleb (CSigmoidParams.dScale p) 0 = false) by (apply Qleb_false; lra).
  rewrite H1, H2, H3, H4, H5, H6. reflexivity.
Qed.

Lemma validate_inv (p : CSigmoidParams.t) (u : unit) :
  CSigmoidParams.validate p = Ret u ->
  0 <= CSigmoidParams.dThreshLo p
  /\ CSigmoidParams.dThreshLo p < CSigmoidParams.dThreshHi p
  /\ CSigmoidParams.dThreshHi p <= 1
  /\ 0 < CSigmoidParams.dScale p.
Proof.
  unfold CSigmoidParams.validate, CHECKPROBABILITY, CHECK.
  destruct (Qltb (CSigmoidParams.dThreshLo p) 0) eqn:H1; simpl; [discriminate|].
  destruct (Qgtb (CSigmoidParams.dThreshLo p) 1) eqn:H2; simpl; [discriminate|].
  destruct (Qltb (CSigmoidParams.dThreshHi p) 0) eqn:H3; simpl; [discriminate|].
  destruct (Qgtb (CSigmoidParams.dThreshHi p) 1) eqn:H4; simpl; [discriminate|].
  destruct (Qgeb (CSigmoidParams.dThreshLo p) (CSigmoidParams.dThreshHi p)) eqn:H5;
    simpl; [discriminate|].
  destruct (Qleb (CSigmoidParams.dScale p) 0) eqn:H6; simpl; [discriminate|].
  intros _.
  apply Qltb_false in H1. apply Qgtb_false in H4.
  apply Qgeb_false in H5. apply Qleb_false in H6. auto.
Qed.

Lemma validate_total (p : CSigmoidParams.t) :
  CSigmoidParams.validate p = Ret tt \/ exists msg, CSigmoidParams.validate p = Fatal msg.
Proof.
  unfold CSigmoidParams.validate, CHECKPROBABILITY, CHECK.
  repeat match goal with
         | |- context [if ?b then _ else _] => destruct b; simpl
         end; eauto.
Qed.

Section SigmoidProperties.
Variable E : Engine.
Variable float_cast : Q -> Q.
Variable exp : Q -> Q.
Variable fl : Q -> Q.
Variable eps : Q.
Hypothesis exp_nonneg : forall x, 0 <= exp x.
(** Rounding is monotone, leaves a value of the format as it is, and has
    relative error at most [eps]; 0 and 1 are values of the format, and
    1 + [eps] rounds to 1. *)
Hypothesis fl_mono : forall x y, x <= y -> fl x <= fl y.
Hypothesis fl_idem : forall x, fl (fl x) == fl x.
Hypothesis fl_0 : fl 0 == 0.
Hypothesis fl_1 : fl 1 == 1.
Hypothesis eps_nonneg : 0 <= eps.
Hypothesis fl_error : forall x, Qabs (fl x - x) <= eps * Qabs x.
Hypothesis fl_above_1 : fl (1 + eps) <= 1.

Lemma fl_nonneg (x : Q) : 0 <= x -> 0 <= fl x.
Proof. intro H. pose proof (fl_mono 0 x H). lra. Qed.

Lemma fl_upper (x : Q) : 0 <= x -> fl x <= x * (1 + eps).
Proof.
  intro H. pose proof (fl_error x) as He.
  rewrite (Qabs_pos x H) in He. apply Qabs_Qle_condition in He. lra.
Qed.

Lemma logisticSigmoid_range (x : Q) :
  0 <= CSigmoidParams.logisticSigmoid exp fl x <= 1.
Proof.
  unfold CSigmoidParams.logisticSigmoid.
  pose proof (exp_nonneg (- x)) as He.
  assert (Hd : 1 <= fl (1 + exp (- x))).
  { pose proof (fl_mono 1 (1 + exp (- x)) ltac:(lra)). lra. }
  assert (Hq : 0 <= 1 / fl (1 + exp (- x)) <= 1).
  { split.
    - apply Qle_shift_div_l; lra.
    - apply Qle_shift_div_r; lra. }
  split.
  - apply fl_nonneg. apply Hq.
  - pose proof (fl_mono _ 1 (proj2 Hq)). lra.
Qed.

Lemma prob_range (p : CSigmoidParams.t) (dResponse : Q) :
  0 <= CSigmoidParams.dThreshLo p ->
  CSigmoidParams.dThreshLo p < CSigmoidParams.dThreshHi p ->
  CSigmoidParams.dThreshHi p <= 1 ->
  fl (CSigmoidParams.dThreshLo p) == CSigmoidParams.dThreshLo p ->
  CSigmoidParams.dThreshLo p <= CSigmoidParams.prob exp fl p dResponse
  /\ CSigmoidParams.prob exp fl p dResponse <= 1
  /\ CSigmoidParams.prob exp fl p dResponse
     <= CSigmoidParams.dThreshHi p * (1 + eps) * (1 + eps).
Proof.
  intros Hlo0 Hlt Hhi1 Hrep. unfold CSigmoidParams.prob.
  set (s := CSigmoidParams.logisticSigmoid exp fl _).
  pose proof (logisticSigmoid_range
                (fl (CSigmoidParams.dScale p
                     * fl (dResponse - CSigmoidParams.dShift p))))
    as [Hs0 Hs1].
  fold s in Hs0, Hs1.
  set (lo := CSigmoidParams.dThreshLo p) in *.
  set (hi := CSigmoidParams.dThreshHi p) in *.
  set (d := fl (hi - lo)).
  assert (Hd0 : 0 <= d) by (apply fl_nonneg; lra).
  assert (Hd1 : d <= (hi - lo) * (1 + eps)) by (apply fl_upper; lra).
  assert (Hds : 0 <= d * s <= d) by (split; nra).
  set (t := fl (d * s)).
  assert (Ht0 : 0 <= t) by (apply fl_nonneg; apply Hds).
  assert (Ht1 : t <= d).
  { pose proof (fl_mono (d * s) d (proj2 Hds)) as H.
    pose proof (fl_idem (hi - lo)) as Hi. fold d in Hi. unfold t. lra. }
  assert (Hsum : lo + t <= 1 + eps) by nra.
  split; [|split].
  - pose proof (fl_mono lo (lo + t) ltac:(lra)). lra.
  - pose proof (fl_mono (lo + t) (1 + eps) Hsum). lra.
  - pose proof (fl_upper (lo + t) ltac:(lra)) as Hu.
    assert (Hx : (lo + t) * (1 + eps) <= hi * (1 + eps) * (1 + eps)) by nra.
    lra.
Qed.

(** C2.  [probability] validates the sigmoid parameters before anything
    else: when they violate 0 <= threshold_lo < threshold_hi <= 1, or when
    scale <= 0, it fails fatally and the engine is not called.  Every
    probability it returns is at least threshold_lo, at most 1, and at
    most threshold_hi * (1 + eps)^2, where eps bounds the relative error
    of one rounding: the roundings of the expression can carry it above
    threshold_hi, by no more than that.  With valid parameters it does
    return, with the score of [classify], whenever [classify] returns
    one. *)
Theorem probability_spec (c : CSVMClassifier.t E) (pFeature : CSVMFeature_base.t)
    (tr : trace) :
  let p := CSavedSVMState.getSigmoidParams (CSVMClassifier.savedState E c) in
  let lo := CSigmoidParams.dThreshLo p in
  let hi := CSigmoidParams.dThreshHi p in
  fl lo == lo ->
  (~ (0 <= lo /\ lo < hi /\ hi <= 1) \/ CSigmoidParams.dScale p <= 0 ->
   exists msg,
     CSVMClassifier.probability E float_cast exp fl c pFeature tr = (Fatal msg, tr))
  /\ (forall dProb dScore tr',
        CSVMClassifier.probability E float_cast exp fl c pFeature tr
        = (Ret (dProb, dScore), tr') ->
        lo <= dProb /\ dProb <= 1 /\ dProb <= hi * (1 + eps) * (1 + eps))
  /\ (0 <= lo /\ lo < hi /\ hi <= 1 /\ 0 < CSigmoidParams.dScale p ->
      forall dScore tr',
        CSVMClassifier.classify E float_cast c pFeature tr = (Ret dScore, tr') ->
        CSVMClassifier.probability E float_cast exp fl c pFeature tr
        = (Ret (CSigmoidParams.prob exp fl p dScore, dScore), tr')).
Proof.
  intros p lo hi Hrep.
  unfold CSVMClassifier.probability, bind, lift. fold p.
  split; [|split].
  - intros Hbad.
    destruct (validate_total p) as [Hok | [msg Hmsg]].
    + exfalso. apply validate_inv in Hok. fold lo hi in Hok.
      destruct Hok as (H1 & H2 & H3 & H4).
      destruct Hbad as [Hbad | Hbad]; [apply Hbad; auto | lra].
    + exists msg. rewrite Hmsg. reflexivity.
  - intros dProb dScore tr'.
    destruct (CSigmoidParams.validate p) as [u | | |] eqn:Hv; try discriminate.
    apply validate_inv in Hv. fold lo hi in Hv. destruct Hv as (H1 & H2 & H3 & H4).
    destruct (CSVMClassifier.classify E float_cast c pFeature tr) as [[s | | |] tr1];
      try discriminate.
    destruct (CHECKPROBABILITY (CSigmoidParams.prob exp fl p s)); try discriminate.
    unfold ret. intro Heq. inversion Heq; subst.
    apply prob_range; assumption.
  - intros (H1 & H2 & H3 & H4) dScore tr' Hc.
    rewrite (validate_Ret p H1 H2 H3 H4). rewrite Hc.
    pose proof (prob_range p dScore H1 H2 H3 Hrep) as (Hp1 & Hp2 & _).
    fold lo hi in Hp1, Hp2.
    unfold CHECKPROBABILITY, CHECK.
    assert (Ha : Qltb (CSigmoidParams.prob exp fl p dScore) 0 = false)
      by (apply Qltb_false; lra).
    assert (Hb : Qgtb (CSigmoidParams.prob exp fl p dScore) 1 = false)
      by (apply Qgtb_false; lra).
    rewrite Ha, Hb. reflexivity.
Qed.
End SigmoidProperties.

Lemma exampleExp2_nonneg (x : Q) : 0 <= exampleExp2 x.
Proof. unfold exampleExp2. apply Qpower_0_le. discriminate. Qed.

Lemma round_double_mono (x y : Q) : x <= y -> round_double x <= round_double y.
Proof. apply round_binary_mono. lia. Qed.

Lemma round_double_idem (x : Q) : round_double (round_double x) == round_double x.
Proof. apply round_binary_idem. lia. Qed.

Lemma round_double_0 : round_double 0 == 0.
Proof. reflexivity. Qed.

Lemma round_double_1 : round_double 1 == 1.
Proof. apply round_binary_one. lia. Qed.

Lemma round_double_above_1 : round_double (1 + 2 ^ (-53)) <= 1.
Proof. vm_compute. discriminate. Qed.

Lemma pow2_nonneg (e : Z) : 0 <= 2 ^ e.
Proof. apply Qlt_le_weak. apply pow2_pos. Qed.

Lemma round_double_error (x : Q) :
  Qabs (round_double x - x) <= 2 ^ (-53) * Qabs x.
Proof. apply (round_binary_error 53). Qed.

(** In [double] arithmetic, with the thresholds 0.03 and 0.3 and the
    scale 40, the probability of the example feature (score 1) is
    returned, is at least threshold_lo and exceeds threshold_hi by no more
    than two roundings. *)
Lemma probability_spec_witness :
  exists dProb dScore tr',
    CSVMClassifier.probability exampleEngine (fun q => q) exampleExp2 round_double
      exampleCalibrated exampleFeature [] = (Ret (dProb, dScore), tr')
    /\ CSigmoidParams.dThreshLo exampleSigmoid <= dProb
    /\ dProb <= 1
    /\ dProb <= CSigmoidParams.dThreshHi exampleSigmoid
                * (1 + 2 ^ (-53)) * (1 + 2 ^ (-53)).
Proof.
  assert (Hrun : exists dProb dScore tr',
             CSVMClassifier.probability exampleEngine (fun q => q) exampleExp2
               round_double exampleCalibrated exampleFeature []
             = (Ret (dProb, dScore), tr'))
    by (eexists; eexists; eexists; vm_compute; reflexivity).
  destruct Hrun as (dProb & dScore & tr' & Hrun).
  exists dProb, dScore, tr'. split; [exact Hrun|].
  exact (proj1 (proj2 (probability_spec exampleEngine (fun q => q) exampleExp2
                         round_double (2 ^ (-53))
                         exampleExp2_nonneg
                         round_double_mono round_double_idem
                         round_double_0 round_double_1
                         (pow2_nonneg (-53))
                         round_double_error round_double_above_1
                         exampleCalibrated exampleFeature []
                         (round_double_idem 0.03)))
           dProb dScore tr' Hrun).
Defined.

(** The value returned there is above threshold_hi: the thresholds are
    valid, the sigmoid saturates at 1, and threshold_lo +
    (threshold_hi - threshold_lo) rounds to the next [double] above
    threshold_hi. *)
Lemma probability_exceeds_threshold_hi :
  CSigmoidParams.validate exampleSigmoid = Ret tt
  /\ exists dProb,
       CSVMClassifier.probability exampleEngine (fun q => q) exampleExp2
         round_double exampleCalibrated exampleFeature []
       = (Ret (dProb, 1), [EvPredict [1]])
       /\ CSigmoidParams.dThreshHi exampleSigmoid < dProb
       /\ dProb == 1351079888211149 / 4503599627370496.
Proof.
  split; [vm_compute; reflexivity|].
  eexists. split; [vm_compute; reflexivity|].
  split; vm_compute; reflexivity.
Qed.

(** ** The scoring functions *)

Lemma absClassWeight_nonneg (w : Q * Q) (b : bool) : 0 <= absClassWeight w b.
Proof. unfold absClassWeight, fabs. apply Qabs_nonneg. Qed.

Lemma absClassWeight_pos (w : Q * Q) (b : bool) :
  ~ fst w == 0 -> ~ snd w == 0 -> 0 < absClassWeight w b.
Proof.
  intros Hn Hp. unfold absClassWeight, fabs.
  assert (H : forall q, ~ q == 0 -> 0 < Qabs q).
  { intros q Hq. destruct (Qlt_le_dec 0 (Qabs q)) as [Hlt | Hle]; [exact Hlt|].
    exfalso. apply Hq. apply Qabs_Qle_condition in Hle. lra. }
  destruct b; apply H; assumption.
Qed.

Lemma totalScores_sums (w : Q * Q) (labels : list Q) :
  forall (test_labels : list Q) (dTotalScore dTotalErrorScore : Q),
    fst (totalScores w labels test_labels dTotalScore dTotalErrorScore)
    == dTotalScore + weightedTotal w labels
    /\ snd (totalScores w labels test_labels dTotalScore dTotalErrorScore)
       == dTotalErrorScore + weightedError w labels test_labels.
Proof.
  induction labels as [|label labels IH]; intros test_labels T Er; simpl.
  - split; lra.
  - destruct (IH (tl test_labels) (T + absClassWeight w (svmClass label))
                (if negb (eqb (svmClass label) (svmClass (hd 0 test_labels)))
                 then Er + absClassWeight w (svmClass label) else Er))
      as [H1 H2].
    rewrite H1, H2.
    split; [lra|].
    destruct (negb (eqb (svmClass label) (svmClass (hd 0 test_labels)))); lra.
Qed.

Lemma weightedError_bounds (w : Q * Q) (labels : list Q) :
  forall test_labels : list Q,
    0 <= weightedError w labels test_labels <= weightedTotal w labels.
Proof.
  induction labels as [|label labels IH]; intro test_labels; simpl.
  - split; lra.
  - pose proof (IH (tl test_labels)) as [H0 H1].
    pose proof (absClassWeight_nonneg w (svmClass label)) as Hw.
    destruct (negb (eqb (svmClass label) (svmClass (hd 0 test_labels)))); split; lra.
Qed.

Lemma weightedTotal_pos (w : Q * Q) (labels : list Q) :
  ~ fst w == 0 -> ~ snd w == 0 -> labels <> [] -> 0 < weightedTotal w labels.
Proof.
  intros Hn Hp Hne. destruct labels as [|label labels]; [congruence|]. simpl.
  pose proof (absClassWeight_pos w (svmClass label) Hn Hp) as Hw.
  pose proof (weightedError_bounds w labels []) as [H0 H1]. lra.
Qed.

Lemma ddiv_Num (a b : Q) : ~ b == 0 -> ddiv a b = Num (a / b).
Proof.
  intro Hb. unfold ddiv. apply Qeq_bool_false in Hb. rewrite Hb. reflexivity.
Qed.

Lemma ddiv_NaN (a b : Q) : b == 0 -> ddiv a b = NaN.
Proof.
  intro Hb. unfold ddiv. apply Qeq_bool_iff in Hb. rewrite Hb. reflexivity.
Qed.

Lemma ddiv_proper (a a' b b' : Q) :
  a == a' -> b == b' -> deq (ddiv a b) (ddiv a' b').
Proof.
  intros Ha Hb. unfold ddiv.
  destruct (Qeq_bool b 0) eqn:H1; destruct (Qeq_bool b' 0) eqn:H2; simpl; auto.
  - apply Qeq_bool_iff in H1. apply Qeq_bool_false in H2. apply H2. lra.
  - apply Qeq_bool_iff in H2. apply Qeq_bool_false in H1. apply H1. lra.
  - rewrite Ha, Hb. reflexivity.
Qed.

Lemma ddiv_in01 (a b : Q) : 0 <= a <= b -> 0 < b -> in01 (ddiv a b).
Proof.
  intros [H0 H1] Hb. rewrite ddiv_Num by lra. simpl. split.
  - apply Qle_shift_div_l; [exact Hb | lra].
  - apply Qle_shift_div_r; [exact Hb | lra].
Qed.

(** C4, as the code has it.  The total weighted success rate sets the
    sign correction to -1 exactly when the weighted error is at least half
    of the total weight, and to +1 otherwise (when it is less than half);
    in the flipped case the returned rate is the weighted error over the
    total weight, in the other case it is the total weight less the
    weighted error, over the total weight. *)
Theorem computeTotalSuccessRate_sign (w : Q * Q) (labels test_labels : list Q) :
  let T := weightedTotal w labels in
  let Er := weightedError w labels test_labels in
  let r := computeTotalSuccessRate w labels test_labels in
  (snd r = -1 <-> 0.5 * T <= Er)
  /\ (snd r = 1 <-> Er < 0.5 * T)
  /\ (0.5 * T <= Er -> deq (fst r) (ddiv Er T))
  /\ (Er < 0.5 * T -> deq (fst r) (ddiv (T - Er) T)).
Proof.
  intros T Er r. subst r. unfold computeTotalSuccessRate.
  pose proof (totalScores_sums w labels test_labels 0 0) as [H1 H2].
  fold T in H1. fold Er in H2.
  destruct (totalScores w labels test_labels 0 0) as [T' Er']. simpl in H1, H2.
  assert (HT : T' == T) by lra. assert (HE : Er' == Er) by lra.
  destruct (Qltb Er' (0.5 * T')) eqn:Hlt; simpl.
  - apply Qltb_true in Hlt.
    split; [|split; [|split]].
    + split; [discriminate | intro; lra].
    + split; [intro; lra | reflexivity].
    + intro; lra.
    + intros _. apply ddiv_proper; lra.
  - apply Qltb_false in Hlt.
    split; [|split; [|split]].
    + split; [intro; lra | reflexivity].
    + split; [discriminate | intro; lra].
    + intros _. apply ddiv_proper; lra.
    + intro; lra.
Qed.

(** At a weighted error of exactly half of the total weight (one of two
    equally weighted examples is misclassified) the error does not exceed
    half, and the sign correction is -1. *)
Lemma computeTotalSuccessRate_flips_at_half :
  ~ (snd (computeTotalSuccessRate (-1, 1) [1; -1] [1; 1]) = -1
     <-> 0.5 * weightedTotal (-1, 1) [1; -1] < weightedError (-1, 1) [1; -1] [1; 1]).
Proof.
  intros [H _]. specialize (H eq_refl). vm_compute in H. discriminate.
Qed.

Example computeTotalSuccessRate_at_half :
  computeTotalSuccessRate (-1, 1) [1; -1] [1; 1] = (Num (1 / 2), -1).
Proof. vm_compute. reflexivity. Qed.

Section ScoringBounds.
Variable float_cast : Q -> Q.

Lemma classErrors_bounds (bLabel : bool) (dSignCorrection : Q) (labels : list Q) :
  forall (test_labels : list Q) (dErrors dExamples : Q),
    0 <= dErrors <= dExamples ->
    let r := classErrors float_cast bLabel dSignCorrection labels test_labels
                         dErrors dExamples in
    0 <= fst r <= snd r /\ dExamples <= snd r
    /\ ((exists label, In label labels /\ svmClass (float_cast label) = bLabel) ->
        dExamples + 1 <= snd r).
Proof.
  induction labels as [|label labels IH]; intros test_labels e x Hex; simpl.
  - split; [exact Hex|]. split; [lra|]. intros (l & [] & _).
  - destruct (eqb (svmClass (float_cast label)) bLabel) eqn:Hc.
    + set (e' := if negb _ then e + 1 else e).
      assert (He' : 0 <= e' <= x + 1).
      { subst e'. destruct (negb _); lra. }
      destruct (IH (tl test_labels) e' (x + 1) He') as (H1 & H2 & _).
      split; [exact H1|]. split; [lra|]. intros _. exact H2.
    + destruct (IH (tl test_labels) e x Hex) as (H1 & H2 & H3).
      split; [exact H1|]. split; [exact H2|].
      intros (l & [Heq | Hin] & Hl).
      * subst l. rewrite Hl in Hc. rewrite eqb_reflx in Hc. discriminate.
      * apply H3. exists l. auto.
Qed.

Lemma classSuccessRate_in01 (bLabel : bool) (dSignCorrection : Q)
    (labels test_labels : list Q) :
  (exists label, In label labels /\ svmClass (float_cast label) = bLabel) ->
  in01 (classSuccessRate float_cast bLabel dSignCorrection labels test_labels).
Proof.
  intro Hex. unfold classSuccessRate.
  assert (H00 : 0 <= 0 <= 0) by lra.
  pose proof (classErrors_bounds bLabel dSignCorrection labels test_labels 0 0 H00)
    as (H1 & H2 & H3).
  specialize (H3 Hex).
  destruct (classErrors float_cast bLabel dSignCorrection labels test_labels 0 0)
    as [e x].
  simpl in H1, H2, H3. apply ddiv_in01; lra.
Qed.

(** Without an example of a class, the success rate of that class is the
    quotient 0/0. *)
Lemma classSuccessRate_NaN (bLabel : bool) (dSignCorrection : Q)
    (labels test_labels : list Q) :
  (forall label, In label labels -> svmClass (float_cast label) = negb bLabel) ->
  classSuccessRate float_cast bLabel dSignCorrection labels test_labels = NaN.
Proof.
  intro Hall. unfold classSuccessRate.
  assert (H : forall tests e x,
             classErrors float_cast bLabel dSignCorrection labels tests e x = (e, x)).
  { induction labels as [|label labels IH]; intros tests e x; simpl; [reflexivity|].
    rewrite (Hall label) by (left; reflexivity).
    replace (eqb (negb bLabel) bLabel) with false by (destruct bLabel; reflexivity).
    apply IH. intros l Hl. apply Hall. right. exact Hl. }
  rewrite H. reflexivity.
Qed.

(** C5, as the code has it.  With non-zero class weights, the total
    weighted success rate of a validation set that is not empty lies in
    [0,1], and the balanced success rate of a validation set that has an
    example of each class lies in [0,1]. *)
Theorem scoring_bounds (w : Q * Q) (labels test_labels : list Q)
    (dSignCorrection : Q) :
  ~ fst w == 0 -> ~ snd w == 0 ->
  (labels <> [] -> in01 (fst (computeTotalSuccessRate w labels test_labels)))
  /\ ((exists label, In label labels /\ svmClass (float_cast label) = false) ->
      (exists label, In label labels /\ svmClass (float_cast label) = true) ->
      in01 (computeBSR float_cast labels test_labels dSignCorrection)).
Proof.
  intros Hn Hp. split.
  - intro Hne.
    pose proof (weightedTotal_pos w labels Hn Hp Hne) as HT.
    pose proof (weightedError_bounds w labels test_labels) as [HE0 HE1].
    pose proof (totalScores_sums w labels test_labels 0 0) as [H1 H2].
    unfold computeTotalSuccessRate.
    destruct (totalScores w labels test_labels 0 0) as [T' Er']. simpl in H1, H2.
    destruct (Qltb Er' (0.5 * T')) eqn:Hlt; simpl; apply ddiv_in01; lra.
  - intros Hneg Hpos. unfold computeBSR. simpl.
    pose proof (classSuccessRate_in01 false dSignCorrection labels test_labels Hneg)
      as H0.
    pose proof (classSuccessRate_in01 true dSignCorrection labels test_labels Hpos)
      as H1.
    destruct (classSuccessRate float_cast false dSignCorrection labels test_labels)
      as [r0|]; [|contradiction].
    destruct (classSuccessRate float_cast true dSignCorrection labels test_labels)
      as [r1|]; [|contradiction].
    simpl in *. lra.
Qed.
End ScoringBounds.

(** Two examples, one of each class, the negative one misclassified. *)
Lemma scoring_bounds_witness :
  in01 (fst (computeTotalSuccessRate (-1 / 5, 1) [1; -1] [1; 1]))
  /\ in01 (computeBSR (fun q => q) [1; -1] [1; 1] 1).
Proof.
  assert (Hn : ~ fst (-1 / 5, 1) == 0) by (intro H; vm_compute in H; discriminate).
  assert (Hp : ~ snd (-1 / 5, 1) == 0) by (intro H; vm_compute in H; discriminate).
  destruct (scoring_bounds (fun q => q) (-1 / 5, 1) [1; -1] [1; 1] 1 Hn Hp)
    as [Ht Hb].
  split.
  - apply Ht. discriminate.
  - apply Hb.
    + exists (-1). split; [right; left; reflexivity | reflexivity].
    + exists 1. split; [left; reflexivity | reflexivity].
Defined.

(** A validation set with positive examples only: the success rate of the
    negative class is 0/0, and the balanced success rate is not a number
    of [0,1]. *)
Lemma computeBSR_single_class :
  computeBSR (fun q => q) [1] [1] 1 = NaN
  /\ ~ in01 (computeBSR (fun q => q) [1] [1] 1).
Proof.
  split; [reflexivity | intro H; exact H].
Qed.

(** ** The normalising coefficients *)

Lemma set_at_length (v : list Q) : forall n x, List.length (set_at v n x) = List.length v.
Proof.
  induction v as [|y v IH]; intros [|n] x; simpl; auto.
Qed.

Lemma nth_set_at_same (v : list Q) :
  forall n x, (n < List.length v)%nat -> nth n (set_at v n x) 0 = x.
Proof.
  induction v as [|y v IH]; intros [|n] x Hn; simpl in *; try lia; auto.
  apply IH. lia.
Qed.

Lemma nth_set_at_other (v : list Q) :
  forall n m x, n <> m -> nth m (set_at v n x) 0 = nth m v 0.
Proof.
  induction v as [|y v IH]; intros [|n] [|m] x Hnm; simpl; auto; try congruence.
Qed.

Section NormalisingProperties.
Variable meanSD : list Q -> Q * Q.

Lemma findNormalisingCoeffs1_scale (aaadFeatures : LabelledSets) (nFeature : nat) :
  ~ snd (CFeatureSubsetSelecter.findNormalisingCoeffs1 meanSD aaadFeatures nFeature) == 0.
Proof.
  unfold CFeatureSubsetSelecter.findNormalisingCoeffs1.
  destruct (meanSD _) as [dMean dSD]. simpl.
  destruct (Qgtb dSD 0) eqn:Hsd.
  - apply Qgtb_true in Hsd.
    assert (H : 0 < 1 / dSD) by (apply Qlt_shift_div_l; lra).
    lra.
  - lra.
Qed.

Lemma findNormalisingCoeffs_loop_spec (aaadFeatures : LabelledSets)
    (todo : list nat) :
  forall mean scale : TNormalisingCoefficients,
    NoDup todo ->
    (forall n, In n todo -> (n < List.length mean)%nat /\ (n < List.length scale)%nat) ->
    exists mean' scale',
      CFeatureSubsetSelecter.findNormalisingCoeffs_loop meanSD aaadFeatures todo
        mean scale = Ret (mean', scale')
      /\ List.length mean' = List.length mean
      /\ List.length scale' = List.length scale
      /\ (forall n, In n todo ->
            (nth n mean' 0, nth n scale' 0)
            = CFeatureSubsetSelecter.findNormalisingCoeffs1 meanSD aaadFeatures n)
      /\ (forall n, ~ In n todo ->
            nth n mean' 0 = nth n mean 0 /\ nth n scale' 0 = nth n scale 0).
Proof.
  induction todo as [|nFeature rest IH]; intros mean scale Hnd Hlt; simpl.
  - exists mean, scale. repeat split; auto. intros n [].
  - inversion Hnd as [|? ? Hnotin Hnd']; subst.
    destruct (Hlt nFeature (or_introl eq_refl)) as [Hm Hs].
    pose proof (findNormalisingCoeffs1_scale aaadFeatures nFeature) as Hnz.
    destruct (CFeatureSubsetSelecter.findNormalisingCoeffs1 meanSD aaadFeatures nFeature)
      as [dMean dScale] eqn:H1.
    simpl in Hnz.
    rewrite nth_set_at_same by exact Hs.
    unfold CHECK. apply Qeq_bool_false in Hnz. rewrite Hnz. simpl.
    destruct (IH (set_at mean nFeature dMean) (set_at scale nFeature dScale) Hnd')
      as (mean' & scale' & Hr & Hlm & Hls & Hin & Hout).
    { intros n Hn. rewrite !set_at_length. apply Hlt. right. exact Hn. }
    exists mean', scale'. rewrite Hr.
    rewrite set_at_length in Hlm, Hls.
    repeat split; auto.
    + intros n [Heq | Hn].
      * subst n. destruct (Hout nFeature Hnotin) as [Ha Hb].
        rewrite Ha, Hb, !nth_set_at_same by assumption. symmetry. exact H1.
      * rewrite Hin by exact Hn. reflexivity.
    + destruct (Hout n) as [Ha _]; [tauto|].
      rewrite Ha. apply nth_set_at_other. tauto.
    + destruct (Hout n) as [_ Hb]; [tauto|].
      rewrite Hb. apply nth_set_at_other. tauto.
Qed.

(** C9.  On a collection with a first negative example of [nDims]
    coefficients, [findNormalisingCoeffs] returns, and for every feature
    index below [nDims] the stored mean is the mean of the values of that
    coefficient over the negative and the positive examples together, the
    stored scale is 1 over their standard deviation when that is positive
    and 1 otherwise (so 1 when it is zero), and the scale is a non-zero
    number. *)
Theorem findNormalisingCoeffs_spec (s : CFeatureSubsetSelecter.t)
    (feature : list Q) (negs pos : TLabelledFeatures) :
  let aaadFeatures := mkSets (feature :: negs) pos in
  exists s',
    CFeatureSubsetSelecter.findNormalisingCoeffs meanSD s aaadFeatures = Ret s'
    /\ CFeatureSubsetSelecter.anFeatureIdxSubset s'
       = CFeatureSubsetSelecter.anFeatureIdxSubset s
    /\ List.length (CFeatureSubsetSelecter.adNormalisingMean s') = List.length feature
    /\ List.length (CFeatureSubsetSelecter.adNormalisingScale s') = List.length feature
    /\ forall nFeature, (nFeature < List.length feature)%nat ->
         let vals :=
           map (fun f => at_ f (Z.of_nat nFeature)) ((feature :: negs) ++ pos) in
         let dScale := nth nFeature (CFeatureSubsetSelecter.adNormalisingScale s') 0 in
         nth nFeature (CFeatureSubsetSelecter.adNormalisingMean s') 0
         = fst (meanSD vals)
         /\ dScale = (if Qgtb (snd (meanSD vals)) 0 then 1 / snd (meanSD vals) else 1)
         /\ (snd (meanSD vals) == 0 -> dScale = 1)
         /\ (0 < snd (meanSD vals) -> dScale == / snd (meanSD vals))
         /\ ~ dScale == 0.
Proof.
  intro aaadFeatures.
  unfold CFeatureSubsetSelecter.findNormalisingCoeffs. simpl.
  set (nDims := List.length feature).
  destruct (findNormalisingCoeffs_loop_spec aaadFeatures (seq 0 nDims)
              (repeat 0 nDims) (repeat 0 nDims))
    as (mean' & scale' & Hr & Hlm & Hls & Hin & _).
  { apply seq_NoDup. }
  { intros n Hn. apply in_seq in Hn. rewrite !repeat_length. lia. }
  rewrite Hr. cbn [obind fst snd].
  eexists. split; [reflexivity|].
  cbn [CFeatureSubsetSelecter.anFeatureIdxSubset
       CFeatureSubsetSelecter.adNormalisingMean
       CFeatureSubsetSelecter.adNormalisingScale].
  rewrite repeat_length in Hlm, Hls.
  split; [reflexivity|]. split; [exact Hlm|]. split; [exact Hls|].
  intros nFeature HnF.
  assert (Hn : In nFeature (seq 0 nDims)) by (apply in_seq; lia).
  specialize (Hin nFeature Hn).
  pose proof (findNormalisingCoeffs1_scale aaadFeatures nFeature) as Hnz.
  unfold CFeatureSubsetSelecter.findNormalisingCoeffs1,
    CFeatureSubsetSelecter.adVals in Hin, Hnz.
  subst aaadFeatures. cbn [negatives positives map app] in Hin, Hnz.
  rewrite <- map_app in Hin, Hnz.
  set (vals := at_ feature (Z.of_nat nFeature)
               :: map (fun f => at_ f (Z.of_nat nFeature)) (negs ++ pos)) in *.
  destruct (meanSD vals) as [dMean dSD].
  cbn [fst snd] in *. injection Hin as Ha Hb.
  split; [exact Ha|]. split; [exact Hb|].
  split; [|split].
  - intro Hz. assert (Hg : Qgtb dSD 0 = false) by (apply Qgtb_false; lra).
    rewrite Hb, Hg. reflexivity.
  - intro Hpos. assert (Hg : Qgtb dSD 0 = true) by (apply Qgtb_true; exact Hpos).
    rewrite Hb, Hg. field. lra.
  - rewrite Hb. exact Hnz.
Qed.
End NormalisingProperties.

Example findNormalisingCoeffs_example :
  CFeatureSubsetSelecter.findNormalisingCoeffs
    (fun vals => (sumQ vals / size_Q vals, if Qeq_bool (hd 0 vals) 0 then 0 else 4))
    CFeatureSubsetSelecter.default (mkSets [[0; 2]; [0; 4]] [[0; 6]])
  = Ret (CFeatureSubsetSelecter.mk []
           [(0 + (0 + (0 + 0))) / 3; (2 + (4 + (6 + 0))) / 3] [1; 1 / 4]).
Proof. vm_compute. reflexivity. Qed.

(** ** Failures of the engine during validation *)

Lemma bind_Ret {A B : Type} (m : M A) (k : A -> M B) (tr tr' : trace) (a : A) :
  m tr = (Ret a, tr') -> bind m k tr = k a tr'.
Proof. intro H. unfold bind. rewrite H. reflexivity. Qed.

Lemma bind_CvException {A B : Type} (m : M A) (k : A -> M B) (tr tr' : trace) :
  m tr = (CvException, tr') -> bind m k tr = (CvException, tr').
Proof. intro H. unfold bind. rewrite H. reflexivity. Qed.

Lemma try_catch_Ret {A : Type} (m h : M A) (tr tr' : trace) (a : A) :
  m tr = (Ret a, tr') -> try_catch m h tr = (Ret a, tr').
Proof. intro H. unfold try_catch. rewrite H. reflexivity. Qed.

Lemma try_catch_CvException {A : Type} (m h : M A) (tr tr' : trace) :
  m tr = (CvException, tr') -> try_catch m h tr = h tr'.
Proof. intro H. unfold try_catch. rewrite H. reflexivity. Qed.

Lemma hd_nth {A : Type} (l : list A) (d : A) : hd d l = nth 0 l d.
Proof. destruct l; reflexivity. Qed.

Lemma nth_tl {A : Type} (l : list A) (d : A) (i : nat) : nth i (tl l) d = nth (S i) l d.
Proof. destruct l; [destruct i|]; reflexivity. Qed.

Section ValidationProperties.
Variable E : Engine.
Variable float_cast : Q -> Q.
Variable LM_minimise : list Q -> list Q -> Q -> CSigmoidParams.t -> CSigmoidParams.t.
Variable pClassWeights : Q * Q.

Lemma predict_Some (svm : svm_model E) (row : list Q) (r : Q) (tr : trace) :
  svm_predict E svm row = Some r ->
  predict E svm row tr = (Ret r, tr ++ [EvPredict row]).
Proof. intro H. unfold predict. rewrite H. reflexivity. Qed.

Lemma predict_None (svm : svm_model E) (row : list Q) (tr : trace) :
  svm_predict E svm row = None ->
  predict E svm row tr = (CvException, tr ++ [EvPredict row]).
Proof. intro H. unfold predict. rewrite H. reflexivity. Qed.

(** The loop of predictions ends with all responses or with the engine's
    exception, never otherwise. *)
Lemma predictRows_outcome (svm : svm_model E) (labels : list Q) :
  forall (features : list (list Q)) (dBoundary : Q) (tr : trace),
    (exists test_labels tr',
        predictRows E float_cast svm features labels dBoundary tr
        = (Ret test_labels, tr'))
    \/ (exists tr',
           predictRows E float_cast svm features labels dBoundary tr
           = (CvException, tr')).
Proof.
  induction labels as [|label labels IH]; intros features dBoundary tr; simpl.
  - left. exists [], tr. reflexivity.
  - destruct (svm_predict E svm (hd [] features)) as [r|] eqn:Hp.
    + destruct (IH (tl features) dBoundary (tr ++ [EvPredict (hd [] features)]))
        as [(tl_ & tr' & H) | (tr' & H)].
      * left. eexists; eexists.
        erewrite bind_Ret by (apply predict_Some; exact Hp).
        erewrite bind_Ret by exact H. reflexivity.
      * right. eexists.
        erewrite bind_Ret by (apply predict_Some; exact Hp).
        erewrite bind_CvException by exact H. reflexivity.
    + right. eexists.
      erewrite bind_CvException by (apply predict_None; exact Hp). reflexivity.
Qed.

Lemma predictRows_throws (svm : svm_model E) (labels : list Q) :
  forall (features : list (list Q)) (dBoundary : Q) (tr : trace),
    (exists i, (i < List.length labels)%nat
               /\ svm_predict E svm (nth i features []) = None) ->
    exists tr',
      predictRows E float_cast svm features labels dBoundary tr = (CvException, tr').
Proof.
  induction labels as [|label labels IH]; intros features dBoundary tr (i & Hi & Hnone);
    simpl in *; [lia|].
  destruct (svm_predict E svm (hd [] features)) as [r|] eqn:Hp.
  - destruct i as [|i].
    + rewrite hd_nth in Hp. congruence.
    + destruct (IH (tl features) dBoundary (tr ++ [EvPredict (hd [] features)]))
        as (tr' & H).
      { exists i. split; [lia|]. rewrite nth_tl. exact Hnone. }
      eexists.
      erewrite bind_Ret by (apply predict_Some; exact Hp).
      erewrite bind_CvException by exact H. reflexivity.
  - eexists.
    erewrite bind_CvException by (apply predict_None; exact Hp). reflexivity.
Qed.

(** Without a sigmoid to fit, [propCorrect] returns whatever the engine
    does during the predictions. *)
Lemma propCorrect_returns (svm : svm_model E) (features : list (list Q))
    (labels : list Q) (dSignCorrection : Q) (dPrecision : double) (dBoundary : Q)
    (tr : trace) :
  exists v tr',
    propCorrect E float_cast LM_minimise pClassWeights svm features labels
                dSignCorrection dPrecision dBoundary None tr = (Ret v, tr').
Proof.
  unfold propCorrect.
  destruct (predictRows_outcome svm labels features dBoundary tr)
    as [(tl_ & tr' & H) | (tr' & H)].
  - erewrite bind_Ret
      by (apply try_catch_Ret; erewrite bind_Ret by exact H; reflexivity).
    cbv beta iota.
    destruct (computeTotalSuccessRate pClassWeights labels tl_) as [rate sign].
    eexists; eexists; reflexivity.
  - erewrite bind_Ret
      by (erewrite try_catch_CvException
            by (erewrite bind_CvException by exact H; reflexivity);
          reflexivity).
    eexists; eexists; reflexivity.
Qed.

Lemma propCorrect_throws (svm : svm_model E) (features : list (list Q))
    (labels : list Q) (dSignCorrection : Q) (dPrecision : double) (dBoundary : Q)
    (pSigmoid : option CSigmoidParams.t) (tr : trace) :
  (exists i, (i < List.length labels)%nat
             /\ svm_predict E svm (nth i features []) = None) ->
  exists tr',
    propCorrect E float_cast LM_minimise pClassWeights svm features labels
                dSignCorrection dPrecision dBoundary pSigmoid tr
    = (Ret (mkValidation (Num 0) dSignCorrection dPrecision pSigmoid), tr').
Proof.
  intro Hthrow. unfold propCorrect.
  destruct (predictRows_throws svm labels features dBoundary tr Hthrow) as (tr' & H).
  erewrite bind_Ret
    by (erewrite try_catch_CvException
          by (erewrite bind_CvException by exact H; reflexivity);
        reflexivity).
  eexists; reflexivity.
Qed.

Lemma train_Some (features : list (list Q)) (labels : list Q) (params : SVMParams)
    (svm : svm_model E) (tr : trace) :
  svm_train E features labels params = Some svm ->
  train E features labels params tr
  = (Ret svm, tr ++ [EvTrain features labels params]).
Proof. intro H. unfold train. rewrite H. reflexivity. Qed.

Lemma trainAndValidate_returns (featureSet : CTrainValidateFeatureSet)
    (params : SVMParams) (tr : trace) :
  svm_train E (aFeatures_eTrain featureSet) (aLabels_eTrain featureSet) params
  <> None ->
  exists r tr',
    trainAndValidate E float_cast LM_minimise pClassWeights featureSet params tr
    = (Ret r, tr').
Proof.
  intro Htrain. unfold trainAndValidate, validate.
  destruct (svm_train E (aFeatures_eTrain featureSet) (aLabels_eTrain featureSet)
              params) as [svm|] eqn:Ht; [|congruence].
  erewrite bind_Ret by (apply train_Some; exact Ht).
  destruct (propCorrect_returns svm (aFeatures_eValidate featureSet)
              (aLabels_eValidate featureSet) 0 (Num 0) 0
              (tr ++ [EvTrain (aFeatures_eTrain featureSet)
                              (aLabels_eTrain featureSet) params]))
    as (v & tr' & H).
  erewrite bind_Ret by (erewrite bind_Ret by exact H; reflexivity).
  eexists; eexists; reflexivity.
Qed.

Lemma foldScores_returns (aFeatureDivisions : list CTrainValidateFeatureSet)
    (params : SVMParams) :
  (forall featureSet, In featureSet aFeatureDivisions ->
     svm_train E (aFeatures_eTrain featureSet) (aLabels_eTrain featureSet) params
     <> None) ->
  forall (dKFoldCVScore : double) (dAvNumSVs : Q) (tr : trace),
  exists r tr',
    foldScores E float_cast LM_minimise pClassWeights aFeatureDivisions params
               dKFoldCVScore dAvNumSVs tr = (Ret r, tr').
Proof.
  induction aFeatureDivisions as [|featureSet rest IH]; intros Htrain score svs tr;
    simpl.
  - eexists; eexists; reflexivity.
  - destruct (trainAndValidate_returns featureSet params tr) as (r & tr' & H).
    { apply Htrain. left. reflexivity. }
    erewrite bind_Ret by exact H.
    apply IH. intros fs Hin. apply Htrain. right. exact Hin.
Qed.

(** A failure of the engine during the training of a fold is not caught. *)
Lemma trainAndValidate_train_throws (featureSet : CTrainValidateFeatureSet)
    (params : SVMParams) (tr : trace) :
  svm_train E (aFeatures_eTrain featureSet) (aLabels_eTrain featureSet) params
  = None ->
  exists tr',
    trainAndValidate E float_cast LM_minimise pClassWeights featureSet params tr
    = (CvException, tr').
Proof.
  intro Htrain. unfold trainAndValidate.
  erewrite bind_CvException
    by (unfold train; rewrite Htrain; reflexivity).
  eexists; reflexivity.
Qed.

Lemma foldScores_train_throws (aFeatureDivisions : list CTrainValidateFeatureSet)
    (params : SVMParams) :
  (exists featureSet,
      In featureSet aFeatureDivisions
      /\ svm_train E (aFeatures_eTrain featureSet) (aLabels_eTrain featureSet) params
         = None) ->
  forall (dKFoldCVScore : double) (dAvNumSVs : Q) (tr : trace),
  exists tr',
    foldScores E float_cast LM_minimise pClassWeights aFeatureDivisions params
               dKFoldCVScore dAvNumSVs tr = (CvException, tr').
Proof.
  induction aFeatureDivisions as [|featureSet rest IH];
    intros (bad & Hin & Hbad) score svs tr; [destruct Hin|].
  cbn [foldScores].
  destruct (svm_train E (aFeatures_eTrain featureSet) (aLabels_eTrain featureSet)
              params) as [svm|] eqn:Ht.
  - destruct (trainAndValidate_returns featureSet params tr) as (r & tr' & H);
      [congruence|].
    erewrite bind_Ret by exact H.
    apply IH. destruct Hin as [Hin | Hin]; [subst bad; congruence|].
    exists bad. split; assumption.
  - destruct (trainAndValidate_train_throws featureSet params tr Ht) as (tr' & H).
    erewrite bind_CvException by exact H.
    eexists; reflexivity.
Qed.

(** C3.  The engine can throw at two places while a fold of a
    hyperparameter point is scored.  When it throws during the
    predictions on the validation rows (the training of the fold having
    succeeded), [trainAndValidate] returns the score 0 for that fold and
    does not propagate the exception, and the loop over the folds goes on
    with 0 added to the running score; whenever the trainings of the folds
    succeed, the K-fold scoring of the point returns a score, whatever the
    engine does during the predictions.  When it throws during the
    training of the fold, nothing catches the exception:
    [trainAndValidate] ends with it, and so does the K-fold scoring of
    every list of folds that holds this fold. *)
Theorem engine_failure_scores_zero (featureSet : CTrainValidateFeatureSet)
    (params : SVMParams) (tr : trace) :
  (forall svm : svm_model E,
     svm_train E (aFeatures_eTrain featureSet) (aLabels_eTrain featureSet) params
     = Some svm ->
     (exists i, (i < List.length (aLabels_eValidate featureSet))%nat
                /\ svm_predict E svm (nth i (aFeatures_eValidate featureSet) [])
                   = None) ->
     (exists tr',
         trainAndValidate E float_cast LM_minimise pClassWeights featureSet params tr
         = (Ret (Num 0, get_support_vector_count E svm), tr'))
     /\ (forall (rest : list CTrainValidateFeatureSet) (dKFoldCVScore : double)
                (dAvNumSVs : Q),
           exists tr',
             foldScores E float_cast LM_minimise pClassWeights (featureSet :: rest)
                        params dKFoldCVScore dAvNumSVs tr
             = foldScores E float_cast LM_minimise pClassWeights rest params
                          (dadd dKFoldCVScore (Num 0))
                          (dAvNumSVs + inject_Z (get_support_vector_count E svm))
                          tr'))
  /\ (forall (aFeatureDivisions : list CTrainValidateFeatureSet)
             (p : CSVMParameterisation) (tr0 : trace),
        svmParams p = params ->
        In featureSet aFeatureDivisions ->
        (forall fs, In fs aFeatureDivisions ->
           svm_train E (aFeatures_eTrain fs) (aLabels_eTrain fs) params <> None) ->
        exists p' tr',
          kfoldTrainAndValidate E float_cast LM_minimise pClassWeights
                                aFeatureDivisions p tr0 = (Ret p', tr'))
  /\ (svm_train E (aFeatures_eTrain featureSet) (aLabels_eTrain featureSet) params
      = None ->
      (exists tr',
          trainAndValidate E float_cast LM_minimise pClassWeights featureSet params tr
          = (CvException, tr'))
      /\ (forall (aFeatureDivisions : list CTrainValidateFeatureSet)
                 (p : CSVMParameterisation) (tr0 : trace),
            svmParams p = params ->
            In featureSet aFeatureDivisions ->
            exists tr',
              kfoldTrainAndValidate E float_cast LM_minimise pClassWeights
                                    aFeatureDivisions p tr0 = (CvException, tr'))).
Proof.
  split; [|split].
  - intros svm Htrain Hthrow.
    assert (Hfold : exists tr',
               trainAndValidate E float_cast LM_minimise pClassWeights featureSet
                                params tr
               = (Ret (Num 0, get_support_vector_count E svm), tr')).
    { unfold trainAndValidate, validate.
      erewrite bind_Ret by (apply train_Some; exact Htrain).
      destruct (propCorrect_throws svm (aFeatures_eValidate featureSet)
                  (aLabels_eValidate featureSet) 0 (Num 0) 0 None
                  (tr ++ [EvTrain (aFeatures_eTrain featureSet)
                                  (aLabels_eTrain featureSet) params]) Hthrow)
        as (tr' & H).
      erewrite bind_Ret by (erewrite bind_Ret by exact H; reflexivity).
      eexists; reflexivity. }
    split; [exact Hfold|].
    intros rest score svs. destruct Hfold as (tr' & H).
    exists tr'. cbn [foldScores]. erewrite bind_Ret by exact H. reflexivity.
  - intros divs p tr0 Hp Hin Hall.
    unfold kfoldTrainAndValidate. rewrite Hp.
    destruct (foldScores_returns divs params Hall (Num 0) 0 tr0) as (r & tr' & H).
    erewrite bind_Ret by exact H.
    destruct divs as [|first rest]; [destruct Hin|].
    eexists; eexists; reflexivity.
  - intro Htrain. split.
    + apply trainAndValidate_train_throws. exact Htrain.
    + intros divs p tr0 Hp Hin.
      unfold kfoldTrainAndValidate. rewrite Hp.
      destruct (foldScores_train_throws divs params
                  (ex_intro _ featureSet (conj Hin Htrain)) (Num 0) 0 tr0)
        as (tr' & H).
      erewrite bind_CvException by exact H.
      eexists; reflexivity.
Qed.
End ValidationProperties.

(** On the first of the six folds of the example collections the faulty
    engine trains and then throws at the first positive validation row:
    the fold scores 0, and the K-fold scoring over the six folds
    returns. *)
Lemma engine_failure_scores_zero_witness :
  (exists tr',
      trainAndValidate faultyEngine (fun q => q) exampleLM (-1, 1)
                       (hd exampleFold exampleFolds) exampleParams []
      = (Ret (Num 0, 1%Z), tr'))
  /\ (exists p' tr',
         kfoldTrainAndValidate faultyEngine (fun q => q) exampleLM (-1, 1)
           exampleFolds (mkParameterisation exampleParams (Num (-1)) (-1)) []
         = (Ret p', tr')).
Proof.
  destruct (engine_failure_scores_zero faultyEngine (fun q => q) exampleLM (-1, 1)
              (hd exampleFold exampleFolds) exampleParams [])
    as (Hpredict & Hreturns & _).
  split.
  - apply (Hpredict 0.1).
    + reflexivity.
    + exists 3%nat. split; [vm_compute; lia | vm_compute; reflexivity].
  - apply Hreturns.
    + reflexivity.
    + vm_compute. left. reflexivity.
    + intros fs _. discriminate.
Defined.

(** When the engine throws while it trains (here: asked for [nu] = 0),
    the fold does not score 0: the exception leaves [trainAndValidate]
    and the K-fold scoring of the point. *)
Lemma training_failure_not_caught :
  fst (trainAndValidate strictEngine (fun q => q) exampleLM (-1, 1)
         (hd exampleFold exampleFolds) (mkSVMParams 0 1 (-1, 1)) [])
  = CvException
  /\ fst (kfoldTrainAndValidate strictEngine (fun q => q) exampleLM (-1, 1)
            exampleFolds
            (mkParameterisation (mkSVMParams 0 1 (-1, 1)) (Num (-1)) (-1)) [])
     = CvException.
Proof. split; vm_compute; reflexivity. Qed.

(** ** The training run *)

Section TrainingProperties.
Variable E : Engine.
Variable float_cast : Q -> Q.
Variable meanSD : list Q -> Q * Q.
Variable fNegRelativeWeight : Q.
Variable trainSVM : LabelledSets -> Q * Q -> CFeatureSubsetSelecter.t -> M (trained E).
Variable summary : nat -> nat -> nat -> nat -> string.

Lemma empty_cascade_keeps (float_cast' : Q -> Q) (pFeature : CSVMFeature_base.t) :
  CBoostedFilters.keepPotentialCandidate float_cast' (CBoostedFilters.make []) pFeature
  = true.
Proof. reflexivity. Qed.

Lemma save_boosterStates (aBoosterStates : TBoosterStates)
    (featureSubset : CFeatureSubsetSelecter.t) (svm : svm_model E)
    (dSignCorrection : Q) (PRLookup : TPRLookup) (sigmoidParams : CSigmoidParams.t)
    (details : string) :
  f_boosterStates (fst (CSavedSVMState.save E aBoosterStates featureSubset svm
                          dSignCorrection PRLookup sigmoidParams details))
  = map (fun s => (inject_Z (CBoosterState.getFeatureIdx s),
                   CBoosterState.getThreshold s,
                   double_of_bool (CBoosterState.rejectAbove s)))
        aBoosterStates.
Proof. reflexivity. Qed.

Lemma load_boosterStates (fs : StateFile) (dPrecision : Q) (st : CSavedSVMState.t) :
  CSavedSVMState.load fs dPrecision = Ret st ->
  List.length (CSavedSVMState.getBoosterStates st) = List.length (f_boosterStates fs).
Proof.
  unfold CSavedSVMState.load.
  destruct (match f_boundaries fs with
            | Some boundaries =>
                if Qneb dPrecision NO_PRECISION
                then CSavedSVMState.interpPrecisionBoundary dPrecision
                       (boundaries, f_precision fs)
                else Ret 0
            | None => Ret 0
            end); simpl; try discriminate.
  intro H. inversion H; subst. simpl. apply length_map.
Qed.

(** C10.  Whenever a training run persists its state, the booster cascade
    of the state file is empty: the run builds the cascade only under
    [bUseBoosting], which is [false].  Every state loaded from that file
    has a cascade of length zero, and the cascade filter built from it, as
    the one of the classifier constructed from the file, keeps every
    feature. *)
Theorem persisted_cascade_empty (aaadFeatures : LabelledSets) (tr tr' : trace)
    (files : StateFile * option (svm_model E)) :
  destructor E float_cast meanSD fNegRelativeWeight trainSVM summary aaadFeatures tr
  = (Ret (Saved E files), tr') ->
  f_boosterStates (fst files) = []
  /\ (forall (dPrecision : Q) (st : CSavedSVMState.t),
        CSavedSVMState.load (fst files) dPrecision = Ret st ->
        List.length (CSavedSVMState.getBoosterStates st) = 0%nat
        /\ forall (float_cast' : Q -> Q) (pFeature : CSVMFeature_base.t),
             CBoostedFilters.keepPotentialCandidate float_cast'
               (CBoostedFilters.make (CSavedSVMState.getBoosterStates st)) pFeature
             = true)
  /\ (forall (dPrecision : Q) (svmFile : svm_model E) (c : CSVMClassifier.t E)
             (float_cast' : Q -> Q) (pFeature : CSVMFeature_base.t),
        CSVMClassifier.make E (fst files) svmFile dPrecision = Ret c ->
        CBoostedFilters.keepPotentialCandidate float_cast'
          (CSVMClassifier.boostedFilters E c) pFeature = true).
Proof.
  intro Hrun.
  assert (Hfile : f_boosterStates (fst files) = []).
  { unfold destructor in Hrun.
    destruct ((List.length (positives aaadFeatures) <? 20)%nat
              || (List.length (negatives aaadFeatures) <? 20)%nat);
      [unfold ret in Hrun; inversion Hrun|].
    unfold bUseBoosting in Hrun.
    erewrite bind_Ret in Hrun by reflexivity.
    cbn [fst snd] in Hrun.
    destruct ((0 <? List.length (positives aaadFeatures))%nat
              && (0 <? List.length (negatives aaadFeatures))%nat).
    - unfold bind, lift in Hrun.
      destruct (CFeatureSubsetSelecter.findNormalisingCoeffs meanSD
                  CFeatureSubsetSelecter.default aaadFeatures);
        try (inversion Hrun; fail).
      destruct (trainSVM aaadFeatures
                  (computeNegWeight float_cast fNegRelativeWeight
                     (List.length (positives aaadFeatures))
                     (List.length (negatives aaadFeatures))) a) as [[r | | |] tr1];
        try (inversion Hrun; fail).
      unfold ret in Hrun. inversion Hrun; subst. reflexivity.
    - unfold ret in Hrun. inversion Hrun; subst. reflexivity. }
  assert (Hloaded : forall dPrecision st,
             CSavedSVMState.load (fst files) dPrecision = Ret st ->
             CSavedSVMState.getBoosterStates st = []).
  { intros dPrecision st Hload.
    pose proof (load_boosterStates (fst files) dPrecision st Hload) as Hlen.
    rewrite Hfile in Hlen.
    destruct (CSavedSVMState.getBoosterStates st); [reflexivity | discriminate]. }
  split; [exact Hfile|]. split.
  - intros dPrecision st Hload.
    rewrite (Hloaded dPrecision st Hload). split; reflexivity.
  - intros dPrecision svmFile c float_cast' pFeature Hmake.
    unfold CSVMClassifier.make in Hmake.
    destruct (CSavedSVMState.load (fst files) dPrecision) as [st | | |] eqn:Hload;
      try discriminate.
    cbn [obind] in Hmake. injection Hmake as Hc. subst c.
    cbn [CSVMClassifier.boostedFilters].
    rewrite (Hloaded dPrecision st Hload). reflexivity.
Qed.
End TrainingProperties.

(** A run on twenty examples of each class persists a state file with an
    empty cascade. *)
Lemma persisted_cascade_empty_witness :
  exists files tr',
    destructor exampleEngine (fun q => q) exampleMeanSD 1 exampleTrainSVM
               (fun _ _ _ _ => EmptyString) exampleSets []
    = (Ret (Saved exampleEngine files), tr')
    /\ f_boosterStates (fst files) = [].
Proof.
  eexists; eexists.
  split.
  - vm_compute. reflexivity.
  - apply (persisted_cascade_empty exampleEngine (fun q => q) exampleMeanSD 1
             exampleTrainSVM (fun _ _ _ _ => EmptyString) exampleSets [] _ _ eq_refl).
Defined.

(** ** The boundary for a target precision *)



Lemma filter_length_perm {A : Type} (f : A -> bool) (l l' : list A) :
  Permutation l l' -> List.length (filter f l) = List.length (filter f l').
Proof.
  induction 1 as [| x l l' _ IH | x y l | l l' l'' _ IH1 _ IH2]; simpl.
  - reflexivity.
  - destruct (f x); simpl; congruence.
  - destruct (f x), (f y); reflexivity.
  - congruence.
Qed.

Section InterpolationProperties.
Variable dTargetPrecision : Q.




End InterpolationProperties.


Example load_boundary_example :
  exists st,
    CSavedSVMState.load exampleStateFile 0.9 = Ret st
    /\ CSavedSVMState.getClassificationBoundary st == 2 / 3.
Proof. eexists. split; [vm_compute; reflexivity|]. vm_compute. reflexivity. Qed.


(** ** The boosting cascade *)

Section SortProperties.
Variable lt : TOneFeatureVal -> TOneFeatureVal -> bool.

Hypothesis lt_asym : forall x y, lt x y = true -> lt y x = false.
Hypothesis notlt_trans :
  forall x y z, lt y x = false -> lt z y = false -> lt z x = false.

Lemma insert_sorted_perm (x : TOneFeatureVal) (l : list TOneFeatureVal) :
  Permutation (insert_sorted lt x l) (x :: l).
Proof.
  induction l as [|y l IH]; simpl; [reflexivity|].
  destruct (lt x y); [reflexivity|].
  rewrite IH. apply perm_swap.
Qed.

Lemma std_sort_perm (l : list TOneFeatureVal) : Permutation (std_sort lt l) l.
Proof.
  induction l as [|x l IH]; simpl; [reflexivity|].
  rewrite insert_sorted_perm. apply perm_skip. exact IH.
Qed.

Lemma insert_sorted_sorted (x : TOneFeatureVal) (l : list TOneFeatureVal) :
  StronglySorted (notBefore lt) l -> StronglySorted (notBefore lt) (insert_sorted lt x l).
Proof.
  induction 1 as [|y l Hs IH Hall]; simpl.
  - constructor; constructor.
  - destruct (lt x y) eqn:Hxy.
    + constructor; [constructor; assumption|].
      assert (Rxy : notBefore lt x y) by (apply lt_asym; exact Hxy).
      constructor; [exact Rxy|].
      eapply Forall_impl; [|exact Hall]. intros z Hz.
      unfold notBefore in *. eapply notlt_trans; eassumption.
    + constructor; [exact IH|].
      eapply Permutation_Forall; [symmetry; apply insert_sorted_perm|].
      constructor; [exact Hxy | exact Hall].
Qed.

Lemma std_sort_sorted (l : list TOneFeatureVal) :
  StronglySorted (notBefore lt) (std_sort lt l).
Proof.
  induction l as [|x l IH]; simpl; [constructor|].
  apply insert_sorted_sorted. exact IH.
Qed.

End SortProperties.

Lemma asc_sorted (l : list TOneFeatureVal) :
  StronglySorted (fun a b => fst a <= fst b) (std_sort sortByOneFeature_asc l).
Proof.
  eapply StronglySorted_ind with
    (P := StronglySorted (fun a b => fst a <= fst b));
    [constructor | | apply (std_sort_sorted sortByOneFeature_asc)].
  - intros a l' _ IH Hall. constructor; [exact IH|].
    eapply Forall_impl; [|exact Hall]. intros b Hb. apply Qltb_false. exact Hb.
  - intros x y Hxy. unfold sortByOneFeature_asc in *.
    apply Qltb_true in Hxy. apply Qltb_false. lra.
  - intros x y z Hxy Hyz. unfold sortByOneFeature_asc in *.
    apply Qltb_false in Hxy, Hyz. apply Qltb_false. lra.
Qed.

Lemma desc_sorted (l : list TOneFeatureVal) :
  StronglySorted (fun a b => fst b <= fst a) (std_sort sortByOneFeature_desc l).
Proof.
  eapply StronglySorted_ind with
    (P := StronglySorted (fun a b => fst b <= fst a));
    [constructor | | apply (std_sort_sorted sortByOneFeature_desc)].
  - intros a l' _ IH Hall. constructor; [exact IH|].
    eapply Forall_impl; [|exact Hall]. intros b Hb. apply Qgtb_false. exact Hb.
  - intros x y Hxy. unfold sortByOneFeature_desc in *.
    apply Qgtb_true in Hxy. apply Qgtb_false. lra.
  - intros x y z Hxy Hyz. unfold sortByOneFeature_desc in *.
    apply Qgtb_false in Hxy, Hyz. apply Qgtb_false. lra.
Qed.

Lemma count_Q_cons {A : Type} (a : A) (l : list A) : count_Q (a :: l) == count_Q l + 1.
Proof.
  unfold count_Q. simpl List.length. rewrite Nat2Z.inj_succ, <- Z.add_1_r.
  rewrite inject_Z_plus. reflexivity.
Qed.

Lemma scan_cons2 (a b : TOneFeatureVal) (rest : list TOneFeatureVal)
    (dPos dNeg dBest dRemoved : Q) :
  scan (a :: b :: rest) dPos dNeg dBest dRemoved
  = let dPos' := if snd a then dPos + 1 else dPos in
    let dNeg' := if snd a then dNeg else dNeg + 1 in
    if Qltb dPos' (0.0005 * dNeg') && Qneb (fst a) (fst b)
    then scan (b :: rest) dPos' dNeg' (0.5 * (fst a + fst b)) dNeg'
    else scan (b :: rest) dPos' dNeg' dBest dRemoved.
Proof. reflexivity. Qed.

(** The walk either leaves the split it started from, or ends on a split
    between two adjacent entries of different values, with the negative
    entries counted up to the first of the two. *)
Lemma scan_spec (l : list TOneFeatureVal) :
  forall dPos dNeg dBest dRemoved : Q,
    scan l dPos dNeg dBest dRemoved = (dBest, dRemoved)
    \/ exists pre a b post,
         l = pre ++ a :: b :: post
         /\ ~ fst a == fst b
         /\ fst (scan l dPos dNeg dBest dRemoved) = 0.5 * (fst a + fst b)
         /\ snd (scan l dPos dNeg dBest dRemoved)
            == dNeg + count_Q (negativeVals (pre ++ [a])).
Proof.
  induction l as [|a rest IH]; intros dPos dNeg dBest dRemoved.
  - left. reflexivity.
  - destruct rest as [|b rest']; [left; reflexivity|].
    rewrite scan_cons2.
    set (dPos' := if snd a then dPos + 1 else dPos).
    set (dNeg' := if snd a then dNeg else dNeg + 1).
    cbv zeta.
    assert (Hneg : dNeg' == dNeg + count_Q (negativeVals [a])).
    { subst dNeg'. unfold negativeVals. cbn [filter].
      destruct (snd a); cbn [negb].
      - change (@count_Q _ []) with 0. lra.
      - change (@count_Q _ [a]) with 1. lra. }
    assert (Hstep : forall pre x,
               count_Q (negativeVals ((a :: pre) ++ [x]))
               == count_Q (negativeVals [a]) + count_Q (negativeVals (pre ++ [x]))).
    { intros pre x. unfold negativeVals. cbn [filter app].
      destruct (snd a); cbn [negb].
      - change (@count_Q _ []) with 0. lra.
      - rewrite count_Q_cons. change (@count_Q _ [a]) with 1. lra. }
    destruct (Qltb dPos' (0.0005 * dNeg') && Qneb (fst a) (fst b)) eqn:Hc.
    + apply andb_true_iff in Hc. destruct Hc as [_ Hne]. apply Qneb_true in Hne.
      destruct (IH dPos' dNeg' (0.5 * (fst a + fst b)) dNeg')
        as [Heq | (pre & a' & b' & post & Hl & Hab & Hb & Hr)].
      * right. exists [], a, b, rest'. rewrite Heq.
        cbn [fst snd app]. repeat split; auto.
      * right. exists (a :: pre), a', b', post. rewrite Hl.
        rewrite Hl in Hb, Hr.
        repeat split; auto.
        rewrite Hr, Hstep, Hneg. lra.
    + destruct (IH dPos' dNeg' dBest dRemoved)
        as [Heq | (pre & a' & b' & post & Hl & Hab & Hb & Hr)].
      * left. exact Heq.
      * right. exists (a :: pre), a', b', post. rewrite Hl.
        rewrite Hl in Hb, Hr.
        repeat split; auto.
        rewrite Hr, Hstep, Hneg. lra.
Qed.

Lemma strongly_sorted_split {A : Type} (R : A -> A -> Prop) (pre l2 : list A) :
  StronglySorted R (pre ++ l2) ->
  StronglySorted R l2 /\ forall x y, In x pre -> In y l2 -> R x y.
Proof.
  induction pre as [|p pre IH]; simpl; intro Hs.
  - split; [exact Hs | intros x y []].
  - apply StronglySorted_inv in Hs. destruct Hs as [Hs Hall].
    destruct (IH Hs) as [H2 Hxy]. split; [exact H2|].
    intros x y [Heq | Hin] Hy.
    + subst x. rewrite Forall_forall in Hall. apply Hall.
      apply in_or_app. right. exact Hy.
    + apply Hxy; assumption.
Qed.

Lemma filter_partition_length {A : Type} (f : A -> bool) (l : list A) :
  (List.length (filter f l) + List.length (filter (fun x => negb (f x)) l)
   = List.length l)%nat.
Proof.
  induction l as [|a l IH]; simpl; [reflexivity|].
  destruct (f a); simpl; lia.
Qed.

Lemma filter_none {A : Type} (f : A -> bool) (l : list A) :
  (forall x, In x l -> f x = false) -> filter f l = [].
Proof.
  induction l as [|a l IH]; simpl; intro H; [reflexivity|].
  rewrite (H a) by (left; reflexivity). apply IH. intros x Hx. apply H. right. exact Hx.
Qed.

(** In a list sorted in the direction of the polarity, a split half-way
    between two adjacent entries of different values rejects the entries
    up to the first and keeps the entries from the second on. *)
Lemma split_rejects (bRejectAbove : bool) (nIdx : Z)
    (pre post : list TOneFeatureVal) (a b : TOneFeatureVal) :
  StronglySorted (if bRejectAbove
                  then (fun x y : TOneFeatureVal => fst y <= fst x)
                  else (fun x y : TOneFeatureVal => fst x <= fst y))
                 (pre ++ a :: b :: post) ->
  ~ fst a == fst b ->
  let boosterState := CBoosterState.mk nIdx (0.5 * (fst a + fst b)) bRejectAbove in
  (forall x, In x (pre ++ [a]) -> CBoostedFilter.keepVal boosterState (fst x) = false)
  /\ (forall x, In x (b :: post) -> CBoostedFilter.keepVal boosterState (fst x) = true).
Proof.
  intros Hs Hab boosterState.
  pose proof (strongly_sorted_split _ pre (a :: b :: post) Hs) as [Hs1 Hpre].
  apply StronglySorted_inv in Hs1. destruct Hs1 as [Hs2 Ha].
  apply StronglySorted_inv in Hs2. destruct Hs2 as [_ Hb].
  rewrite Forall_forall in Ha, Hb.
  unfold CBoostedFilter.keepVal, boosterState, CBoosterState.rejectAbove,
    CBoosterState.getThreshold. cbn [CBoosterState.bRejectAbove CBoosterState.dThreshold].
  destruct bRejectAbove.
  - assert (Hba : fst b <= fst a) by (apply Ha; left; reflexivity).
    split; intros x Hx.
    + apply Qltb_false.
      apply in_app_or in Hx. destruct Hx as [Hx | [Hx | []]].
      * assert (fst a <= fst x) by (apply Hpre; [exact Hx | left; reflexivity]). lra.
      * subst x. lra.
    + apply Qltb_true. destruct Hx as [Hx | Hx].
      * subst x. lra.
      * assert (fst x <= fst b) by (apply Hb; exact Hx). lra.
  - assert (Hba : fst a <= fst b) by (apply Ha; left; reflexivity).
    split; intros x Hx.
    + apply Qgtb_false.
      apply in_app_or in Hx. destruct Hx as [Hx | [Hx | []]].
      * assert (fst x <= fst a) by (apply Hpre; [exact Hx | left; reflexivity]). lra.
      * subst x. lra.
    + apply Qgtb_true. destruct Hx as [Hx | Hx].
      * subst x. lra.
      * assert (fst b <= fst x) by (apply Hb; exact Hx). lra.
Qed.

Lemma sortedFeatures_sorted (aaadFeatures : LabelledSets) (nIdx : Z)
    (bRejectAbove : bool) :
  StronglySorted (if bRejectAbove
                  then (fun x y : TOneFeatureVal => fst y <= fst x)
                  else (fun x y : TOneFeatureVal => fst x <= fst y))
                 (sortedFeatures aaadFeatures nIdx bRejectAbove).
Proof.
  unfold sortedFeatures. destruct bRejectAbove; [apply desc_sorted | apply asc_sorted].
Qed.

Lemma sortedFeatures_perm (aaadFeatures : LabelledSets) (nIdx : Z)
    (bRejectAbove : bool) :
  Permutation (sortedFeatures aaadFeatures nIdx bRejectAbove)
              (oneFeatureVals aaadFeatures nIdx).
Proof. apply std_sort_perm. Qed.

(** The rejected negative entries of the tagged values are the negative
    examples the booster removes. *)
Lemma rejected_in_dataset (aaadFeatures : LabelledSets)
    (boosterState : CBoosterState.t) :
  List.length (filter (rejectsNegative boosterState)
                 (oneFeatureVals aaadFeatures (CBoosterState.getFeatureIdx boosterState)))
  = removedNegatives boosterState aaadFeatures.
Proof.
  unfold oneFeatureVals, removedNegatives, applyBooster. cbn [negatives].
  rewrite filter_app, length_app, !filter_map_swap, !length_map.
  rewrite (filter_none _ (positives aaadFeatures)) by reflexivity.
  pose proof (filter_partition_length
                (CBoostedFilter.keepPotentialCandidateMat boosterState)
                (negatives aaadFeatures)) as Hpart.
  assert (Hext : filter (fun a => rejectsNegative boosterState
                                    (at_ a (CBoosterState.getFeatureIdx boosterState),
                                     false))
                        (negatives aaadFeatures)
                 = filter (fun x => negb (CBoostedFilter.keepPotentialCandidateMat
                                            boosterState x))
                          (negatives aaadFeatures)).
  { apply filter_ext. intro f. reflexivity. }
  rewrite Hext. simpl List.length. lia.
Qed.

Lemma count_Q_le (n : nat) {A : Type} (l : list A) :
  inject_Z (Z.of_nat n) <= count_Q l -> (n <= List.length l)%nat.
Proof.
  unfold count_Q. rewrite <- Zle_Qle. lia.
Qed.

(** A candidate is either turned down, or it is the split of its feature
    and polarity and removes at least 150 negative examples and at least a
    tenth of them. *)
Lemma findBoosterState_accepted (aaadFeatures : LabelledSets) (nIdx : Z)
    (bRejectAbove : bool) :
  findBoosterState aaadFeatures nIdx bRejectAbove = (0, CBoosterState.default)
  \/ exists dThreshold,
       let boosterState := CBoosterState.mk nIdx dThreshold bRejectAbove in
       snd (findBoosterState aaadFeatures nIdx bRejectAbove) = boosterState
       /\ (150 <= removedNegatives boosterState aaadFeatures)%nat
       /\ (List.length (negatives aaadFeatures)
           <= 10 * removedNegatives boosterState aaadFeatures)%nat.
Proof.
  unfold findBoosterState.
  destruct (bestSplit aaadFeatures nIdx bRejectAbove) as [dBest dRemoved] eqn:Hsplit.
  destruct (Qltb (dRemoved / size_Q (negatives aaadFeatures)) dMinimumPower
            || Qltb dRemoved 150) eqn:Hc; [left; reflexivity|].
  right. apply orb_false_iff in Hc. destruct Hc as [Hprop Hrem].
  apply Qltb_false in Hprop, Hrem.
  unfold bestSplit in Hsplit.
  destruct (scan_spec (sortedFeatures aaadFeatures nIdx bRejectAbove) 0 0 (- HUGE) (-1))
    as [Heq | (pre & a & b & post & Hl & Hab & Hb & Hr)].
  { rewrite Hsplit in Heq. injection Heq as _ Heq. subst dRemoved.
    exfalso. revert Hrem. apply Qlt_not_le. reflexivity. }
  rewrite Hsplit in Hb, Hr. cbn [fst snd] in Hb, Hr. subst dBest.
  exists (0.5 * (fst a + fst b)). cbv zeta. cbn [snd].
  set (boosterState := CBoosterState.mk nIdx (0.5 * (fst a + fst b)) bRejectAbove).
  pose proof (sortedFeatures_sorted aaadFeatures nIdx bRejectAbove) as Hsorted.
  rewrite Hl in Hsorted.
  destruct (split_rejects bRejectAbove nIdx pre post a b Hsorted Hab) as [Hrej Hkeep].
  fold boosterState in Hrej, Hkeep.
  assert (Hcount : List.length (negativeVals (pre ++ [a]))
                   = removedNegatives boosterState aaadFeatures).
  { rewrite <- rejected_in_dataset.
    change (CBoosterState.getFeatureIdx boosterState) with nIdx.
    rewrite <- (filter_length_perm _ _ _
                  (sortedFeatures_perm aaadFeatures nIdx bRejectAbove)).
    rewrite Hl.
    change (pre ++ a :: b :: post) with (pre ++ [a] ++ b :: post).
    rewrite app_assoc, filter_app, length_app.
    rewrite (filter_none _ (b :: post)).
    - simpl List.length. rewrite Nat.add_0_r. unfold negativeVals.
      f_equal. apply filter_ext_in. intros x Hx.
      unfold rejectsNegative. rewrite (Hrej x Hx). destruct (snd x); reflexivity.
    - intros x Hx. unfold rejectsNegative. rewrite (Hkeep x Hx).
      destruct (snd x); reflexivity. }
  assert (Hremoved : dRemoved
                     == inject_Z (Z.of_nat (removedNegatives boosterState aaadFeatures))).
  { rewrite Hr. unfold count_Q. rewrite Hcount. lra. }
  assert (H150 : (150 <= removedNegatives boosterState aaadFeatures)%nat).
  { assert (H : inject_Z (Z.of_nat 150) <= dRemoved) by exact Hrem.
    rewrite Hremoved in H. rewrite <- Zle_Qle in H. lia. }
  split; [reflexivity|]. split; [exact H150|].
  assert (Hle : (removedNegatives boosterState aaadFeatures
                 <= List.length (negatives aaadFeatures))%nat).
  { unfold removedNegatives. lia. }
  set (n := removedNegatives boosterState aaadFeatures) in *.
  set (L := List.length (negatives aaadFeatures)) in *.
  assert (HL : 0 < size_Q (negatives aaadFeatures)).
  { unfold size_Q. fold L. change 0 with (inject_Z 0). rewrite <- Zlt_Qlt. lia. }
  assert (Hmul : dMinimumPower * size_Q (negatives aaadFeatures) <= dRemoved).
  { apply Qmult_le_compat_r with (z := size_Q (negatives aaadFeatures)) in Hprop;
      [|apply Qlt_le_weak; exact HL].
    assert (Hdiv : dRemoved / size_Q (negatives aaadFeatures)
                   * size_Q (negatives aaadFeatures) == dRemoved).
    { rewrite Qmult_comm. apply Qmult_div_r.
      intro Hz. rewrite Hz in HL. exact (Qlt_irrefl _ HL). }
    lra. }
  rewrite Hremoved in Hmul. unfold size_Q in Hmul. fold L in Hmul.
  unfold dMinimumPower, Qle, Qmult, inject_Z in Hmul. cbn [Qnum Qden] in Hmul. lia.
Qed.

Lemma betterCandidate_ok (aaadFeatures : LabelledSets) (cands : list (bool * Z)) :
  Forall (fun c => (0 <= snd c)%Z) cands ->
  forall best : TBoosterCandidate,
    stage_ok aaadFeatures (snd best) ->
    stage_ok aaadFeatures
      (snd (fold_left (betterCandidate aaadFeatures) cands best)).
Proof.
  induction 1 as [|c cands Hc _ IH]; intros best Hbest; simpl; [exact Hbest|].
  apply IH. unfold betterCandidate.
  destruct (Qgtb (fst (findBoosterState aaadFeatures (snd c) (fst c))) (fst best));
    [|exact Hbest].
  destruct (findBoosterState_accepted aaadFeatures (snd c) (fst c))
    as [Hrej | (thr & Hst & H150 & H10)].
  - rewrite Hrej. left. reflexivity.
  - right. rewrite Hst. auto.
Qed.

Lemma candidateOrder_nonneg (nDims : nat) :
  Forall (fun c : bool * Z => (0 <= snd c)%Z) (candidateOrder nDims).
Proof.
  unfold candidateOrder. apply Forall_forall. intros c Hc.
  apply in_flat_map in Hc. destruct Hc as (pol & _ & Hc).
  apply in_map_iff in Hc. destruct Hc as (n & Heq & _). subst c. simpl. lia.
Qed.

(** The stage of a round is the default one or removes at least 150
    negative examples and at least a tenth of them. *)
Lemma findBestBoosterState_ok (aaadFeatures : LabelledSets)
    (boosterState : CBoosterState.t) :
  findBestBoosterState aaadFeatures = Ret boosterState ->
  stage_ok aaadFeatures boosterState.
Proof.
  unfold findBestBoosterState.
  destruct (cols0 aaadFeatures) as [nDims|]; [|discriminate].
  intro H. injection H as H. subst boosterState.
  apply betterCandidate_ok; [apply candidateOrder_nonneg | left; reflexivity].
Qed.

Lemma findBoosterStates_loop_S (fuel : nat) (aaadFeatures : LabelledSets)
    (aBoosterStates : TBoosterStates) :
  findBoosterStates_loop (S fuel) aaadFeatures aBoosterStates
  = match findBestBoosterState aaadFeatures with
    | Ret boosterState =>
        if (CBoosterState.getFeatureIdx boosterState <? 0)%Z
        then Some (Ret (aBoosterStates, aaadFeatures))
        else
          if (List.length (negatives aaadFeatures)
              <=? List.length (negatives (applyBooster boosterState aaadFeatures)))%nat
          then Some (Fatal "Boosting failed")
          else findBoosterStates_loop fuel (applyBooster boosterState aaadFeatures)
                                      (aBoosterStates ++ [boosterState])
    | Fatal msg => Some (Fatal msg)
    | CvException => Some CvException
    | Undefined => Some Undefined
    end.
Proof. reflexivity. Qed.

Lemma findBestBoosterState_rejected (aaadFeatures : LabelledSets) (nDims : nat) :
  cols0 aaadFeatures = Some nDims ->
  (forall bRejectAbove nIdx,
     In (bRejectAbove, nIdx) (candidateOrder nDims) ->
     findBoosterState aaadFeatures nIdx bRejectAbove = (0, CBoosterState.default)) ->
  findBestBoosterState aaadFeatures = Ret CBoosterState.default.
Proof.
  intros Hcols Hall. unfold findBestBoosterState. rewrite Hcols. f_equal.
  assert (H : forall cands,
             (forall c, In c cands -> In c (candidateOrder nDims)) ->
             fold_left (betterCandidate aaadFeatures) cands (0, CBoosterState.default)
             = (0, CBoosterState.default)).
  { induction cands as [|c cands IH]; intro Hsub; simpl; [reflexivity|].
    unfold betterCandidate at 2.
    rewrite (Hall (fst c) (snd c))
      by (rewrite <- surjective_pairing; apply Hsub; left; reflexivity).
    replace (if Qgtb (fst (0, CBoosterState.default)) (fst (0, CBoosterState.default))
             then (0, CBoosterState.default) else (0, CBoosterState.default))
      with (0, CBoosterState.default)
      by (destruct (Qgtb _ _); reflexivity).
    apply IH. intros c' Hc'. apply Hsub. right. exact Hc'. }
  rewrite H; [reflexivity | auto].
Qed.

(** C7.  Every candidate of a round, for a feature index and a polarity,
    is either turned down or removes at least 150 of the current negative
    examples and at least a tenth of them; the stage a round adds to the
    cascade is such a candidate; and when the acceptance test turns down
    every candidate of a round, the round adds no rule and the search
    returns the cascade built so far. *)
Theorem booster_acceptance_bound (aaadFeatures : LabelledSets) :
  (forall (nIdx : Z) (bRejectAbove : bool),
      findBoosterState aaadFeatures nIdx bRejectAbove = (0, CBoosterState.default)
      \/ exists dThreshold,
           let boosterState := CBoosterState.mk nIdx dThreshold bRejectAbove in
           snd (findBoosterState aaadFeatures nIdx bRejectAbove) = boosterState
           /\ (150 <= removedNegatives boosterState aaadFeatures)%nat
           /\ (List.length (negatives aaadFeatures)
               <= 10 * removedNegatives boosterState aaadFeatures)%nat)
  /\ (forall boosterState,
        findBestBoosterState aaadFeatures = Ret boosterState ->
        (0 <= CBoosterState.getFeatureIdx boosterState)%Z ->
        (150 <= removedNegatives boosterState aaadFeatures)%nat
        /\ (List.length (negatives aaadFeatures)
            <= 10 * removedNegatives boosterState aaadFeatures)%nat)
  /\ (forall nDims,
        cols0 aaadFeatures = Some nDims ->
        (forall bRejectAbove nIdx,
           In (bRejectAbove, nIdx) (candidateOrder nDims) ->
           let dNumRemovedBelow := snd (bestSplit aaadFeatures nIdx bRejectAbove) in
           dNumRemovedBelow / size_Q (negatives aaadFeatures) < dMinimumPower
           \/ dNumRemovedBelow < 150) ->
        forall fuel aBoosterStates,
          findBoosterStates_loop (S fuel) aaadFeatures aBoosterStates
          = Some (Ret (aBoosterStates, aaadFeatures))).
Proof.
  split; [|split].
  - intros nIdx bRejectAbove. apply findBoosterState_accepted.
  - intros boosterState Hbest Hidx.
    destruct (findBestBoosterState_ok aaadFeatures boosterState Hbest)
      as [Hdef | (_ & H150 & H10)].
    + subst boosterState. simpl in Hidx. lia.
    + auto.
  - intros nDims Hcols Hall fuel aBoosterStates.
    assert (Hbest : findBestBoosterState aaadFeatures = Ret CBoosterState.default).
    { apply (findBestBoosterState_rejected aaadFeatures nDims Hcols).
      intros bRejectAbove nIdx Hin. specialize (Hall bRejectAbove nIdx Hin).
      unfold findBoosterState.
      destruct (bestSplit aaadFeatures nIdx bRejectAbove) as [dBest dRemoved].
      cbn [snd] in Hall.
      replace (Qltb (dRemoved / size_Q (negatives aaadFeatures)) dMinimumPower
               || Qltb dRemoved 150) with true; [reflexivity|].
      symmetry. apply orb_true_iff.
      destruct Hall as [H | H]; [left | right]; apply Qltb_true; exact H. }
    rewrite findBoosterStates_loop_S, Hbest. reflexivity.
Qed.

Lemma applyBooster_positives (boosterState : CBoosterState.t)
    (aaadFeatures : LabelledSets) :
  (List.length (positives (applyBooster boosterState aaadFeatures))
   <= List.length (positives aaadFeatures))%nat.
Proof. unfold applyBooster. simpl. apply filter_length_le. Qed.

Lemma applyBooster_negatives (boosterState : CBoosterState.t)
    (aaadFeatures : LabelledSets) :
  (List.length (negatives (applyBooster boosterState aaadFeatures))
   + removedNegatives boosterState aaadFeatures
   = List.length (negatives aaadFeatures))%nat.
Proof.
  unfold removedNegatives.
  assert (H : (List.length (negatives (applyBooster boosterState aaadFeatures))
               <= List.length (negatives aaadFeatures))%nat)
    by (unfold applyBooster; simpl; apply filter_length_le).
  lia.
Qed.

(** With more fuel than negative examples the search ends; its [CHECK]
    does not fire; each stage it added removed at least 150 negative
    examples, and no positive example was added. *)
Lemma findBoosterStates_loop_fuel (fuel : nat) :
  forall (aaadFeatures : LabelledSets) (aBoosterStates : TBoosterStates),
    (List.length (negatives aaadFeatures) < fuel)%nat ->
    exists r,
      findBoosterStates_loop fuel aaadFeatures aBoosterStates = Some r
      /\ (r = Undefined
          \/ exists added aaadFeatures',
               r = Ret (aBoosterStates ++ added, aaadFeatures')
               /\ (List.length (negatives aaadFeatures') + 150 * List.length added
                   <= List.length (negatives aaadFeatures))%nat
               /\ (List.length (positives aaadFeatures')
                   <= List.length (positives aaadFeatures))%nat).
Proof.
  induction fuel as [|fuel IH]; intros aaadFeatures aBoosterStates Hfuel; [lia|].
  rewrite findBoosterStates_loop_S.
  destruct (findBestBoosterState aaadFeatures) as [boosterState | msg | |] eqn:Hbest.
  - destruct (CBoosterState.getFeatureIdx boosterState <? 0)%Z eqn:Hidx.
    + eexists. split; [reflexivity|]. right.
      exists [], aaadFeatures. rewrite app_nil_r. simpl. repeat split; lia.
    + apply Z.ltb_ge in Hidx.
      destruct (findBestBoosterState_ok aaadFeatures boosterState Hbest)
        as [Hdef | (_ & H150 & _)].
      { subst boosterState. simpl in Hidx. lia. }
      pose proof (applyBooster_negatives boosterState aaadFeatures) as Hneg.
      pose proof (applyBooster_positives boosterState aaadFeatures) as Hpos.
      replace (List.length (negatives aaadFeatures)
               <=? List.length (negatives (applyBooster boosterState aaadFeatures)))%nat
        with false by (symmetry; apply Nat.leb_gt; lia).
      destruct (IH (applyBooster boosterState aaadFeatures)
                   (aBoosterStates ++ [boosterState])) as (r & Hr & Hcases); [lia|].
      exists r. split; [exact Hr|].
      destruct Hcases as [Hu | (added & d' & Heq & Hn & Hp)]; [left; exact Hu|].
      right. exists (boosterState :: added), d'.
      rewrite <- app_assoc in Heq. simpl in Heq.
      split; [exact Heq|]. simpl List.length. split; lia.
  - unfold findBestBoosterState in Hbest.
    destruct (cols0 aaadFeatures); discriminate.
  - unfold findBestBoosterState in Hbest.
    destruct (cols0 aaadFeatures); discriminate.
  - eexists. split; [reflexivity|]. left. reflexivity.
Qed.

(** C8.  The stage a round applies leaves strictly fewer negative examples
    than there were before it, and no more positive examples; the search
    with its own fuel ends, its check of the negative count never fires,
    and over the whole search each stage added accounts for at least 150
    negative examples removed, the positive count never increasing. *)
Theorem cascade_monotone (aaadFeatures : LabelledSets) :
  (forall boosterState,
      findBestBoosterState aaadFeatures = Ret boosterState ->
      (0 <= CBoosterState.getFeatureIdx boosterState)%Z ->
      (List.length (negatives (applyBooster boosterState aaadFeatures))
       < List.length (negatives aaadFeatures))%nat
      /\ (List.length (positives (applyBooster boosterState aaadFeatures))
          <= List.length (positives aaadFeatures))%nat)
  /\ (findBoosterStates aaadFeatures = Undefined
      \/ exists aBoosterStates aaadFeatures',
           findBoosterStates aaadFeatures = Ret (aBoosterStates, aaadFeatures')
           /\ (List.length (negatives aaadFeatures')
               + 150 * List.length aBoosterStates
               <= List.length (negatives aaadFeatures))%nat
           /\ (List.length (positives aaadFeatures')
               <= List.length (positives aaadFeatures))%nat).
Proof.
  split.
  - intros boosterState Hbest Hidx.
    destruct (findBestBoosterState_ok aaadFeatures boosterState Hbest)
      as [Hdef | (_ & H150 & _)].
    { subst boosterState. simpl in Hidx. lia. }
    pose proof (applyBooster_negatives boosterState aaadFeatures) as Hneg.
    split; [lia | apply applyBooster_positives].
  - unfold findBoosterStates.
    destruct (findBoosterStates_loop_fuel (S (List.length (negatives aaadFeatures)))
                aaadFeatures []) as (r & Hr & Hcases); [lia|].
    rewrite Hr.
    destruct Hcases as [Hu | (added & d' & Heq & Hn & Hp)]; [left; exact Hu|].
    right. exists added, d'. simpl in Heq. auto.
Qed.

(** The example collection: the round finds the split at 0.5 on feature
    0, which removes the 150 negative examples at 0; the search stops
    after it, on the one negative example left. *)
Lemma booster_acceptance_bound_witness :
  (150 <= removedNegatives exampleStage exampleCascadeSets)%nat
  /\ (List.length (negatives exampleCascadeSets)
      <= 10 * removedNegatives exampleStage exampleCascadeSets)%nat.
Proof.
  assert (Hbest : findBestBoosterState exampleCascadeSets = Ret exampleStage)
    by (vm_compute; reflexivity).
  assert (Hidx : (0 <= CBoosterState.getFeatureIdx exampleStage)%Z)
    by (simpl; lia).
  exact (proj1 (proj2 (booster_acceptance_bound exampleCascadeSets))
           exampleStage Hbest Hidx).
Defined.

Lemma cascade_monotone_witness :
  (List.length (negatives (applyBooster exampleStage exampleCascadeSets))
   < List.length (negatives exampleCascadeSets))%nat
  /\ (List.length (positives (applyBooster exampleStage exampleCascadeSets))
      <= List.length (positives exampleCascadeSets))%nat.
Proof.
  assert (Hbest : findBestBoosterState exampleCascadeSets = Ret exampleStage)
    by (vm_compute; reflexivity).
  assert (Hidx : (0 <= CBoosterState.getFeatureIdx exampleStage)%Z)
    by (simpl; lia).
  exact (proj1 (cascade_monotone exampleCascadeSets) exampleStage Hbest Hidx).
Defined.

Example findBoosterStates_example :
  findBoosterStates exampleCascadeSets
  = Ret ([exampleStage], mkSets [[2]] (repeat [1] 20)).
Proof. vm_compute. reflexivity. Qed.

(** ** Features at training time and at run time *)

Lemma at_getEntireFeature (float_cast : Q -> Q) (pFeature : CSVMFeature_base.t)
    (nIdx : Z) :
  (0 <= nIdx < CSVMFeature_base.dimension pFeature)%Z ->
  at_ (getEntireFeature float_cast pFeature) nIdx
  = CSVMFeature_base.value float_cast pFeature nIdx.
Proof.
  intro Hidx. unfold at_, getEntireFeature.
  set (g := fun i => CSVMFeature_base.value float_cast pFeature (Z.of_nat i)).
  rewrite (nth_indep _ 0 (g 0%nat)) by (rewrite length_map, length_seq; lia).
  rewrite map_nth, seq_nth by lia. unfold g. simpl. rewrite Z2Nat.id by lia.
  reflexivity.
Qed.

(** The row stored for a training example is normalised and projected to
    the very vector the classifier later builds from the feature itself;
    with an empty subset the training-time projection is fatal. *)
Theorem normalise_training_as_runtime (float_cast : Q -> Q)
    (s : CFeatureSubsetSelecter.t) (pFeature : CSVMFeature_base.t) :
  (forall nIdx, In nIdx (CFeatureSubsetSelecter.anFeatureIdxSubset s) ->
     (0 <= nIdx < CSVMFeature_base.dimension pFeature)%Z) ->
  (CFeatureSubsetSelecter.anFeatureIdxSubset s <> [] ->
   CFeatureSubsetSelecter.selectAndNormaliseMat float_cast s
     (getEntireFeature float_cast pFeature)
   = Ret (CFeatureSubsetSelecter.selectAndNormalise float_cast s pFeature))
  /\ (CFeatureSubsetSelecter.anFeatureIdxSubset s = [] ->
      exists msg,
        CFeatureSubsetSelecter.selectAndNormaliseMat float_cast s
          (getEntireFeature float_cast pFeature) = Fatal msg).
Proof.
  intro Hidx.
  unfold CFeatureSubsetSelecter.selectAndNormaliseMat,
    CFeatureSubsetSelecter.selectAndNormalise.
  split; intro Hsub.
  - destruct (CFeatureSubsetSelecter.anFeatureIdxSubset s) as [|n0 rest] eqn:Hs;
      [congruence|].
    cbn [List.length Nat.eqb CHECK obind map].
    f_equal. f_equal.
    + rewrite at_getEntireFeature by (apply Hidx; left; reflexivity). reflexivity.
    + apply map_ext_in. intros nIdx Hin.
      rewrite at_getEntireFeature by (apply Hidx; right; exact Hin). reflexivity.
  - rewrite Hsub. simpl. eexists; reflexivity.
Qed.

Lemma normalise_training_as_runtime_witness :
  CFeatureSubsetSelecter.selectAndNormaliseMat (fun q => q)
    (CSavedSVMState.getFeatureSubset (exampleState 1))
    (getEntireFeature (fun q => q) exampleFeature)
  = Ret (CFeatureSubsetSelecter.selectAndNormalise (fun q => q)
           (CSavedSVMState.getFeatureSubset (exampleState 1)) exampleFeature).
Proof.
  apply (normalise_training_as_runtime (fun q => q)
           (CSavedSVMState.getFeatureSubset (exampleState 1)) exampleFeature).
  - intros nIdx [<- | [<- | []]]; simpl; lia.
  - discriminate.
Defined.

Lemma keep_training_as_runtime (float_cast : Q -> Q) (state : CBoosterState.t)
    (pFeature : CSVMFeature_base.t) :
  (0 <= CBoosterState.getFeatureIdx state < CSVMFeature_base.dimension pFeature)%Z ->
  CBoostedFilter.keepPotentialCandidateMat state (getEntireFeature float_cast pFeature)
  = CBoostedFilter.keepPotentialCandidate float_cast state pFeature.
Proof.
  intro Hidx.
  unfold CBoostedFilter.keepPotentialCandidateMat,
    CBoostedFilter.keepPotentialCandidate.
  rewrite at_getEntireFeature by exact Hidx. reflexivity.
Qed.

(** The cascade keeps a feature at run time exactly when every one of its
    stages keeps the row stored for that feature at training time. *)
Theorem cascade_training_as_runtime (float_cast : Q -> Q)
    (aBoosterStates : TBoosterStates) (pFeature : CSVMFeature_base.t) :
  (forall state, In state aBoosterStates ->
     (0 <= CBoosterState.getFeatureIdx state
      < CSVMFeature_base.dimension pFeature)%Z) ->
  CBoostedFilters.keepPotentialCandidate float_cast
    (CBoostedFilters.make aBoosterStates) pFeature
  = forallb (fun state =>
               CBoostedFilter.keepPotentialCandidateMat state
                 (getEntireFeature float_cast pFeature))
            aBoosterStates.
Proof.
  induction aBoosterStates as [|state rest IH]; intro Hidx; [reflexivity|].
  simpl. rewrite keep_training_as_runtime by (apply Hidx; left; reflexivity).
  destruct (CBoostedFilter.keepPotentialCandidate float_cast state pFeature); simpl.
  - apply IH. intros st Hst. apply Hidx. right. exact Hst.
  - reflexivity.
Qed.

Lemma cascade_training_as_runtime_witness :
  CBoostedFilters.keepPotentialCandidate (fun q => q)
    (CBoostedFilters.make [exampleStage]) exampleFeature
  = forallb (fun state =>
               CBoostedFilter.keepPotentialCandidateMat state
                 (getEntireFeature (fun q => q) exampleFeature))
            [exampleStage].
Proof.
  apply (cascade_training_as_runtime (fun q => q) [exampleStage] exampleFeature).
  intros state [<- | []]. simpl. lia.
Defined.

(** ** The cascade and the examples it leaves *)

Lemma filter_all {A : Type} (l : list A) : filter (fun _ => true) l = l.
Proof. induction l as [|a l IH]; simpl; congruence. Qed.

Lemma filter_twice {A : Type} (f g : A -> bool) (l : list A) :
  filter g (filter f l) = filter (fun x => f x && g x) l.
Proof.
  induction l as [|a l IH]; simpl; [reflexivity|].
  destruct (f a); simpl; [destruct (g a)|]; congruence.
Qed.

Lemma findBoosterStates_loop_survivors (fuel : nat) :
  forall (aaadFeatures aaadFeatures' : LabelledSets)
         (aBoosterStates aBoosterStates' : TBoosterStates),
    findBoosterStates_loop fuel aaadFeatures aBoosterStates
    = Some (Ret (aBoosterStates', aaadFeatures')) ->
    exists added,
      aBoosterStates' = aBoosterStates ++ added
      /\ negatives aaadFeatures' = filter (keptByAll added) (negatives aaadFeatures)
      /\ positives aaadFeatures' = filter (keptByAll added) (positives aaadFeatures).
Proof.
  induction fuel as [|fuel IH]; intros d d' acc acc' Hrun; [discriminate|].
  rewrite findBoosterStates_loop_S in Hrun.
  destruct (findBestBoosterState d) as [boosterState | | |]; try discriminate.
  destruct (CBoosterState.getFeatureIdx boosterState <? 0)%Z.
  - injection Hrun as Ha Hd. subst acc' d'.
    exists []. rewrite app_nil_r. unfold keptByAll. simpl.
    rewrite !filter_all. auto.
  - destruct (List.length (negatives d)
              <=? List.length (negatives (applyBooster boosterState d)))%nat;
      [discriminate|].
    destruct (IH _ _ _ _ Hrun) as (added & Hacc & Hneg & Hpos).
    exists (boosterState :: added).
    rewrite <- app_assoc in Hacc. split; [exact Hacc|].
    unfold applyBooster in Hneg, Hpos. cbn [negatives positives] in Hneg, Hpos.
    rewrite filter_twice in Hneg, Hpos.
    split; [rewrite Hneg | rewrite Hpos]; apply filter_ext; intro f; reflexivity.
Qed.

(** The examples the cascade search leaves behind are, in their order,
    exactly the examples that every stage of the cascade it returns
    keeps. *)
Theorem cascade_survivors (aaadFeatures aaadFeatures' : LabelledSets)
    (aBoosterStates : TBoosterStates) :
  findBoosterStates aaadFeatures = Ret (aBoosterStates, aaadFeatures') ->
  negatives aaadFeatures' = filter (keptByAll aBoosterStates) (negatives aaadFeatures)
  /\ positives aaadFeatures' = filter (keptByAll aBoosterStates) (positives aaadFeatures).
Proof.
  unfold findBoosterStates.
  destruct (findBoosterStates_loop (S (List.length (negatives aaadFeatures)))
              aaadFeatures []) as [r|] eqn:Hrun; [|discriminate].
  intro Hr. subst r.
  destruct (findBoosterStates_loop_survivors _ _ _ _ _ Hrun)
    as (added & Hacc & Hneg & Hpos).
  simpl in Hacc. subst added. auto.
Qed.

Lemma cascade_survivors_witness :
  negatives (mkSets [[2]] (repeat [1] 20))
  = filter (keptByAll [exampleStage]) (negatives exampleCascadeSets)
  /\ positives (mkSets [[2]] (repeat [1] 20))
     = filter (keptByAll [exampleStage]) (positives exampleCascadeSets).
Proof.
  apply (cascade_survivors exampleCascadeSets (mkSets [[2]] (repeat [1] 20))
           [exampleStage]).
  vm_compute. reflexivity.
Defined.

(** With fewer than 150 negative examples no stage can be accepted: the
    search returns the empty cascade and leaves the examples as they
    are. *)
Theorem cascade_needs_150_negatives (aaadFeatures : LabelledSets) :
  negatives aaadFeatures <> [] ->
  (List.length (negatives aaadFeatures) < 150)%nat ->
  findBoosterStates aaadFeatures = Ret ([], aaadFeatures).
Proof.
  intros Hne Hfew. unfold findBoosterStates.
  rewrite findBoosterStates_loop_S.
  destruct (findBestBoosterState aaadFeatures) as [boosterState | | |] eqn:Hbest.
  - destruct (findBestBoosterState_ok aaadFeatures boosterState Hbest)
      as [Hdef | (_ & H150 & _)].
    + subst boosterState. reflexivity.
    + exfalso. unfold removedNegatives in H150. lia.
  - unfold findBestBoosterState in Hbest.
    destruct (cols0 aaadFeatures); discriminate.
  - unfold findBestBoosterState in Hbest.
    destruct (cols0 aaadFeatures); discriminate.
  - exfalso. unfold findBestBoosterState, cols0 in Hbest.
    destruct (negatives aaadFeatures); [congruence | discriminate].
Qed.

Lemma cascade_needs_150_negatives_witness :
  findBoosterStates exampleSets = Ret ([], exampleSets).
Proof.
  apply (cascade_needs_150_negatives exampleSets).
  - discriminate.
  - simpl. lia.
Defined.

(** The walk either leaves the split it started from, or ends on a split
    where the positive entries counted so far are fewer than 0.0005 times
    the negative ones. *)
Lemma scan_cost (l : list TOneFeatureVal) :
  forall dPos dNeg dBest dRemoved : Q,
    scan l dPos dNeg dBest dRemoved = (dBest, dRemoved)
    \/ exists pre a b post,
         l = pre ++ a :: b :: post
         /\ ~ fst a == fst b
         /\ fst (scan l dPos dNeg dBest dRemoved) = 0.5 * (fst a + fst b)
         /\ dPos + count_Q (positiveVals (pre ++ [a]))
            < 0.0005 * (dNeg + count_Q (negativeVals (pre ++ [a]))).
Proof.
  induction l as [|a rest IH]; intros dPos dNeg dBest dRemoved.
  - left. reflexivity.
  - destruct rest as [|b rest']; [left; reflexivity|].
    rewrite scan_cons2.
    set (dPos' := if snd a then dPos + 1 else dPos).
    set (dNeg' := if snd a then dNeg else dNeg + 1).
    cbv zeta.
    assert (Hneg : dNeg' == dNeg + count_Q (negativeVals [a])
                   /\ dPos' == dPos + count_Q (positiveVals [a])).
    { subst dNeg' dPos'. unfold negativeVals, positiveVals. cbn [filter].
      destruct (snd a); cbn [negb].
      - change (@count_Q TOneFeatureVal []) with 0.
        change (@count_Q TOneFeatureVal [a]) with 1. split; lra.
      - change (@count_Q TOneFeatureVal []) with 0.
        change (@count_Q TOneFeatureVal [a]) with 1. split; lra. }
    destruct Hneg as [Hneg Hpos].
    assert (Hstep : forall pre x,
               count_Q (negativeVals ((a :: pre) ++ [x]))
               == count_Q (negativeVals [a]) + count_Q (negativeVals (pre ++ [x]))
               /\ count_Q (positiveVals ((a :: pre) ++ [x]))
                  == count_Q (positiveVals [a])
                     + count_Q (positiveVals (pre ++ [x]))).
    { intros pre x. unfold negativeVals, positiveVals. cbn [filter app].
      destruct (snd a); cbn [negb].
      - rewrite count_Q_cons.
        change (@count_Q TOneFeatureVal []) with 0.
        change (@count_Q TOneFeatureVal [a]) with 1. split; lra.
      - rewrite count_Q_cons.
        change (@count_Q TOneFeatureVal []) with 0.
        change (@count_Q TOneFeatureVal [a]) with 1. split; lra. }
    destruct (Qltb dPos' (0.0005 * dNeg') && Qneb (fst a) (fst b)) eqn:Hc.
    + apply andb_true_iff in Hc. destruct Hc as [Hcost Hne].
      apply Qneb_true in Hne. apply Qltb_true in Hcost.
      destruct (IH dPos' dNeg' (0.5 * (fst a + fst b)) dNeg')
        as [Heq | (pre & a' & b' & post & Hl & Hab & Hb & Hr)].
      * right. exists [], a, b, rest'. rewrite Heq.
        cbn [fst snd app]. repeat split; auto. lra.
      * right. exists (a :: pre), a', b', post. rewrite Hl.
        rewrite Hl in Hb. repeat split; auto.
        destruct (Hstep pre a') as [Hs1 Hs2]. rewrite Hs1, Hs2. lra.
    + destruct (IH dPos' dNeg' dBest dRemoved)
        as [Heq | (pre & a' & b' & post & Hl & Hab & Hb & Hr)].
      * left. exact Heq.
      * right. exists (a :: pre), a', b', post. rewrite Hl.
        rewrite Hl in Hb. repeat split; auto.
        destruct (Hstep pre a') as [Hs1 Hs2]. rewrite Hs1, Hs2. lra.
Qed.

Lemma rejected_positives_in_dataset (aaadFeatures : LabelledSets)
    (boosterState : CBoosterState.t) :
  List.length (filter (rejectsPositive boosterState)
                 (oneFeatureVals aaadFeatures (CBoosterState.getFeatureIdx boosterState)))
  = removedPositives boosterState aaadFeatures.
Proof.
  unfold oneFeatureVals, removedPositives, applyBooster. cbn [positives].
  rewrite filter_app, length_app, !filter_map_swap, !length_map.
  rewrite (filter_none _ (negatives aaadFeatures)) by reflexivity.
  pose proof (filter_partition_length
                (CBoostedFilter.keepPotentialCandidateMat boosterState)
                (positives aaadFeatures)) as Hpart.
  assert (Hext : filter (fun a => rejectsPositive boosterState
                                    (at_ a (CBoosterState.getFeatureIdx boosterState),
                                     true))
                        (positives aaadFeatures)
                 = filter (fun x => negb (CBoostedFilter.keepPotentialCandidateMat
                                            boosterState x))
                          (positives aaadFeatures)).
  { apply filter_ext. intro f. reflexivity. }
  rewrite Hext. simpl List.length. lia.
Qed.

(** At a split of the sorted values, the entries before it are the
    examples the split removes, class by class. *)
Lemma prefix_counts (aaadFeatures : LabelledSets) (nIdx : Z) (bRejectAbove : bool)
    (pre post : list TOneFeatureVal) (a b : TOneFeatureVal) :
  sortedFeatures aaadFeatures nIdx bRejectAbove = pre ++ a :: b :: post ->
  ~ fst a == fst b ->
  let boosterState := CBoosterState.mk nIdx (0.5 * (fst a + fst b)) bRejectAbove in
  List.length (negativeVals (pre ++ [a])) = removedNegatives boosterState aaadFeatures
  /\ List.length (positiveVals (pre ++ [a]))
     = removedPositives boosterState aaadFeatures.
Proof.
  intros Hl Hab boosterState.
  pose proof (sortedFeatures_sorted aaadFeatures nIdx bRejectAbove) as Hsorted.
  rewrite Hl in Hsorted.
  destruct (split_rejects bRejectAbove nIdx pre post a b Hsorted Hab) as [Hrej Hkeep].
  fold boosterState in Hrej, Hkeep.
  pose proof (sortedFeatures_perm aaadFeatures nIdx bRejectAbove) as Hperm.
  rewrite Hl in Hperm.
  change (pre ++ a :: b :: post) with (pre ++ [a] ++ b :: post) in Hperm.
  rewrite app_assoc in Hperm.
  split.
  - rewrite <- rejected_in_dataset.
    change (CBoosterState.getFeatureIdx boosterState) with nIdx.
    rewrite <- (filter_length_perm _ _ _ Hperm).
    rewrite filter_app, length_app, (filter_none _ (b :: post)).
    + simpl List.length. rewrite Nat.add_0_r. unfold negativeVals.
      f_equal. apply filter_ext_in. intros x Hx.
      unfold rejectsNegative. rewrite (Hrej x Hx). destruct (snd x); reflexivity.
    + intros x Hx. unfold rejectsNegative. rewrite (Hkeep x Hx).
      destruct (snd x); reflexivity.
  - rewrite <- rejected_positives_in_dataset.
    change (CBoosterState.getFeatureIdx boosterState) with nIdx.
    rewrite <- (filter_length_perm _ _ _ Hperm).
    rewrite filter_app, length_app, (filter_none _ (b :: post)).
    + simpl List.length. rewrite Nat.add_0_r. unfold positiveVals.
      f_equal. apply filter_ext_in. intros x Hx.
      unfold rejectsPositive. rewrite (Hrej x Hx). destruct (snd x); reflexivity.
    + intros x Hx. unfold rejectsPositive. rewrite (Hkeep x Hx).
      destruct (snd x); reflexivity.
Qed.

Lemma findBoosterState_cost (aaadFeatures : LabelledSets) (nIdx : Z)
    (bRejectAbove : bool) :
  findBoosterState aaadFeatures nIdx bRejectAbove = (0, CBoosterState.default)
  \/ (2000 * removedPositives (snd (findBoosterState aaadFeatures nIdx bRejectAbove))
                              aaadFeatures
      < removedNegatives (snd (findBoosterState aaadFeatures nIdx bRejectAbove))
                         aaadFeatures)%nat.
Proof.
  unfold findBoosterState.
  destruct (bestSplit aaadFeatures nIdx bRejectAbove) as [dBest dRemoved] eqn:Hsplit.
  destruct (Qltb (dRemoved / size_Q (negatives aaadFeatures)) dMinimumPower
            || Qltb dRemoved 150) eqn:Hc; [left; reflexivity|].
  right. apply orb_false_iff in Hc. destruct Hc as [_ Hrem].
  apply Qltb_false in Hrem.
  unfold bestSplit in Hsplit.
  destruct (scan_cost (sortedFeatures aaadFeatures nIdx bRejectAbove) 0 0 (- HUGE) (-1))
    as [Heq | (pre & a & b & post & Hl & Hab & Hb & Hcost)].
  { rewrite Hsplit in Heq. injection Heq as _ Heq. subst dRemoved.
    exfalso. revert Hrem. apply Qlt_not_le. reflexivity. }
  rewrite Hsplit in Hb. cbn [fst snd] in Hb. subst dBest. cbn [snd].
  destruct (prefix_counts aaadFeatures nIdx bRejectAbove pre post a b Hl Hab)
    as [Hn Hp].
  rewrite <- Hn, <- Hp.
  unfold count_Q in Hcost.
  set (p := List.length (positiveVals (pre ++ [a]))) in *.
  set (n := List.length (negativeVals (pre ++ [a]))) in *.
  unfold Qlt, Qmult, Qplus, inject_Z in Hcost. cbn [Qnum Qden] in Hcost. lia.
Qed.

Lemma findBestBoosterState_from_candidates (aaadFeatures : LabelledSets)
    (P : CBoosterState.t -> Prop) :
  P CBoosterState.default ->
  (forall nIdx bRejectAbove,
     P (snd (findBoosterState aaadFeatures nIdx bRejectAbove))) ->
  forall boosterState,
    findBestBoosterState aaadFeatures = Ret boosterState -> P boosterState.
Proof.
  intros Hdef Hcand boosterState.
  unfold findBestBoosterState.
  destruct (cols0 aaadFeatures) as [nDims|]; [|discriminate].
  intro H. injection H as H. subst boosterState.
  generalize (candidateOrder nDims).
  assert (Hfold : forall cands best,
             P (snd best) ->
             P (snd (fold_left (betterCandidate aaadFeatures) cands best))).
  { induction cands as [|c cands IH]; intros best Hbest; simpl; [exact Hbest|].
    apply IH. unfold betterCandidate.
    destruct (Qgtb _ _); [apply Hcand | exact Hbest]. }
  intro cands. apply Hfold. exact Hdef.
Qed.

(** The stage a round applies removes fewer than one positive example
    for every 2000 negative examples it removes; a stage that removes at
    most 2000 negative examples removes no positive example at all. *)
Theorem stage_cost_bound (aaadFeatures : LabelledSets)
    (boosterState : CBoosterState.t) :
  findBestBoosterState aaadFeatures = Ret boosterState ->
  (0 <= CBoosterState.getFeatureIdx boosterState)%Z ->
  (2000 * removedPositives boosterState aaadFeatures
   < removedNegatives boosterState aaadFeatures)%nat
  /\ ((removedNegatives boosterState aaadFeatures <= 2000)%nat ->
      positives (applyBooster boosterState aaadFeatures) = positives aaadFeatures).
Proof.
  intros Hbest Hidx.
  assert (Hcost : (CBoosterState.getFeatureIdx boosterState < 0)%Z
                  \/ (2000 * removedPositives boosterState aaadFeatures
                      < removedNegatives boosterState aaadFeatures)%nat).
  { apply (findBestBoosterState_from_candidates aaadFeatures
             (fun st => (CBoosterState.getFeatureIdx st < 0)%Z
                        \/ (2000 * removedPositives st aaadFeatures
                            < removedNegatives st aaadFeatures)%nat));
      [left; simpl; lia | | exact Hbest].
    intros nIdx pol.
    destruct (findBoosterState_cost aaadFeatures nIdx pol) as [Hrej | Hc].
    - rewrite Hrej. left. simpl. lia.
    - right. exact Hc. }
  destruct Hcost as [Hneg | Hcost]; [lia|].
  split; [exact Hcost|].
  intro Hfew.
  assert (Hzero : removedPositives boosterState aaadFeatures = 0%nat) by lia.
  unfold removedPositives, applyBooster in *. cbn [positives] in *.
  pose proof (filter_partition_length
                (CBoostedFilter.keepPotentialCandidateMat boosterState)
                (positives aaadFeatures)) as Hpart.
  apply forallb_filter_id. apply filter_length_forallb. lia.
Qed.

Lemma stage_cost_bound_witness :
  (2000 * removedPositives exampleStage exampleCascadeSets
   < removedNegatives exampleStage exampleCascadeSets)%nat
  /\ ((removedNegatives exampleStage exampleCascadeSets <= 2000)%nat ->
      positives (applyBooster exampleStage exampleCascadeSets)
      = positives exampleCascadeSets).
Proof.
  apply (stage_cost_bound exampleCascadeSets exampleStage).
  - vm_compute. reflexivity.
  - simpl. lia.
Defined.

(** ** More on the scoring functions *)

Lemma rate_half_one (w : Q * Q) (labels test_labels : list Q) :
  ~ fst w == 0 -> ~ snd w == 0 -> labels <> [] ->
  exists r,
    fst (computeTotalSuccessRate w labels test_labels) = Num r /\ 0.5 <= r <= 1.
Proof.
  intros Hn Hp Hne.
  pose proof (weightedTotal_pos w labels Hn Hp Hne) as HT.
  pose proof (weightedError_bounds w labels test_labels) as [HE0 HE1].
  pose proof (totalScores_sums w labels test_labels 0 0) as [H1 H2].
  unfold computeTotalSuccessRate.
  destruct (totalScores w labels test_labels 0 0) as [T' Er']. simpl in H1, H2.
  assert (HT' : 0 < T') by lra.
  destruct (Qltb Er' (0.5 * T')) eqn:Hlt; cbn [fst].
  - apply Qltb_true in Hlt. rewrite ddiv_Num by lra.
    eexists. split; [reflexivity|]. split.
    + apply Qle_shift_div_l; [exact HT' | lra].
    + apply Qle_shift_div_r; [exact HT' | lra].
  - apply Qltb_false in Hlt. rewrite ddiv_Num by lra.
    eexists. split; [reflexivity|]. split.
    + apply Qle_shift_div_l; [exact HT' | lra].
    + apply Qle_shift_div_r; [exact HT' | lra].
Qed.

(** The total weighted success rate of a validation set that is not empty
    is a number between one half and 1 ("worst 0.5 to best 1"). *)
Theorem successRate_at_least_half (w : Q * Q) (labels test_labels : list Q) :
  ~ fst w == 0 -> ~ snd w == 0 -> labels <> [] ->
  exists r,
    fst (computeTotalSuccessRate w labels test_labels) = Num r /\ 0.5 <= r <= 1.
Proof.
  intros Hn Hp Hne.
  destruct (rate_half_one w labels test_labels Hn Hp Hne) as (r & Hr & Hb).
  exists r. split; [exact Hr | exact Hb].
Qed.

Lemma successRate_at_least_half_witness :
  exists r,
    fst (computeTotalSuccessRate (-1 / 5, 1) [1; -1] [-1; 1]) = Num r
    /\ 0.5 <= r <= 1.
Proof.
  apply (successRate_at_least_half (-1 / 5, 1) [1; -1] [-1; 1]).
  - intro H. vm_compute in H. discriminate.
  - intro H. vm_compute in H. discriminate.
  - discriminate.
Defined.

Lemma svmClass_proper (x y : Q) : x == y -> svmClass x = svmClass y.
Proof.
  intro Hxy. unfold svmClass.
  destruct (Qgtb x 0) eqn:Hx; destruct (Qgtb y 0) eqn:Hy; try reflexivity.
  - apply Qgtb_true in Hx. apply Qgtb_false in Hy. lra.
  - apply Qgtb_false in Hx. apply Qgtb_true in Hy. lra.
Qed.

Lemma svmClass_flip (t : Q) : ~ t == 0 -> svmClass (-1 * t) = negb (svmClass t).
Proof.
  intro Ht. unfold svmClass.
  destruct (Qgtb (-1 * t) 0) eqn:Hx; destruct (Qgtb t 0) eqn:Hy; try reflexivity.
  - apply Qgtb_true in Hx, Hy. lra.
  - apply Qgtb_false in Hx, Hy. exfalso. apply Ht. lra.
Qed.

Lemma weightedError_unflipped (w : Q * Q) (labels : list Q) :
  forall test_labels,
    weightedError w labels (map (Qmult 1) test_labels)
    = weightedError w labels test_labels.
Proof.
  induction labels as [|label labels IH]; intros [|t tests]; simpl;
    try reflexivity.
  rewrite IH. rewrite (svmClass_proper (1 * t) t) by lra. reflexivity.
Qed.

Lemma weightedError_flipped (w : Q * Q) (sign : Q) (labels : list Q) :
  sign == -1 ->
  forall test_labels,
    List.length test_labels = List.length labels ->
    Forall (fun t => ~ t == 0) test_labels ->
    weightedError w labels (map (Qmult sign) test_labels)
    == weightedTotal w labels - weightedError w labels test_labels.
Proof.
  intro Hsign.
  induction labels as [|label labels IH]; intros [|t tests] Hlen Hnz; simpl in *;
    try discriminate; [lra|].
  inversion Hnz as [|? ? Ht Hnz']; subst.
  rewrite (IH tests) by (congruence || assumption).
  rewrite (svmClass_proper (sign * t) (-1 * t)) by (rewrite Hsign; reflexivity).
  rewrite svmClass_flip by exact Ht.
  destruct (svmClass label), (svmClass t); simpl; lra.
Qed.

(** When no raw score is exactly 0, the sign correction chosen makes the
    weighted error of the corrected scores at most half of the total
    weight, and the rate returned is the weighted success fraction of the
    corrected scores. *)
Theorem sign_correction_self_corrects (w : Q * Q) (labels test_labels : list Q) :
  List.length test_labels = List.length labels ->
  Forall (fun t => ~ t == 0) test_labels ->
  let r := computeTotalSuccessRate w labels test_labels in
  let T := weightedTotal w labels in
  let corrected := weightedError w labels (map (Qmult (snd r)) test_labels) in
  corrected <= 0.5 * T /\ deq (fst r) (ddiv (T - corrected) T).
Proof.
  intros Hlen Hnz r T corrected. subst r corrected.
  pose proof (totalScores_sums w labels test_labels 0 0) as [H1 H2].
  unfold computeTotalSuccessRate.
  destruct (totalScores w labels test_labels 0 0) as [T' Er']. simpl in H1, H2.
  fold T in H1.
  destruct (Qltb Er' (0.5 * T')) eqn:Hlt; cbn [fst snd].
  - apply Qltb_true in Hlt. rewrite weightedError_unflipped.
    split; [lra | apply ddiv_proper; lra].
  - apply Qltb_false in Hlt.
    pose proof (weightedError_flipped w (-1) labels (Qeq_refl _) test_labels
                  Hlen Hnz) as Hflip.
    fold T in Hflip.
    split; [lra | apply ddiv_proper; lra].
Qed.

Lemma sign_correction_self_corrects_witness :
  weightedError (-1, 1) [1; -1]
    (map (Qmult (snd (computeTotalSuccessRate (-1, 1) [1; -1] [-1; 1]))) [-1; 1])
  <= 0.5 * weightedTotal (-1, 1) [1; -1].
Proof.
  assert (Hnz : Forall (fun t => ~ t == 0) [-1; 1]).
  { repeat constructor; intro H; vm_compute in H; discriminate. }
  exact (proj1 (sign_correction_self_corrects (-1, 1) [1; -1] [-1; 1] eq_refl Hnz)).
Defined.

Section PrecisionProperties.
Variable float_cast : Q -> Q.
Variable dSignCorrection : Q.

Lemma precisionCounts_bounds (labels : list Q) :
  forall (test_labels : list Q) (a l t : Z),
    (0 <= a <= l)%Z ->
    let r := precisionCounts float_cast dSignCorrection labels test_labels a l t in
    (0 <= fst (fst r) <= snd (fst r))%Z /\ (l <= snd (fst r))%Z.
Proof.
  induction labels as [|label labels IH]; intros tests a l t Hal; simpl.
  - lia.
  - set (pred := svmClass (float_cast dSignCorrection * hd 0 tests)).
    set (gt := svmClass (float_cast label)).
    destruct (IH (tl tests)
                 (if pred && gt then a + 1 else a)%Z
                 (if pred then l + 1 else l)%Z
                 (if gt then t + 1 else t)%Z) as [H1 H2].
    { destruct pred, gt; simpl; lia. }
    split; [exact H1|]. destruct pred; lia.
Qed.

Lemma precisionCounts_none (labels : list Q) :
  forall (test_labels : list Q) (a l t : Z),
    List.length test_labels = List.length labels ->
    Forall (fun s => svmClass (float_cast dSignCorrection * s) = false) test_labels ->
    fst (precisionCounts float_cast dSignCorrection labels test_labels a l t)
    = (a, l).
Proof.
  induction labels as [|label labels IH]; intros [|s tests] a l t Hlen Hall;
    simpl in *; try discriminate; [reflexivity|].
  inversion Hall as [|? ? Hs Hall']; subst. rewrite Hs. simpl.
  apply IH; [congruence | exact Hall'].
Qed.

Lemma precisionCounts_some (labels : list Q) :
  forall (test_labels : list Q) (a l t : Z),
    List.length test_labels = List.length labels ->
    Exists (fun s => svmClass (float_cast dSignCorrection * s) = true) test_labels ->
    (0 <= a <= l)%Z ->
    (l < snd (fst (precisionCounts float_cast dSignCorrection labels test_labels
                                   a l t)))%Z.
Proof.
  induction labels as [|label labels IH]; intros [|s tests] a l t Hlen Hex Hal;
    simpl in *; try discriminate.
  - inversion Hex.
  - set (gt := svmClass (float_cast label)).
    inversion Hex as [? ? Hs | ? ? Hex']; subst.
    + rewrite Hs.
      pose proof (precisionCounts_bounds labels tests
                    (if true && gt then a + 1 else a)%Z (l + 1)%Z
                    (if gt then t + 1 else t)%Z) as Hb.
      destruct Hb as [_ Hb]; [destruct gt; simpl; lia | lia].
    + set (pred := svmClass (float_cast dSignCorrection * s)).
      assert (Hrec : (0 <= (if pred && gt then a + 1 else a)
                      <= (if pred then l + 1 else l))%Z)
        by (destruct pred, gt; simpl; lia).
      assert (Hlen' : List.length tests = List.length labels) by congruence.
      pose proof (IH tests _ _ (if gt then t + 1 else t)%Z Hlen' Hex' Hrec) as Hlt.
      destruct pred; lia.
Qed.

(** The precision is 0/0 exactly on the validation sets in which no
    example is predicted positive; when some example is, it is a number
    of [0,1]. *)
Theorem precision_defined (labels test_labels : list Q) :
  List.length test_labels = List.length labels ->
  (Forall (fun s => svmClass (float_cast dSignCorrection * s) = false) test_labels ->
   computePrecision float_cast labels test_labels dSignCorrection = NaN)
  /\ (Exists (fun s => svmClass (float_cast dSignCorrection * s) = true) test_labels ->
      in01 (computePrecision float_cast labels test_labels dSignCorrection)).
Proof.
  intro Hlen. unfold computePrecision. split.
  - intro Hall.
    pose proof (precisionCounts_none labels test_labels 0 0 0 Hlen Hall) as Hc.
    destruct (precisionCounts float_cast dSignCorrection labels test_labels 0 0 0)
      as [[a l] t].
    simpl in Hc. injection Hc as Ha Hl. subst a l. reflexivity.
  - intro Hex.
    assert (H00 : (0 <= 0 <= 0)%Z) by lia.
    pose proof (precisionCounts_some labels test_labels 0 0 0 Hlen Hex H00) as Hl.
    pose proof (precisionCounts_bounds labels test_labels 0 0 0 H00) as [Hb _].
    destruct (precisionCounts float_cast dSignCorrection labels test_labels 0 0 0)
      as [[a l] t].
    simpl in Hl, Hb. apply ddiv_in01.
    + split.
      * change 0 with (inject_Z 0). rewrite <- Zle_Qle. lia.
      * rewrite <- Zle_Qle. lia.
    + change 0 with (inject_Z 0). rewrite <- Zlt_Qlt. lia.
Qed.
End PrecisionProperties.

Lemma precision_defined_witness :
  computePrecision (fun q => q) [1; -1] [-1; -1] 1 = NaN
  /\ in01 (computePrecision (fun q => q) [1; -1] [1; 1] 1).
Proof.
  split.
  - apply (proj1 (precision_defined (fun q => q) 1 [1; -1] [-1; -1] eq_refl)).
    repeat constructor.
  - apply (proj2 (precision_defined (fun q => q) 1 [1; -1] [1; 1] eq_refl)).
    left. reflexivity.
Defined.

(** ** The folds *)

Lemma slice_cons {A : Type} (a : nat) (x : A) (l : list A) (s e : nat) :
  slice a (x :: l) s e
  = if inRange s e (a, x) then x :: slice (S a) l s e else slice (S a) l s e.
Proof.
  unfold slice. simpl. destruct (inRange s e (a, x)); reflexivity.
Qed.

Lemma slice_past {A : Type} (l : list A) :
  forall a s e, (e <= a)%nat -> slice a l s e = [].
Proof.
  induction l as [|x l IH]; intros a s e Ha; [reflexivity|].
  rewrite slice_cons. unfold inRange. cbn [fst].
  replace (a <? e)%nat with false by (symmetry; apply Nat.ltb_ge; lia).
  rewrite andb_false_r. apply IH. lia.
Qed.

Lemma slice_app {A : Type} (l : list A) :
  forall a s m e, (s <= m <= e)%nat ->
    slice a l s e = slice a l s m ++ slice a l m e.
Proof.
  induction l as [|x l IH]; intros a s m e Hsme; [reflexivity|].
  rewrite !slice_cons. unfold inRange. cbn [fst].
  destruct (Nat.leb_spec s a), (Nat.ltb_spec a e), (Nat.ltb_spec a m),
    (Nat.leb_spec m a); cbn [andb]; try lia;
    rewrite (IH (S a) s m e Hsme); try reflexivity.
  rewrite (slice_past l (S a) s m) by lia. reflexivity.
Qed.

Lemma slice_whole {A : Type} (l : list A) :
  forall a s e, (s <= a)%nat -> (a + List.length l <= e)%nat -> slice a l s e = l.
Proof.
  induction l as [|x l IH]; intros a s e Hs He; [reflexivity|].
  rewrite slice_cons. unfold inRange. cbn [fst]. cbn [List.length] in He.
  replace (s <=? a)%nat with true by (symmetry; apply Nat.leb_le; lia).
  replace (a <? e)%nat with true by (symmetry; apply Nat.ltb_lt; lia).
  cbn [andb]. f_equal. apply IH; lia.
Qed.

Lemma divide_validation (l : list (list Q)) (i K : nat) :
  divide l i K true
  = slice 0 l (blockStart (List.length l) K i) (blockStart (List.length l) K (S i)).
Proof.
  unfold divide, slice, blockStart. rewrite Nat.add_1_r.
  f_equal. apply filter_ext. intros [n f]. unfold inRange.
  destruct (_ && _); reflexivity.
Qed.

Lemma blockStart_mono (n K i : nat) : (blockStart n K i <= blockStart n K (S i))%nat.
Proof.
  unfold blockStart. apply Nat.Div0.div_le_mono. nia.
Qed.

Lemma blocks_concat (l : list (list Q)) (K k : nat) :
  List.concat (map (fun i => slice 0 l (blockStart (List.length l) K i)
                              (blockStart (List.length l) K (S i)))
              (seq 0 k))
  = slice 0 l 0 (blockStart (List.length l) K k).
Proof.
  induction k as [|k IH].
  - simpl. symmetry. apply slice_past. unfold blockStart.
    rewrite Nat.mul_0_r. destruct K; simpl; lia.
  - rewrite seq_S, map_app, concat_app, IH. simpl. rewrite app_nil_r.
    symmetry. apply slice_app. split; [lia | apply blockStart_mono].
Qed.

Lemma partition_perm {A : Type} (f : A -> bool) (l : list A) :
  Permutation (filter f l ++ filter (fun x => negb (f x)) l) l.
Proof.
  induction l as [|a l IH]; simpl; [reflexivity|].
  destruct (f a); simpl.
  - apply perm_skip. exact IH.
  - rewrite <- Permutation_middle. apply perm_skip. exact IH.
Qed.

Lemma map_snd_combine_seq {A : Type} (l : list A) :
  forall a, map snd (combine (seq a (List.length l)) l) = l.
Proof.
  induction l as [|x l IH]; intro a; simpl; [reflexivity|]. f_equal. apply IH.
Qed.

(** For every number of folds other than 0, the validation blocks of the
    folds, in the order of the folds, make up the examples of a label:
    every example is validated in exactly one fold; and in each fold the
    validation block and the training part together are the examples. *)
Theorem folds_partition (aadFeatures : TLabelledFeatures) (nFolds : nat) :
  nFolds <> 0%nat ->
  List.concat (map (fun nSubset => divide aadFeatures nSubset nFolds true) (seq 0 nFolds))
  = aadFeatures
  /\ forall nSubset,
       Permutation (divide aadFeatures nSubset nFolds true
                    ++ divide aadFeatures nSubset nFolds false)
                   aadFeatures.
Proof.
  intro HK. split.
  - rewrite (map_ext _ (fun i => slice 0 aadFeatures
                                   (blockStart (List.length aadFeatures) nFolds i)
                                   (blockStart (List.length aadFeatures) nFolds (S i))))
      by (intro i; apply divide_validation).
    rewrite blocks_concat. apply slice_whole; [lia|].
    unfold blockStart. rewrite Nat.div_mul by exact HK. lia.
  - intro i. unfold divide.
    rewrite <- map_app.
    set (inBlock := fun nf : nat * list Q =>
                      (List.length aadFeatures * i / nFolds <=? fst nf)%nat
                      && (fst nf <? List.length aadFeatures * (i + 1) / nFolds)%nat).
    rewrite (filter_ext (fun nf => eqb (inBlock nf) true) inBlock)
      by (intro nf; destruct (inBlock nf); reflexivity).
    rewrite (filter_ext (fun nf => eqb (inBlock nf) false)
                        (fun nf => negb (inBlock nf)))
      by (intro nf; destruct (inBlock nf); reflexivity).
    rewrite partition_perm. rewrite map_snd_combine_seq. reflexivity.
Qed.

Lemma folds_partition_witness :
  List.concat (map (fun nSubset => divide (negatives exampleSets) nSubset K true)
              (seq 0 K))
  = negatives exampleSets.
Proof.
  assert (HK : K <> 0%nat) by discriminate.
  exact (proj1 (folds_partition (negatives exampleSets) K HK)).
Defined.

Lemma mapM_ret {A B : Type} (f : A -> outcome B) (g : A -> B) (l : list A) :
  (forall a, In a l -> f a = Ret (g a)) -> mapM f l = Ret (map g l).
Proof.
  induction l as [|a l IH]; intro H; simpl; [reflexivity|].
  rewrite (H a) by (left; reflexivity). simpl.
  rewrite IH by (intros x Hx; apply H; right; exact Hx). reflexivity.
Qed.

Lemma mapM_inv {A B : Type} (f : A -> outcome B) (l : list A) :
  forall r, mapM f l = Ret r -> Forall2 (fun a b => f a = Ret b) l r.
Proof.
  induction l as [|a l IH]; intros r H; simpl in H.
  - injection H as H. subst r. constructor.
  - destruct (f a) as [b | | |] eqn:Hfa; try discriminate. simpl in H.
    destruct (mapM f l) as [bs | | |]; try discriminate. simpl in H.
    injection H as H. subst r. constructor; [exact Hfa | apply IH; reflexivity].
Qed.

Lemma mapM_fatal_head {A B : Type} (f : A -> outcome B) (a : A) (l : list A)
    (msg : string) :
  f a = Fatal msg -> mapM f (a :: l) = Fatal msg.
Proof. intro H. simpl. rewrite H. reflexivity. Qed.

Section SubsetProperties.
Variable float_cast : Q -> Q.
Variable s : CFeatureSubsetSelecter.t.

Lemma selectAndNormaliseMat_ret (feature : list Q) :
  CFeatureSubsetSelecter.anFeatureIdxSubset s <> [] ->
  CFeatureSubsetSelecter.selectAndNormaliseMat float_cast s feature
  = Ret (normalisedRow float_cast s feature).
Proof.
  intro Hne. unfold CFeatureSubsetSelecter.selectAndNormaliseMat, normalisedRow.
  destruct (CFeatureSubsetSelecter.anFeatureIdxSubset s); [congruence | reflexivity].
Qed.

Lemma selectFeatureSubset1_ret (aadFeatures : TLabelledFeatures) :
  CFeatureSubsetSelecter.anFeatureIdxSubset s <> [] ->
  aadFeatures <> [] ->
  selectFeatureSubset1 float_cast s aadFeatures
  = Ret (map (normalisedRow float_cast s) aadFeatures).
Proof.
  intros Hs Hne. unfold selectFeatureSubset1.
  rewrite (mapM_ret _ (normalisedRow float_cast s))
    by (intros a _; apply selectAndNormaliseMat_ret; exact Hs).
  cbn [obind]. rewrite length_map, Nat.eqb_refl.
  destruct aadFeatures; [congruence | reflexivity].
Qed.

Lemma selectFeatureSubset1_inv (aadFeatures aadFeatureSubset : TLabelledFeatures) :
  selectFeatureSubset1 float_cast s aadFeatures = Ret aadFeatureSubset ->
  CFeatureSubsetSelecter.anFeatureIdxSubset s <> [] /\ aadFeatures <> [].
Proof.
  unfold selectFeatureSubset1. intro H.
  destruct aadFeatures as [|feature rest].
  - simpl in H. discriminate.
  - split; [|discriminate]. intro Hs.
    assert (Hf : exists msg,
               CFeatureSubsetSelecter.selectAndNormaliseMat float_cast s feature
               = Fatal msg).
    { unfold CFeatureSubsetSelecter.selectAndNormaliseMat. rewrite Hs.
      eexists; reflexivity. }
    destruct Hf as (msg & Hf). rewrite (mapM_fatal_head _ _ _ _ Hf) in H.
    discriminate.
Qed.

(** The projection of the collections on the subset returns exactly when
    the subset and both collections are not empty, and then with the
    normalised row of every example, in order; it is fatal otherwise. *)
Theorem selectFeatureSubset_spec (aaadFeatures : LabelledSets) :
  (CFeatureSubsetSelecter.anFeatureIdxSubset s <> [] ->
   negatives aaadFeatures <> [] -> positives aaadFeatures <> [] ->
   selectFeatureSubset float_cast s aaadFeatures
   = Ret (mkSets (map (normalisedRow float_cast s) (negatives aaadFeatures))
                 (map (normalisedRow float_cast s) (positives aaadFeatures))))
  /\ (forall aaadFeatureSubset,
        selectFeatureSubset float_cast s aaadFeatures = Ret aaadFeatureSubset ->
        CFeatureSubsetSelecter.anFeatureIdxSubset s <> []
        /\ negatives aaadFeatures <> [] /\ positives aaadFeatures <> [])
  /\ (CFeatureSubsetSelecter.anFeatureIdxSubset s = []
      \/ negatives aaadFeatures = [] \/ positives aaadFeatures = [] ->
      exists msg, selectFeatureSubset float_cast s aaadFeatures = Fatal msg).
Proof.
  assert (Hinv : forall aaadFeatureSubset,
             selectFeatureSubset float_cast s aaadFeatures = Ret aaadFeatureSubset ->
             CFeatureSubsetSelecter.anFeatureIdxSubset s <> []
             /\ negatives aaadFeatures <> [] /\ positives aaadFeatures <> []).
  { intros d' H. unfold selectFeatureSubset in H.
    destruct (selectFeatureSubset1 float_cast s (negatives aaadFeatures))
      as [neg | | |] eqn:Hn; try discriminate.
    destruct (selectFeatureSubset1 float_cast s (positives aaadFeatures))
      as [pos | | |] eqn:Hp; try discriminate.
    apply selectFeatureSubset1_inv in Hn, Hp. tauto. }
  split; [|split; [exact Hinv|]].
  - intros Hs Hn Hp. unfold selectFeatureSubset.
    rewrite !selectFeatureSubset1_ret by assumption. reflexivity.
  - intro Hbad.
    assert (Htotal : forall l,
               (exists r, selectFeatureSubset1 float_cast s l = Ret r)
               \/ exists msg, selectFeatureSubset1 float_cast s l = Fatal msg).
    { intro l.
      destruct (CFeatureSubsetSelecter.anFeatureIdxSubset s) as [|n0 sub] eqn:Hs.
      - destruct l as [|f l'].
        + right. eexists. reflexivity.
        + right. unfold selectFeatureSubset1.
          erewrite mapM_fatal_head; [eexists; reflexivity|].
          unfold CFeatureSubsetSelecter.selectAndNormaliseMat. rewrite Hs.
          reflexivity.
      - destruct l as [|f l'].
        + right. eexists. reflexivity.
        + left. eexists. apply selectFeatureSubset1_ret; [congruence | discriminate]. }
    unfold selectFeatureSubset.
    destruct (Htotal (negatives aaadFeatures)) as [(neg & Hn) | (msg & Hn)].
    + destruct (Htotal (positives aaadFeatures)) as [(pos & Hp) | (msg & Hp)].
      * exfalso.
        apply selectFeatureSubset1_inv in Hn, Hp. tauto.
      * rewrite Hn, Hp. eexists; reflexivity.
    + rewrite Hn. eexists; reflexivity.
Qed.
End SubsetProperties.

(** ** The cross-validation score *)

Lemma divide_In (l : TLabelledFeatures) (i nFolds : nat) (b : bool) (x : list Q) :
  In x (divide l i nFolds b) -> In x l.
Proof.
  unfold divide. intro H. apply in_map_iff in H.
  destruct H as ([n f] & Heq & Hin). simpl in Heq. subst f.
  apply filter_In in Hin. destruct Hin as [Hin _].
  eapply in_combine_r. exact Hin.
Qed.

Lemma length_eqb_false {A : Type} (l : list A) :
  Nat.eqb (List.length l) 0 = false -> l <> [].
Proof. intros H Hnil. subst l. discriminate. Qed.

Lemma CHECK_inv {A : Type} (cond : bool) (msg : string) (k : unit -> outcome A)
    (a : A) :
  obind (CHECK cond msg) k = Ret a -> cond = false /\ k tt = Ret a.
Proof. destruct cond; simpl; [discriminate | auto]. Qed.

(** A fold that [makeFold] returns has validation labels, and the rows it
    trains on are rows of the collections, the first of them at the head
    of the training part. *)
Lemma makeFold_inv (aaadFeatures : LabelledSets) (i nFolds : nat)
    (featureSet : CTrainValidateFeatureSet) :
  makeFold aaadFeatures i nFolds = Ret featureSet ->
  aLabels_eValidate featureSet <> []
  /\ aFeatures_eTrain featureSet <> []
  /\ forall x, In x (aFeatures_eTrain featureSet) ->
       In x (negatives aaadFeatures) \/ In x (positives aaadFeatures).
Proof.
  unfold makeFold. intro H.
  apply CHECK_inv in H. destruct H as [_ H].
  apply CHECK_inv in H. destruct H as [_ H].
  apply CHECK_inv in H. destruct H as [Htrain H].
  apply CHECK_inv in H. destruct H as [Hval H].
  apply CHECK_inv in H. destruct H as [_ H].
  injection H as H. subst featureSet.
  cbn [aLabels_eValidate aFeatures_eTrain].
  split; [|split].
  - exact (length_eqb_false _ Hval).
  - exact (length_eqb_false _ Htrain).
  - intros x Hx. apply in_app_or in Hx.
    destruct Hx as [Hx | Hx]; [left | right]; eapply divide_In; exact Hx.
Qed.

Section ScoreProperties.
Variable E : Engine.
Variable float_cast : Q -> Q.
Variable LM_minimise : list Q -> list Q -> Q -> CSigmoidParams.t -> CSigmoidParams.t.
Variable pClassWeights : Q * Q.
Hypothesis weight_neg : ~ fst pClassWeights == 0.
Hypothesis weight_pos : ~ snd pClassWeights == 0.

Lemma validate_rate_range (featureSet : CTrainValidateFeatureSet)
    (svm : svm_model E) (tr : trace) :
  aLabels_eValidate featureSet <> [] ->
  exists r tr',
    validate E float_cast LM_minimise pClassWeights featureSet svm tr
    = (Ret (Num r), tr')
    /\ 0 <= r <= 1.
Proof.
  intro Hne.
  assert (Hpc : exists v tr',
             propCorrect E float_cast LM_minimise pClassWeights svm
               (aFeatures_eValidate featureSet) (aLabels_eValidate featureSet)
               0 (Num 0) 0 None tr = (Ret v, tr')
             /\ exists r, v_rate v = Num r /\ 0 <= r <= 1).
  { unfold propCorrect.
    destruct (predictRows_outcome E float_cast svm (aLabels_eValidate featureSet)
                (aFeatures_eValidate featureSet) 0 tr)
      as [(tl_ & tr' & H) | (tr' & H)].
    - erewrite bind_Ret
        by (apply try_catch_Ret; erewrite bind_Ret by exact H; reflexivity).
      cbv beta iota.
      destruct (rate_half_one pClassWeights (aLabels_eValidate featureSet) tl_
                  weight_neg weight_pos Hne) as (r & Hr & Hb).
      destruct (computeTotalSuccessRate pClassWeights
                  (aLabels_eValidate featureSet) tl_) as [rate sign].
      cbn [fst] in Hr. subst rate.
      eexists. eexists. split; [reflexivity|]. exists r. split; [reflexivity | lra].
    - erewrite bind_Ret
        by (erewrite try_catch_CvException
              by (erewrite bind_CvException by exact H; reflexivity);
            reflexivity).
      eexists. eexists. split; [reflexivity|]. exists 0. split; [reflexivity | lra]. }
  destruct Hpc as (v & tr' & Hpc & r & Hr & Hb).
  unfold validate. erewrite bind_Ret by exact Hpc.
  exists r, tr'. rewrite Hr. split; [reflexivity | exact Hb].
Qed.

Lemma trainAndValidate_rate_range (featureSet : CTrainValidateFeatureSet)
    (params : SVMParams) (tr : trace) :
  svm_train E (aFeatures_eTrain featureSet) (aLabels_eTrain featureSet) params
  <> None ->
  aLabels_eValidate featureSet <> [] ->
  exists r n tr',
    trainAndValidate E float_cast LM_minimise pClassWeights featureSet params tr
    = (Ret (Num r, n), tr')
    /\ 0 <= r <= 1.
Proof.
  intros Htrain Hne. unfold trainAndValidate.
  destruct (svm_train E (aFeatures_eTrain featureSet) (aLabels_eTrain featureSet)
              params) as [svm|] eqn:Ht; [|congruence].
  erewrite bind_Ret by (apply train_Some; exact Ht).
  destruct (validate_rate_range featureSet svm
              (tr ++ [EvTrain (aFeatures_eTrain featureSet)
                              (aLabels_eTrain featureSet) params]) Hne)
    as (r & tr' & H & Hb).
  erewrite bind_Ret by exact H.
  exists r. eexists. eexists. split; [reflexivity | exact Hb].
Qed.

Lemma foldScores_range (aFeatureDivisions : list CTrainValidateFeatureSet)
    (params : SVMParams) :
  (forall featureSet, In featureSet aFeatureDivisions ->
     svm_train E (aFeatures_eTrain featureSet) (aLabels_eTrain featureSet) params
     <> None
     /\ aLabels_eValidate featureSet <> []) ->
  forall (acc dAvNumSVs : Q) (tr : trace),
  exists sum svs tr',
    foldScores E float_cast LM_minimise pClassWeights aFeatureDivisions params
               (Num acc) dAvNumSVs tr = (Ret (Num sum, svs), tr')
    /\ acc <= sum <= acc + size_Q aFeatureDivisions.
Proof.
  induction aFeatureDivisions as [|featureSet rest IH]; intros Hall acc svs tr.
  - exists acc, svs, tr. split; [reflexivity|].
    change (@size_Q CTrainValidateFeatureSet []) with 0. lra.
  - destruct (Hall featureSet (or_introl eq_refl)) as [Htrain Hne].
    destruct (trainAndValidate_rate_range featureSet params tr Htrain Hne)
      as (r & n & tr1 & H & Hb).
    cbn [foldScores]. erewrite bind_Ret by exact H. cbn [fst snd dadd].
    destruct (IH (fun fs Hin => Hall fs (or_intror Hin)) (acc + r)
                 (svs + inject_Z n) tr1) as (sum & svs' & tr' & Hrec & Hsum).
    exists sum, svs', tr'. split; [exact Hrec|].
    assert (Hsize : size_Q (featureSet :: rest) == size_Q rest + 1).
    { unfold size_Q. simpl List.length. rewrite Nat2Z.inj_succ, <- Z.add_1_r.
      rewrite inject_Z_plus. reflexivity. }
    rewrite Hsize. lra.
Qed.

Lemma kfold_range (aFeatureDivisions : list CTrainValidateFeatureSet)
    (first : CTrainValidateFeatureSet) (p : CSVMParameterisation) (tr : trace) :
  hd_error aFeatureDivisions = Some first ->
  (forall featureSet, In featureSet aFeatureDivisions ->
     svm_train E (aFeatures_eTrain featureSet) (aLabels_eTrain featureSet)
               (svmParams p) <> None
     /\ aLabels_eValidate featureSet <> []) ->
  exists p' tr' score,
    kfoldTrainAndValidate E float_cast LM_minimise pClassWeights
                          aFeatureDivisions p tr = (Ret p', tr')
    /\ svmParams p' = svmParams p
    /\ dCVScore p' = Num score
    /\ - (0.003 * inject_Z (Z.of_nat (dims first))) <= score
       <= 1 - 0.003 * inject_Z (Z.of_nat (dims first)).
Proof.
  intros Hfirst Hall. unfold kfoldTrainAndValidate.
  destruct (foldScores_range aFeatureDivisions (svmParams p) Hall 0 0 tr)
    as (sum & svs & tr' & H & Hsum).
  erewrite bind_Ret by exact H.
  destruct aFeatureDivisions as [|f rest]; [discriminate|].
  injection Hfirst as Hfirst. subst f.
  eexists. exists tr'. eexists. split; [reflexivity|].
  cbn [setCVScore svmParams dCVScore fst dmap].
  split; [reflexivity|]. split; [reflexivity|].
  set (n := size_Q (first :: rest)) in *.
  assert (Hn : 1 <= n).
  { unfold n, size_Q. simpl List.length. change 1 with (inject_Z 1).
    rewrite <- Zle_Qle. lia. }
  assert (H0 : 0 <= sum / n) by (apply Qle_shift_div_l; lra).
  assert (H1 : sum / n <= 1) by (apply Qle_shift_div_r; lra).
  split; lra.
Qed.
End ScoreProperties.

Lemma selectFeatureSubset_ret_inv (float_cast : Q -> Q) (s : CFeatureSubsetSelecter.t)
    (aaadFeatures aaadFeatureSubset : LabelledSets) :
  selectFeatureSubset float_cast s aaadFeatures = Ret aaadFeatureSubset ->
  aaadFeatureSubset
  = mkSets (map (normalisedRow float_cast s) (negatives aaadFeatures))
           (map (normalisedRow float_cast s) (positives aaadFeatures)).
Proof.
  intro H. unfold selectFeatureSubset in H.
  destruct (selectFeatureSubset1 float_cast s (negatives aaadFeatures))
    as [neg | | |] eqn:Hn; try discriminate.
  destruct (selectFeatureSubset1 float_cast s (positives aaadFeatures))
    as [pos | | |] eqn:Hp; try discriminate.
  pose proof (selectFeatureSubset1_inv _ _ _ _ Hn) as [Hs Hne1].
  pose proof (selectFeatureSubset1_inv _ _ _ _ Hp) as [_ Hne2].
  rewrite selectFeatureSubset1_ret in Hn, Hp by assumption.
  cbn [obind] in H. congruence.
Qed.

Lemma Forall2_In_r {A B : Type} (R : A -> B -> Prop) (l : list A) (r : list B) :
  Forall2 R l r -> forall b, In b r -> exists a, In a l /\ R a b.
Proof.
  induction 1 as [|a b l r Hab _ IH]; intros x Hx; [destruct Hx|].
  destruct Hx as [Hx | Hx].
  - subst x. exists a. split; [left; reflexivity | exact Hab].
  - destruct (IH x Hx) as (a' & Hin & HR). exists a'. split; [right|]; assumption.
Qed.

(** The cross-validation score of a hyperparameter point, over the folds
    built from the collections, is a number (never 0/0) between minus the
    penalty and 1 minus the penalty, the penalty being 0.003 times the
    number of selected features, whenever the engine trains every fold
    and whatever it does during the predictions. *)
Theorem kfold_score_range (E : Engine) (float_cast : Q -> Q)
    (LM_minimise : list Q -> list Q -> Q -> CSigmoidParams.t -> CSigmoidParams.t)
    (pClassWeights : Q * Q) (aaadFeatures : LabelledSets)
    (normalisingCoeffs : CFeatureSubsetSelecter.t)
    (aFeatureDivisions : list CTrainValidateFeatureSet)
    (p : CSVMParameterisation) (tr : trace) :
  ~ fst pClassWeights == 0 ->
  ~ snd pClassWeights == 0 ->
  makeKfold float_cast aaadFeatures normalisingCoeffs K = Ret aFeatureDivisions ->
  (forall featureSet, In featureSet aFeatureDivisions ->
     svm_train E (aFeatures_eTrain featureSet) (aLabels_eTrain featureSet)
               (svmParams p) <> None) ->
  let dPenalty :=
    0.003 * size_Q (CFeatureSubsetSelecter.anFeatureIdxSubset normalisingCoeffs) in
  exists p' tr' score,
    kfoldTrainAndValidate E float_cast LM_minimise pClassWeights
                          aFeatureDivisions p tr = (Ret p', tr')
    /\ svmParams p' = svmParams p
    /\ dCVScore p' = Num score
    /\ - dPenalty <= score <= 1 - dPenalty.
Proof.
  intros Hwn Hwp Hmake Htrain dPenalty.
  unfold makeKfold in Hmake.
  destruct (selectFeatureSubset float_cast normalisingCoeffs aaadFeatures)
    as [d' | | |] eqn:Hsel; try discriminate.
  cbn [obind] in Hmake.
  pose proof (selectFeatureSubset_ret_inv _ _ _ _ Hsel) as Hd'.
  pose proof (mapM_inv _ _ _ Hmake) as Hfolds.
  assert (Hvalid : forall featureSet, In featureSet aFeatureDivisions ->
             aLabels_eValidate featureSet <> []
             /\ aFeatures_eTrain featureSet <> []
             /\ forall x, In x (aFeatures_eTrain featureSet) ->
                  In x (negatives d') \/ In x (positives d')).
  { intros fs Hfs.
    destruct (Forall2_In_r _ _ _ Hfolds fs Hfs) as (i & _ & Hi).
    exact (makeFold_inv d' i K fs Hi). }
  destruct aFeatureDivisions as [|first rest].
  { apply Forall2_length in Hfolds. discriminate. }
  destruct (kfold_range E float_cast LM_minimise pClassWeights Hwn Hwp
              (first :: rest) first p tr eq_refl) as (p' & tr' & score & H).
  { intros fs Hfs. split; [apply Htrain; exact Hfs | apply (Hvalid fs Hfs)]. }
  exists p', tr', score.
  destruct H as (H1 & H2 & H3 & H4). repeat split; try assumption.
  all: assert (Hdims : dims first
                       = List.length (CFeatureSubsetSelecter.anFeatureIdxSubset
                                        normalisingCoeffs)).
  all: try (unfold dims;
            destruct (Hvalid first (or_introl eq_refl)) as (_ & Hne & Hrows);
            destruct (aFeatures_eTrain first) as [|row rows]; [congruence|];
            cbn [hd];
            destruct (Hrows row (or_introl eq_refl)) as [Hin | Hin];
            rewrite Hd' in Hin; cbn [negatives positives] in Hin;
            apply in_map_iff in Hin; destruct Hin as (f & Hf & _); subst row;
            unfold normalisedRow; apply length_map).
  all: unfold dPenalty, size_Q; rewrite <- Hdims; lra.
Qed.

Lemma kfold_score_range_witness :
  exists p' tr' score,
    kfoldTrainAndValidate exampleEngine (fun q => q) exampleLM (-1, 1)
      exampleFolds (mkParameterisation exampleParams (Num (-1)) (-1)) []
    = (Ret p', tr')
    /\ svmParams p' = exampleParams
    /\ dCVScore p' = Num score
    /\ - (0.003 * 1) <= score <= 1 - 0.003 * 1.
Proof.
  apply (kfold_score_range exampleEngine (fun q => q) exampleLM (-1, 1)
           exampleSets exampleSelecter exampleFolds
           (mkParameterisation exampleParams (Num (-1)) (-1)) []).
  - intro H. vm_compute in H. discriminate.
  - intro H. vm_compute in H. discriminate.
  - vm_compute. reflexivity.
  - intros featureSet _. discriminate.
Defined.

(** ** The saved state *)

Lemma int_of_double_inject (z : Z) : int_of_double (inject_Z z) = z.
Proof.
  unfold int_of_double.
  destruct (Qltb (inject_Z z) 0); [apply Qceiling_Z | apply Qfloor_Z].
Qed.

Lemma bool_of_double_of_bool (b : bool) : bool_of_double (double_of_bool b) = b.
Proof. destruct b; reflexivity. Qed.

Lemma load_booster_rows (boosterStates : TBoosterStates) :
  map (fun row : Q * Q * Q =>
         let '(r0, r1, r2) := row in
         CBoosterState.mk (int_of_double r0) r1 (bool_of_double r2))
      (map (fun s =>
              (inject_Z (CBoosterState.getFeatureIdx s),
               CBoosterState.getThreshold s,
               double_of_bool (CBoosterState.rejectAbove s)))
           boosterStates)
  = boosterStates.
Proof.
  induction boosterStates as [|s l IH]; [reflexivity|].
  cbn [map]. rewrite IH. f_equal.
  destruct s as [i t r].
  unfold CBoosterState.getFeatureIdx, CBoosterState.getThreshold,
    CBoosterState.rejectAbove.
  cbn [CBoosterState.nFeatureIdx CBoosterState.dThreshold CBoosterState.bRejectAbove].
  rewrite int_of_double_inject, bool_of_double_of_bool. reflexivity.
Qed.

(** Loading, with no precision requested, the state file that the saving
    constructor wrote gives back the cascade, the feature subset with its
    normalising coefficients, the sign correction and the sigmoid
    parameters that were saved, with the classification boundary 0. *)
Theorem save_load_round_trip (E : Engine) (boosterStates : TBoosterStates)
    (featureSubset : CFeatureSubsetSelecter.t) (svm : svm_model E)
    (dSignCorrection : Q) (PRLookup : TPRLookup)
    (sigmoidParams : CSigmoidParams.t) (trainingDetails : string) :
  CSavedSVMState.load
    (fst (CSavedSVMState.save E boosterStates featureSubset svm dSignCorrection
                              PRLookup sigmoidParams trainingDetails))
    NO_PRECISION
  = Ret (CSavedSVMState.mk boosterStates featureSubset dSignCorrection 0
                           sigmoidParams).
Proof.
  unfold CSavedSVMState.load, CSavedSVMState.save.
  cbn [fst f_boosterStates f_featureSubset f_normalisingMean f_normalisingScale
       f_signCorrection f_boundaries f_precision f_sigmoid].
  rewrite load_booster_rows.
  replace (Qneb NO_PRECISION NO_PRECISION) with false by reflexivity.
  cbn [obind]. destruct featureSubset. reflexivity.
Qed.

(** A state saved with an empty precision lookup (as the boosting-only
    state is) cannot be loaded at a requested precision: the line fit
    fails and the load is fatal. *)
Theorem load_saved_empty_lookup_fatal (E : Engine) (boosterStates : TBoosterStates)
    (featureSubset : CFeatureSubsetSelecter.t) (svm : svm_model E)
    (dSignCorrection : Q) (sigmoidParams : CSigmoidParams.t)
    (trainingDetails : string) (dPrecision : Q) :
  ~ dPrecision == NO_PRECISION ->
  CSavedSVMState.load
    (fst (CSavedSVMState.save E boosterStates featureSubset svm dSignCorrection
                              ([], []) sigmoidParams trainingDetails))
    dPrecision
  = Fatal "Line fit failed (probably a horizontal line)".
Proof.
  intro Hp. apply Qneb_true in Hp.
  unfold CSavedSVMState.load, CSavedSVMState.save.
  cbn [fst snd f_boosterStates f_featureSubset f_normalisingMean
       f_normalisingScale f_signCorrection f_boundaries f_precision f_sigmoid].
  rewrite Hp. reflexivity.
Qed.

Lemma load_saved_empty_lookup_fatal_witness :
  CSavedSVMState.load
    (fst (CSavedSVMState.save exampleEngine [] CFeatureSubsetSelecter.default
            (svm_default exampleEngine) 0 ([], []) CSigmoidParams.default
            EmptyString))
    0.9
  = Fatal "Line fit failed (probably a horizontal line)".
Proof.
  apply (load_saved_empty_lookup_fatal exampleEngine [] CFeatureSubsetSelecter.default
           (svm_default exampleEngine) 0 CSigmoidParams.default EmptyString 0.9).
  intro H. vm_compute in H. discriminate.
Defined.

(** ** The class weights *)




(** There the negative weight is the [float] nearest to -2/3, and the
    balance is not exact. *)
Example computeNegWeight_float :
  fst (computeNegWeight round_float 1 20 30) == - (11184811 / 16777216)
  /\ ~ fst (computeNegWeight round_float 1 20 30) * 30 == - (1 * 20).
Proof. split; [vm_compute; reflexivity | intro H; vm_compute in H; discriminate]. Qed.

(** ** The best parameterisation of a subset *)

Lemma dgt_true (x y : double) :
  dgt x y = true -> exists a b, x = Num a /\ y = Num b /\ b < a.
Proof.
  destruct x as [a|], y as [b|]; cbn [dgt]; try discriminate.
  intro H. apply Qgtb_true in H. exists a, b. auto.
Qed.

Lemma dgt_false_Num (a b : Q) : dgt (Num a) (Num b) = false -> a <= b.
Proof. cbn [dgt]. apply Qgtb_false. Qed.

Lemma bestForThisSubset_spec (aParameterisations : list CSVMParameterisation) :
  (forall p, In p aParameterisations -> dCVScore p <> NaN) ->
  forall best0 s0,
    dCVScore best0 = Num s0 ->
    exists sb,
      dCVScore (bestForThisSubset aParameterisations best0) = Num sb
      /\ s0 <= sb
      /\ (bestForThisSubset aParameterisations best0 = best0
          \/ In (bestForThisSubset aParameterisations best0) aParameterisations)
      /\ forall p, In p aParameterisations ->
           exists sp, dCVScore p = Num sp /\ sp <= sb.
Proof.
  unfold bestForThisSubset.
  induction aParameterisations as [|q l IH]; intros Hnum best0 s0 H0.
  - exists s0. cbn [fold_left]. repeat split; try assumption; try lra.
    + left; reflexivity.
    + intros p [].
  - cbn [fold_left].
    assert (Hq : exists sq, dCVScore q = Num sq).
    { specialize (Hnum q (or_introl eq_refl)).
      destruct (dCVScore q) as [sq|]; [exists sq; reflexivity | congruence]. }
    destruct Hq as (sq & Hq).
    assert (Hl : forall p, In p l -> dCVScore p <> NaN).
    { intros p Hp. apply Hnum. right; exact Hp. }
    destruct (dgt (dCVScore q) (dCVScore best0)) eqn:Hgt.
    + apply dgt_true in Hgt. destruct Hgt as (a & b & Ha & Hb & Hlt).
      assert (a = sq) by congruence. assert (b = s0) by congruence. subst a b.
      destruct (IH Hl q sq Hq) as (sb & Hsb & Hle & Hin & Hall).
      exists sb. split; [exact Hsb|]. split; [lra|]. split.
      * right. destruct Hin as [Heq | Hin]; [left; symmetry; exact Heq | right; exact Hin].
      * intros p [Hp | Hp]; [subst p; exists sq; split; [exact Hq | exact Hle]
                            | apply Hall; exact Hp].
    + rewrite Hq, H0 in Hgt. apply dgt_false_Num in Hgt.
      destruct (IH Hl best0 s0 H0) as (sb & Hsb & Hle & Hin & Hall).
      exists sb. split; [exact Hsb|]. split; [exact Hle|]. split.
      * destruct Hin as [Heq | Hin]; [left; exact Heq | right; right; exact Hin].
      * intros p [Hp | Hp]; [subst p; exists sq; split; [exact Hq | lra]
                            | apply Hall; exact Hp].
Qed.

(** When every score is a number, the parameterisation that
    [trainHyperparameters] returns as the best for the subset is the
    incoming best or one of the scored parameterisations, and its score
    is at least the incoming score and at least the score of every
    scored parameterisation. *)
Theorem bestForThisSubset_is_max (aParameterisations : list CSVMParameterisation)
    (best0 : CSVMParameterisation) (s0 : Q) :
  (forall p, In p aParameterisations -> dCVScore p <> NaN) ->
  dCVScore best0 = Num s0 ->
  exists sb,
    dCVScore (bestForThisSubset aParameterisations best0) = Num sb
    /\ s0 <= sb
    /\ (bestForThisSubset aParameterisations best0 = best0
        \/ In (bestForThisSubset aParameterisations best0) aParameterisations)
    /\ forall p, In p aParameterisations ->
         exists sp, dCVScore p = Num sp /\ sp <= sb.
Proof.
  intros Hnum H0. exact (bestForThisSubset_spec aParameterisations Hnum best0 s0 H0).
Qed.

Lemma bestForThisSubset_is_max_witness :
  exists sb,
    dCVScore (bestForThisSubset
                [mkParameterisation exampleParams (Num 0.5) 3;
                 mkParameterisation exampleParams (Num 0.75) 4;
                 mkParameterisation exampleParams (Num 0.75) 5]
                (mkParameterisation exampleParams (Num (-1)) (-1))) = Num sb
    /\ -1 <= sb
    /\ (bestForThisSubset
          [mkParameterisation exampleParams (Num 0.5) 3;
           mkParameterisation exampleParams (Num 0.75) 4;
           mkParameterisation exampleParams (Num 0.75) 5]
          (mkParameterisation exampleParams (Num (-1)) (-1))
        = mkParameterisation exampleParams (Num (-1)) (-1)
        \/ In (bestForThisSubset
                 [mkParameterisation exampleParams (Num 0.5) 3;
                  mkParameterisation exampleParams (Num 0.75) 4;
                  mkParameterisation exampleParams (Num 0.75) 5]
                 (mkParameterisation exampleParams (Num (-1)) (-1)))
              [mkParameterisation exampleParams (Num 0.5) 3;
               mkParameterisation exampleParams (Num 0.75) 4;
               mkParameterisation exampleParams (Num 0.75) 5])
    /\ forall p,
         In p [mkParameterisation exampleParams (Num 0.5) 3;
               mkParameterisation exampleParams (Num 0.75) 4;
               mkParameterisation exampleParams (Num 0.75) 5] ->
         exists sp, dCVScore p = Num sp /\ sp <= sb.
Proof.
  apply (bestForThisSubset_is_max
           [mkParameterisation exampleParams (Num 0.5) 3;
            mkParameterisation exampleParams (Num 0.75) 4;
            mkParameterisation exampleParams (Num 0.75) 5]
           (mkParameterisation exampleParams (Num (-1)) (-1)) (-1)).
  - intros p [Hp | [Hp | [Hp | []]]]; subst p; discriminate.
  - reflexivity.
Defined.

(** ** The hyperparameters kept between subsets *)

Lemma map_assign_keys (m : list (Q * CSVMParameterisation)) (key : Q)
    (value : CSVMParameterisation) (kv : Q * CSVMParameterisation) :
  In kv (map_assign m key value) ->
  kv = (key, value)
  \/ In kv m
  \/ exists value', In (fst kv, value') m /\ fst kv == key /\ snd kv = value.
Proof.
  induction m as [|[key' value'] m' IH]; cbn [map_assign]; intro H.
  - destruct H as [H | []]. left. symmetry. exact H.
  - destruct (Qgtb key key') eqn:H1.
    + destruct H as [H | H]; [left; symmetry; exact H | right; left; exact H].
    + destruct (Qgtb key' key) eqn:H2.
      * destruct H as [H | H].
        { right. left. left. exact H. }
        destruct (IH H) as [Hk | [Hk | (v & Hin & Heq & Hv)]].
        { left. exact Hk. }
        { right. left. right. exact Hk. }
        { right. right. exists v. split; [right; exact Hin | split; assumption]. }
      * apply Qgtb_false in H1, H2.
        destruct H as [H | H].
        { right. right. exists value'. subst kv. cbn [fst snd].
          split; [left; reflexivity | split; [lra | reflexivity]]. }
        { right. left. right. exact H. }
Qed.

Lemma map_assign_old (m : list (Q * CSVMParameterisation)) (key : Q)
    (value : CSVMParameterisation) (kv : Q * CSVMParameterisation) :
  In kv m -> exists kv', In kv' (map_assign m key value) /\ fst kv' = fst kv.
Proof.
  induction m as [|[key' value'] m' IH]; intro H; [destruct H|].
  cbn [map_assign].
  destruct (Qgtb key key') eqn:H1.
  - exists kv. split; [right; exact H | reflexivity].
  - destruct (Qgtb key' key) eqn:H2.
    + destruct H as [H | H].
      * exists kv. split; [left; exact H | reflexivity].
      * destruct (IH H) as (kv' & Hin & Hk). exists kv'. split; [right|]; assumption.
    + destruct H as [H | H].
      * exists (key', value). subst kv. split; [left; reflexivity | reflexivity].
      * exists kv. split; [right; exact H | reflexivity].
Qed.

Lemma map_assign_new (m : list (Q * CSVMParameterisation)) (key : Q)
    (value : CSVMParameterisation) :
  exists kv', In kv' (map_assign m key value) /\ fst kv' == key /\ snd kv' = value.
Proof.
  induction m as [|[key' value'] m' IH]; cbn [map_assign].
  - exists (key, value). cbn [fst snd]. split; [left; reflexivity | split; reflexivity].
  - destruct (Qgtb key key') eqn:H1.
    + exists (key, value). cbn [fst snd].
      split; [left; reflexivity | split; reflexivity].
    + destruct (Qgtb key' key) eqn:H2.
      * destruct IH as (kv' & Hin & Hk). exists kv'. split; [right|]; assumption.
      * apply Qgtb_false in H1, H2. exists (key', value). cbn [fst snd].
        split; [left; reflexivity | split; [lra | reflexivity]].
Qed.

Lemma map_assign_sorted (m : list (Q * CSVMParameterisation)) (key : Q)
    (value : CSVMParameterisation) :
  StronglySorted (fun a b : Q * CSVMParameterisation => fst b < fst a) m ->
  StronglySorted (fun a b : Q * CSVMParameterisation => fst b < fst a)
                 (map_assign m key value).
Proof.
  induction m as [|[key' value'] m' IH]; intro H; cbn [map_assign].
  - constructor; constructor.
  - pose proof (StronglySorted_inv H) as [Hs Hall].
    rewrite Forall_forall in Hall. cbn [fst] in Hall.
    destruct (Qgtb key key') eqn:H1.
    + apply Qgtb_true in H1. constructor; [exact H|].
      apply Forall_forall. intros x [Hx | Hx]; cbn [fst].
      * subst x. exact H1.
      * specialize (Hall x Hx). lra.
    + destruct (Qgtb key' key) eqn:H2.
      * apply Qgtb_true in H2. constructor; [apply IH; exact Hs|].
        apply Forall_forall. intros x Hx. cbn [fst].
        destruct (map_assign_keys _ _ _ _ Hx) as [Hk | [Hk | (v & Hin & Heq & _)]].
        { subst x. exact H2. }
        { apply Hall. exact Hk. }
        { apply (Hall _ Hin). }
      * constructor; [exact Hs|].
        apply Forall_forall. intros x Hx. cbn [fst]. apply Hall. exact Hx.
Qed.

Lemma sortParams_inv (all : list CSVMParameterisation) :
  forall (rest : list CSVMParameterisation)
         (m m' : list (Q * CSVMParameterisation)),
    sortParams rest m = Ret m' ->
    (forall p, In p rest -> In p all) ->
    StronglySorted (fun a b : Q * CSVMParameterisation => fst b < fst a) m ->
    (forall kv, In kv m ->
       In (snd kv) all /\ exists s, dCVScore (snd kv) = Num s /\ s == fst kv) ->
    StronglySorted (fun a b : Q * CSVMParameterisation => fst b < fst a) m'
    /\ (forall kv, In kv m' ->
          In (snd kv) all /\ exists s, dCVScore (snd kv) = Num s /\ s == fst kv)
    /\ (forall kv, In kv m -> exists kv', In kv' m' /\ fst kv' = fst kv)
    /\ (forall p, In p rest ->
          exists sp kv', dCVScore p = Num sp /\ In kv' m' /\ fst kv' == sp).
Proof.
  induction rest as [|p rest IH]; intros m m' Hsort Hsub Hs Hv.
  - cbn [sortParams] in Hsort. inversion Hsort; subst m'.
    repeat split; try assumption; try (apply Hv; assumption).
    + intros kv Hkv. exists kv. split; [exact Hkv | reflexivity].
    + intros q [].
  - cbn [sortParams] in Hsort.
    destruct (dCVScore p) as [score|] eqn:Hp; [|discriminate].
    destruct (IH (map_assign m score p) m' Hsort) as (Hs' & Hv' & Hold & Hnew).
    + intros q Hq. apply Hsub. right. exact Hq.
    + apply map_assign_sorted. exact Hs.
    + intros kv Hkv.
      destruct (map_assign_keys _ _ _ _ Hkv) as [Hk | [Hk | (v & Hin & Heq & Hval)]].
      * subst kv. cbn [fst snd]. split; [apply Hsub; left; reflexivity|].
        exists score. split; [exact Hp | reflexivity].
      * apply Hv. exact Hk.
      * rewrite Hval. split; [apply Hsub; left; reflexivity|].
        exists score. split; [exact Hp | lra].
    + repeat split; try assumption; try (apply Hv'; assumption).
      * intros kv Hkv.
        destruct (map_assign_old m score p kv Hkv) as (kv1 & Hin1 & Hk1).
        destruct (Hold kv1 Hin1) as (kv2 & Hin2 & Hk2).
        exists kv2. split; [exact Hin2 | congruence].
      * intros q [Hq | Hq].
        { subst q.
          destruct (map_assign_new m score p) as (kv1 & Hin1 & Hk1 & _).
          destruct (Hold kv1 Hin1) as (kv2 & Hin2 & Hk2).
          exists score, kv2. split; [exact Hp|]. split; [exact Hin2|].
          rewrite Hk2. exact Hk1. }
        { apply Hnew. exact Hq. }
Qed.

Lemma firstn_In {A : Type} (n : nat) (l : list A) (x : A) :
  In x (firstn n l) -> In x l.
Proof.
  revert l. induction n as [|n IH]; intros l H; [destruct H|].
  destruct l as [|a l]; [destruct H|].
  destruct H as [H | H]; [left; exact H | right; apply IH; exact H].
Qed.

Lemma StronglySorted_firstn {A : Type} (R : A -> A -> Prop) (n : nat) (l : list A) :
  StronglySorted R l -> StronglySorted R (firstn n l).
Proof.
  revert l. induction n as [|n IH]; intros l H; [constructor|].
  destruct l as [|a l]; [constructor|].
  pose proof (StronglySorted_inv H) as [Hs Hall].
  cbn [firstn]. constructor; [apply IH; exact Hs|].
  rewrite Forall_forall in *. intros x Hx. apply Hall.
  apply (firstn_In n l x Hx).
Qed.

Lemma sorted_values (m : list (Q * CSVMParameterisation)) :
  StronglySorted (fun a b : Q * CSVMParameterisation => fst b < fst a) m ->
  (forall kv, In kv m -> exists s, dCVScore (snd kv) = Num s /\ s == fst kv) ->
  scoresDescend (map snd m).
Proof.
  unfold scoresDescend.
  induction m as [|kv m IH]; intros Hs Hv; cbn [map]; [constructor|].
  pose proof (StronglySorted_inv Hs) as [Hs' Hall].
  constructor.
  - apply IH; [exact Hs'|]. intros x Hx. apply Hv. right. exact Hx.
  - rewrite Forall_forall in *. intros v Hin.
    apply in_map_iff in Hin. destruct Hin as (x & Hx & Hin). subst v.
    destruct (Hv kv (or_introl eq_refl)) as (sa & Ha & Hea).
    destruct (Hv x (or_intror Hin)) as (sb & Hb & Heb).
    specialize (Hall x Hin). exists sa, sb. repeat split; try assumption. lra.
Qed.

(** [filterHyperparameters] keeps at most K parameterisations, all taken
    from the ones it is given.  Given at most K it keeps them as they
    are.  Given more (all with a score that is a number) the ones kept
    have strictly decreasing scores, so of those with equal scores only
    one stays, and the first kept has the greatest score of all. *)
Theorem filterHyperparameters_spec
    (aParameterisations kept : list CSVMParameterisation) :
  filterHyperparameters aParameterisations = Ret kept ->
  (List.length kept <= K)%nat
  /\ (forall p, In p kept -> In p aParameterisations)
  /\ ((List.length aParameterisations <= K)%nat -> kept = aParameterisations)
  /\ ((K < List.length aParameterisations)%nat ->
      scoresDescend kept
      /\ exists best sb,
           hd_error kept = Some best
           /\ dCVScore best = Num sb
           /\ forall p, In p aParameterisations ->
                exists sp, dCVScore p = Num sp /\ sp <= sb).
Proof.
  unfold filterHyperparameters. intro H.
  destruct (List.length aParameterisations <=? K)%nat eqn:Hlen.
  - apply Nat.leb_le in Hlen. inversion H; subst kept.
    split; [exact Hlen|]. split; [intros p Hp; exact Hp|].
    split; [reflexivity|]. intro Hgt. exfalso. lia.
  - apply Nat.leb_gt in Hlen.
    destruct (sortParams aParameterisations []) as [m | | |] eqn:Hsort;
      try discriminate.
    cbn [obind] in H.
    assert (Hk : kept = firstn K (map snd m)) by congruence.
    subst kept. clear H.
    destruct (sortParams_inv aParameterisations aParameterisations [] m Hsort)
      as (Hs & Hv & _ & Hcov).
    { intros p Hp. exact Hp. }
    { constructor. }
    { intros kv []. }
    split; [apply firstn_le_length|].
    split.
    { intros p Hp. apply firstn_In in Hp. apply in_map_iff in Hp.
      destruct Hp as (kv & Hkv & Hin). subst p. apply (Hv kv Hin). }
    split; [intro Hle; exfalso; lia|].
    intros _. split.
    { apply StronglySorted_firstn. apply sorted_values; [exact Hs|].
      intros kv Hkv. apply (Hv kv Hkv). }
    destruct m as [|kv0 m].
    { destruct aParameterisations as [|p0 l]; [cbn in Hlen; unfold K in Hlen; lia|].
      destruct (Hcov p0 (or_introl eq_refl)) as (_ & kv' & _ & [] & _). }
    destruct (Hv kv0 (or_introl eq_refl)) as (_ & s0 & Hs0 & He0).
    exists (snd kv0), s0. split; [reflexivity|]. split; [exact Hs0|].
    intros p Hp. destruct (Hcov p Hp) as (sp & kv' & Hsp & Hin & Hk).
    exists sp. split; [exact Hsp|].
    destruct Hin as [Hin | Hin]; [subst kv'; lra|].
    pose proof (StronglySorted_inv Hs) as [_ Hall].
    rewrite Forall_forall in Hall. specialize (Hall kv' Hin). lra.
Qed.

Lemma filterHyperparameters_spec_witness :
  exists kept,
    filterHyperparameters exampleScored = Ret kept
    /\ (List.length kept <= K)%nat
    /\ (forall p, In p kept -> In p exampleScored)
    /\ ((List.length exampleScored <= K)%nat -> kept = exampleScored)
    /\ ((K < List.length exampleScored)%nat ->
        scoresDescend kept
        /\ exists best sb,
             hd_error kept = Some best
             /\ dCVScore best = Num sb
             /\ forall p, In p exampleScored ->
                  exists sp, dCVScore p = Num sp /\ sp <= sb).
Proof.
  eexists. split; [vm_compute; reflexivity|].
  apply (filterHyperparameters_spec exampleScored).
  vm_compute. reflexivity.
Defined.

(** ** The candidate feature subsets *)

Lemma vector_lt_eq (a b : TFeatureIdxSubset) :
  vector_lt a b = false -> vector_lt b a = false -> a = b.
Proof.
  revert b. induction a as [|x a IH]; intros [|y b] H1 H2; cbn [vector_lt] in *;
    try reflexivity; try discriminate.
  destruct (x <? y)%Z eqn:Hxy; [discriminate|].
  destruct (y <? x)%Z eqn:Hyx; [discriminate|].
  apply Z.ltb_ge in Hxy, Hyx. assert (x = y) by lia. subst y.
  f_equal. apply IH; assumption.
Qed.

Lemma set_insert_In (s : list TFeatureIdxSubset) (x c : TFeatureIdxSubset) :
  In c (set_insert s x) <-> c = x \/ In c s.
Proof.
  induction s as [|y s IH]; cbn [set_insert].
  - split; [intros [H | []]; left; symmetry; exact H
           | intros [H | []]; left; symmetry; exact H].
  - destruct (vector_lt x y) eqn:H1.
    + split; [intros [H | H]; [left; symmetry; exact H | right; exact H]
             | intros [H | H]; [left; symmetry; exact H | right; exact H]].
    + destruct (vector_lt y x) eqn:H2.
      * cbn [In]. rewrite IH. tauto.
      * pose proof (vector_lt_eq x y H1 H2) as Heq. subst y.
        split; [intro H; right; exact H|].
        intros [H | H]; [left; symmetry; exact H | exact H].
Qed.

Lemma fold_insert_In {A : Type} (keep : A -> bool) (f : A -> TFeatureIdxSubset)
    (l : list A) (s : list TFeatureIdxSubset) (c : TFeatureIdxSubset) :
  In c (fold_left (fun acc a => if keep a then set_insert acc (f a) else acc) l s)
  <-> In c s \/ exists a, In a l /\ keep a = true /\ c = f a.
Proof.
  revert s. induction l as [|a l IH]; intro s; cbn [fold_left].
  - split; [intro H; left; exact H | intros [H | (a & [] & _)]; exact H].
  - rewrite IH. destruct (keep a) eqn:Hk.
    + rewrite set_insert_In. split.
      * intros [[H | H] | (b & Hb & Hkb & Hc)].
        { right. exists a. split; [left; reflexivity | split; assumption]. }
        { left. exact H. }
        { right. exists b. split; [right; exact Hb | split; assumption]. }
      * intros [H | (b & [Hb | Hb] & Hkb & Hc)].
        { left. right. exact H. }
        { subst b. left. left. exact Hc. }
        { right. exists b. split; [exact Hb | split; assumption]. }
    + split.
      * intros [H | (b & Hb & Hkb & Hc)]; [left; exact H|].
        right. exists b. split; [right; exact Hb | split; assumption].
      * intros [H | (b & [Hb | Hb] & Hkb & Hc)]; [left; exact H | congruence |].
        right. exists b. split; [exact Hb | split; assumption].
Qed.

Lemma fold_left_pointwise {A B : Type} (f g : A -> B -> A) :
  (forall a b, f a b = g a b) ->
  forall l a, fold_left f l a = fold_left g l a.
Proof.
  intros H l. induction l as [|b l IH]; intro a; [reflexivity|].
  cbn [fold_left]. rewrite H. apply IH.
Qed.

Lemma filter_remove_shorter (nRemove : Z) (l : TFeatureIdxSubset) :
  In nRemove l ->
  (List.length (filter (fun nKeep => negb (nKeep =? nRemove)%Z) l)
   < List.length l)%nat.
Proof.
  induction l as [|x l IH]; intro H; [destruct H|].
  cbn [filter]. destruct (x =? nRemove)%Z eqn:Hx; cbn [negb List.length].
  - pose proof (filter_length_le (fun nKeep => negb (nKeep =? nRemove)%Z) l). lia.
  - destruct H as [H | H]; [subst x; rewrite Z.eqb_refl in Hx; discriminate|].
    specialize (IH H). lia.
Qed.

(** Backward selection: the candidate subsets made from the best subset
    of a size are exactly the best subset with one of its features
    removed; each is shorter than the best subset and holds only features
    of it. *)
Theorem makeNewSubsets_backwards_spec
    (bestFeatureSubsetThisSize c : TFeatureIdxSubset) :
  (In c (makeNewSubsets_backwards bestFeatureSubsetThisSize)
   <-> exists nRemove,
         In nRemove bestFeatureSubsetThisSize
         /\ c = filter (fun nKeep => negb (nKeep =? nRemove)%Z)
                       bestFeatureSubsetThisSize)
  /\ (In c (makeNewSubsets_backwards bestFeatureSubsetThisSize) ->
      (List.length c < List.length bestFeatureSubsetThisSize)%nat
      /\ forall n, In n c -> In n bestFeatureSubsetThisSize).
Proof.
  assert (Hiff : In c (makeNewSubsets_backwards bestFeatureSubsetThisSize)
                 <-> exists nRemove,
                       In nRemove bestFeatureSubsetThisSize
                       /\ c = filter (fun nKeep => negb (nKeep =? nRemove)%Z)
                                     bestFeatureSubsetThisSize).
  { unfold makeNewSubsets_backwards.
    rewrite (fold_insert_In (fun _ => true)
               (fun nRemove => filter (fun nKeep => negb (nKeep =? nRemove)%Z)
                                      bestFeatureSubsetThisSize)
               bestFeatureSubsetThisSize [] c).
    split.
    - intros [[] | (a & Ha & _ & Hc)]. exists a. split; assumption.
    - intros (a & Ha & Hc). right. exists a. repeat split; assumption. }
  split; [exact Hiff|].
  intro H. apply Hiff in H. destruct H as (nRemove & Hin & Hc). subst c.
  split; [apply filter_remove_shorter; exact Hin|].
  intros n Hn. apply filter_In in Hn. apply Hn.
Qed.

(** Forward selection: with a first negative example of [nDims]
    coefficients, the candidate subsets made from the best subset of a
    size are exactly the best subset followed by one feature index below
    [nDims] that it does not hold. *)
Theorem makeNewSubsets_forwards_spec (aaadFeatures : LabelledSets)
    (bestFeatureSubsetThisSize : TFeatureIdxSubset) (nDims : nat) :
  cols0 aaadFeatures = Some nDims ->
  exists candidateSubsetsToTry,
    makeNewSubsets_forwards aaadFeatures bestFeatureSubsetThisSize
    = Ret candidateSubsetsToTry
    /\ forall c,
         In c candidateSubsetsToTry
         <-> exists i, (0 <= i < Z.of_nat nDims)%Z
                       /\ ~ In i bestFeatureSubsetThisSize
                       /\ c = bestFeatureSubsetThisSize ++ [i].
Proof.
  intro Hcols. unfold makeNewSubsets_forwards. rewrite Hcols.
  eexists. split; [reflexivity|]. intro c.
  rewrite (fold_left_pointwise
             (fun candidateSubsetsToTry i =>
                if existsb (Z.eqb i) bestFeatureSubsetThisSize
                then candidateSubsetsToTry
                else set_insert candidateSubsetsToTry
                                (bestFeatureSubsetThisSize ++ [i]))
             (fun acc i =>
                if negb (existsb (Z.eqb i) bestFeatureSubsetThisSize)
                then set_insert acc (bestFeatureSubsetThisSize ++ [i])
                else acc)).
  2:{ intros acc i. destruct (existsb (Z.eqb i) bestFeatureSubsetThisSize);
        reflexivity. }
  rewrite (fold_insert_In
             (fun i => negb (existsb (Z.eqb i) bestFeatureSubsetThisSize))
             (fun i => bestFeatureSubsetThisSize ++ [i])).
  split.
  - intros [[] | (i & Hi & Hk & Hc)]. exists i.
    apply in_map_iff in Hi. destruct Hi as (n & Hn & Hin). apply in_seq in Hin.
    split; [lia|]. split; [|exact Hc].
    intro Hbest. apply negb_true_iff in Hk.
    assert (existsb (Z.eqb i) bestFeatureSubsetThisSize = true).
    { apply existsb_exists. exists i. split; [exact Hbest | apply Z.eqb_refl]. }
    congruence.
  - intros (i & Hi & Hnot & Hc). right. exists i. split.
    + apply in_map_iff. exists (Z.to_nat i). split; [lia|]. apply in_seq. lia.
    + split; [|exact Hc]. apply negb_true_iff.
      destruct (existsb (Z.eqb i) bestFeatureSubsetThisSize) eqn:He; [|reflexivity].
      apply existsb_exists in He. destruct He as (j & Hj & Hij).
      apply Z.eqb_eq in Hij. subst j. contradiction.
Qed.

Lemma makeNewSubsets_forwards_spec_witness :
  exists candidateSubsetsToTry,
    makeNewSubsets_forwards exampleSets [] = Ret candidateSubsetsToTry
    /\ forall c,
         In c candidateSubsetsToTry
         <-> exists i, (0 <= i < Z.of_nat 1)%Z /\ ~ In i [] /\ c = [] ++ [i].
Proof.
  apply (makeNewSubsets_forwards_spec exampleSets [] 1). reflexivity.
Defined.

(** ** The calibrated probability as a function of the response *)

Lemma inv_antitone (c d : Q) : 0 < d -> d <= c -> 1 / c <= 1 / d.
Proof.
  intros Hd Hdc.
  assert (Hc : 0 < c) by lra.
  apply Qle_shift_div_r; [exact Hc|].
  assert (Hpos : 0 < 1 / d) by (apply Qlt_shift_div_l; [exact Hd | lra]).
  assert (Hone : 1 / d * d == 1) by (field; lra).
  nra.
Qed.

Lemma exampleMonoExp_pos (x : Q) : 0 < exampleMonoExp x.
Proof.
  unfold exampleMonoExp. destruct (Qleb x 0) eqn:Hx.
  - apply Qleb_true in Hx. apply Qlt_shift_div_l; lra.
  - apply Qleb_false in Hx. lra.
Qed.

Lemma exampleMonoExp_mono (a b : Q) : a <= b -> exampleMonoExp a <= exampleMonoExp b.
Proof.
  intro Hab. unfold exampleMonoExp.
  destruct (Qleb a 0) eqn:Ha; destruct (Qleb b 0) eqn:Hb.
  - apply Qleb_true in Ha, Hb. apply inv_antitone; lra.
  - apply Qleb_true in Ha. apply Qleb_false in Hb.
    apply Qle_trans with 1; [|lra].
    apply Qle_shift_div_r; lra.
  - apply Qleb_false in Ha. apply Qleb_true in Hb. lra.
  - apply Qleb_false in Ha, Hb. lra.
Qed.

(** With valid sigmoid parameters, [exp] positive and increasing, and
    every operation rounded by a monotone rounding that leaves 0 and 1 as
    they are (the exact arithmetic being the instance that rounds
    nothing), the calibrated probability does not decrease when the
    classifier's response increases. *)
Theorem prob_monotone (exp fl : Q -> Q) (p : CSigmoidParams.t) (x y : Q) :
  (forall a, 0 < exp a) ->
  (forall a b, a <= b -> exp a <= exp b) ->
  (forall a b, a <= b -> fl a <= fl b) ->
  fl 0 == 0 -> fl 1 == 1 ->
  CSigmoidParams.validate p = Ret tt ->
  x <= y ->
  CSigmoidParams.prob exp fl p x <= CSigmoidParams.prob exp fl p y.
Proof.
  intros Hpos Hmono Hfl Hfl0 Hfl1 Hvalid Hxy.
  destruct (validate_inv p tt Hvalid) as (_ & Hlt & _ & Hscale).
  unfold CSigmoidParams.prob, CSigmoidParams.logisticSigmoid.
  set (lo := CSigmoidParams.dThreshLo p) in *.
  set (hi := CSigmoidParams.dThreshHi p) in *.
  set (s := CSigmoidParams.dScale p) in *.
  set (sh := CSigmoidParams.dShift p).
  assert (Hsub : fl (x - sh) <= fl (y - sh)) by (apply Hfl; lra).
  assert (Harg : fl (s * fl (x - sh)) <= fl (s * fl (y - sh))) by (apply Hfl; nra).
  set (ax := fl (s * fl (x - sh))) in *. set (ay := fl (s * fl (y - sh))) in *.
  assert (Hexp : exp (- ay) <= exp (- ax)) by (apply Hmono; lra).
  pose proof (Hpos (- ay)) as Hv.
  assert (Hden : fl (1 + exp (- ay)) <= fl (1 + exp (- ax))) by (apply Hfl; lra).
  assert (Hden1 : 1 <= fl (1 + exp (- ay))).
  { pose proof (Hfl 1 (1 + exp (- ay)) ltac:(lra)). lra. }
  assert (Hinv : 1 / fl (1 + exp (- ax)) <= 1 / fl (1 + exp (- ay)))
    by (apply inv_antitone; lra).
  assert (Hsig0 : 0 <= fl (1 / fl (1 + exp (- ax)))).
  { assert (H0 : 0 <= 1 / fl (1 + exp (- ax))) by (apply Qle_shift_div_l; lra).
    pose proof (Hfl 0 _ H0). lra. }
  assert (Hsig : fl (1 / fl (1 + exp (- ax))) <= fl (1 / fl (1 + exp (- ay))))
    by (apply Hfl; exact Hinv).
  assert (Hd : 0 <= fl (hi - lo)).
  { pose proof (Hfl 0 (hi - lo) ltac:(lra)). lra. }
  apply Hfl.
  assert (Hprod : fl (fl (hi - lo) * fl (1 / fl (1 + exp (- ax))))
                  <= fl (fl (hi - lo) * fl (1 / fl (1 + exp (- ay)))))
    by (apply Hfl; nra).
  lra.
Qed.

Lemma prob_monotone_witness :
  CSigmoidParams.prob exampleMonoExp round_double CSigmoidParams.default (-1)
  <= CSigmoidParams.prob exampleMonoExp round_double CSigmoidParams.default 2.
Proof.
  apply (prob_monotone exampleMonoExp round_double CSigmoidParams.default (-1) 2).
  - exact exampleMonoExp_pos.
  - exact exampleMonoExp_mono.
  - exact round_double_mono.
  - exact round_double_0.
  - exact round_double_1.
  - reflexivity.
  - intro H. vm_compute in H. discriminate.
Defined.

(** ** A failure of the engine while training a fold *)

Section TrainFailure.
Variable E : Engine.
Variable float_cast : Q -> Q.
Variable LM_minimise : list Q -> list Q -> Q -> CSigmoidParams.t -> CSigmoidParams.t.
Variable pClassWeights : Q * Q.

(** When the engine throws while training one of the folds, the K-fold
    scoring of the hyperparameter point ends with that exception: it is
    not caught, and no score is set. *)
Theorem kfold_train_failure_propagates
    (aFeatureDivisions : list CTrainValidateFeatureSet)
    (p : CSVMParameterisation) (tr : trace) :
  (exists featureSet,
      In featureSet aFeatureDivisions
      /\ svm_train E (aFeatures_eTrain featureSet) (aLabels_eTrain featureSet)
                   (svmParams p) = None) ->
  exists tr',
    kfoldTrainAndValidate E float_cast LM_minimise pClassWeights
                          aFeatureDivisions p tr = (CvException, tr').
Proof.
  intro Hbad. unfold kfoldTrainAndValidate.
  destruct (foldScores_train_throws E float_cast LM_minimise pClassWeights
              aFeatureDivisions (svmParams p) Hbad (Num 0) 0 tr)
    as (tr' & H).
  erewrite bind_CvException by exact H.
  eexists; reflexivity.
Qed.
End TrainFailure.

Lemma kfold_train_failure_propagates_witness :
  exists tr',
    kfoldTrainAndValidate strictEngine (fun q => q) exampleLM (-1, 1)
      exampleFolds (mkParameterisation (mkSVMParams 0 1 (-1, 1)) (Num (-1)) (-1)) []
    = (CvException, tr').
Proof.
  apply (kfold_train_failure_propagates strictEngine (fun q => q) exampleLM (-1, 1)
           exampleFolds
           (mkParameterisation (mkSVMParams 0 1 (-1, 1)) (Num (-1)) (-1)) []).
  exists (hd exampleFold exampleFolds). split; vm_compute; [left|]; reflexivity.
Defined.

(** ** What a training run persists *)

Section TrainingRun.
Variable E : Engine.
Variable float_cast : Q -> Q.
Variable meanSD : list Q -> Q * Q.
Variable fNegRelativeWeight : Q.
Variable trainSVM : LabelledSets -> Q * Q -> CFeatureSubsetSelecter.t -> M (trained E).
Variable summary : nat -> nat -> nat -> nat -> string.

End TrainingRun.
